(** * WhatsApp / Gemini relay: message pipeline of [app.js]

    A shallow embedding of the message-processing core of [app.js]
    (conversation store, message chunker, reply generator, delivery loop
    and webhook handler) together with the properties of the design
    document that can be settled on it.

    [app.js] carries two variants of the server.  The chunker
    [splitMessage] is textually the same in both; the other functions
    differ in detail and are embedded once per variant, in the modules
    [First] and [Second]. *)

From Stdlib Require Import ZArith NArith List String Ascii Lia Bool.
From stdpp Require Import base list gmap.

Local Open Scope Z_scope.

(** ** JavaScript strings

    A JavaScript string is a finite sequence of UTF-16 code units and
    [s.length] counts code units.  A code unit is a number; a string is
    the list of its code units. *)

Abbreviation jsstring := (list N).

Definition js (s : string) : jsstring :=
  map N_of_ascii (list_ascii_of_string s).

Definition len (s : jsstring) : Z := Z.of_nat (length s).

Definition SPACE : N := 32%N.
Definition NEWLINE : N := 10%N.
Definition BACKSLASH : N := 92%N.
Definition LOWER_N : N := 110%N.

(** The separator ['\\n'] of the source: a backslash followed by the
    letter n, two code units. *)
Definition MARKER : jsstring := [BACKSLASH; LOWER_N].

(** The separator ['\n'] of the source: the line feed, one code unit. *)
Definition NL : jsstring := [NEWLINE].

Definition SP : jsstring := [SPACE].

Fixpoint isPrefix (p s : jsstring) : bool :=
  match p, s with
  | [], _ => true
  | _ :: _, [] => false
  | a :: p', b :: s' => (a =? b)%N && isPrefix p' s'
  end.

(** [String.prototype.split] with a non-empty string separator: the
    pieces between the successive, non-overlapping occurrences of the
    separator, found from left to right.  [skip] counts the code units of
    a separator just matched that are still to be passed over. *)
Fixpoint splitFrom (sep : jsstring) (skip : nat) (s : jsstring) : list jsstring :=
  match s with
  | [] => [[]]
  | c :: s' =>
      match skip with
      | S k => splitFrom sep k s'
      | O =>
          if isPrefix sep s
          then [] :: splitFrom sep (length sep - 1) s'
          else match splitFrom sep 0 s' with
               | h :: t => (c :: h) :: t
               | [] => [[c]]
               end
      end
  end.

Definition split (sep s : jsstring) : list jsstring := splitFrom sep 0 s.

(** [Array.prototype.join] on an array of strings. *)
Fixpoint join (sep : jsstring) (ls : list jsstring) : jsstring :=
  match ls with
  | [] => []
  | [l] => l
  | l :: ls' => l ++ sep ++ join sep ls'
  end.

(** ** splitMessage *)

(** The variables of the outer loop: [chunks], [currentChunk] and
    [currentLineCount]. *)
Record ChunkState := mkChunkState {
  chunks : list jsstring;
  currentChunk : list jsstring;
  currentLineCount : Z
}.

(** The variables of the word loop: [currentLine] and [currentLength]. *)
Record LineState := mkLineState {
  currentLine : list jsstring;
  currentLength : Z
}.

(** [if (currentLineCount >= maxLines) { chunks.push(currentChunk.join('\n'));
    currentChunk = []; currentLineCount = 0; }] *)
Definition closeChunkIfFull (maxLines : Z) (st : ChunkState) : ChunkState :=
  if currentLineCount st >=? maxLines
  then mkChunkState (chunks st ++ [join NL (currentChunk st)]) [] 0
  else st.

(** The block above followed by [currentChunk.push(line); currentLineCount++].
    The source has this sequence three times: in the word loop, after the
    word loop and for a short paragraph. *)
Definition pushLine (maxLines : Z) (st : ChunkState) (line : jsstring) : ChunkState :=
  let st' := closeChunkIfFull maxLines st in
  mkChunkState (chunks st') (currentChunk st' ++ [line]) (currentLineCount st' + 1).

(** [for (const word of words) { ... }] *)
Fixpoint wordLoop (maxLines maxCharsPerLine : Z) (words : list jsstring)
    (ln : LineState) (st : ChunkState) : LineState * ChunkState :=
  match words with
  | [] => (ln, st)
  | word :: rest =>
      if currentLength ln + len word + 1 <=? maxCharsPerLine
      then wordLoop maxLines maxCharsPerLine rest
             (mkLineState (currentLine ln ++ [word]) (currentLength ln + (len word + 1)))
             st
      else wordLoop maxLines maxCharsPerLine rest
             (mkLineState [word] (len word))
             (pushLine maxLines st (join SP (currentLine ln)))
  end.

(** The body of [for (const paragraph of paragraphs) { ... }]. *)
Definition paragraphStep (maxLines maxCharsPerLine : Z)
    (st : ChunkState) (paragraph : jsstring) : ChunkState :=
  if len paragraph >? maxCharsPerLine
  then
    let '(ln, st') :=
      wordLoop maxLines maxCharsPerLine (split SP paragraph) (mkLineState [] 0) st in
    match currentLine ln with
    | [] => st'
    | _ :: _ => pushLine maxLines st' (join SP (currentLine ln))
    end
  else pushLine maxLines st paragraph.

Definition splitMessage (text : jsstring) (maxLines maxCharsPerLine : Z) : list jsstring :=
  let paragraphs := split MARKER text in
  let st := fold_left (paragraphStep maxLines maxCharsPerLine) paragraphs
              (mkChunkState [] [] 0) in
  match currentChunk st with
  | [] => chunks st
  | _ :: _ => chunks st ++ [join NL (currentChunk st)]
  end.

(** The defaults of [function splitMessage(text, maxLines = 3, maxCharsPerLine = 100)]. *)
Definition splitMessageDefault (text : jsstring) : list jsstring :=
  splitMessage text 3 100.

(** ** The lines of the wrapping step

    [splitMessage] interleaves two things: it wraps paragraphs into
    lines and it fills chunks with lines.  The functions below give the
    lines alone, in the order in which the loops push them, read off
    [wordLoop] and [paragraphStep]: [line] and [total] are
    [currentLine] and [currentLength]. *)
Fixpoint wrapWords (maxCharsPerLine : Z) (words : list jsstring)
    (line : list jsstring) (total : Z) : list jsstring :=
  match words with
  | [] => match line with
          | [] => []
          | _ :: _ => [join SP line]
          end
  | word :: rest =>
      if total + len word + 1 <=? maxCharsPerLine
      then wrapWords maxCharsPerLine rest (line ++ [word]) (total + len word + 1)
      else join SP line :: wrapWords maxCharsPerLine rest [word] (len word)
  end.

Definition paragraphLines (maxCharsPerLine : Z) (paragraph : jsstring)
    : list jsstring :=
  if len paragraph <=? maxCharsPerLine
  then [paragraph]
  else wrapWords maxCharsPerLine (split SP paragraph) [] 0.

Definition wrappedLines (maxCharsPerLine : Z) (text : jsstring)
    : list jsstring :=
  concat (map (paragraphLines maxCharsPerLine) (split MARKER text)).

(** ** The wrapping step as the design document words it

    Section 4.2: "For a paragraph longer than maxCharsPerLine: greedily
    repack its words into lines, adding a word to the current line only
    if appending it (plus one separating space) keeps total length <=
    maxCharsPerLine; otherwise the current line is closed and a new
    line starts with that word.  (Single words longer than
    maxCharsPerLine are not further split - they form an oversized
    line; accept this edge case.)"

    The words of a paragraph are its pieces between blanks.  The first
    word starts the first line; [line] is the current line, and its
    total length is its length as a string. *)
Fixpoint spec_repack (maxCharsPerLine : Z) (words : list jsstring)
    (line : jsstring) : list jsstring :=
  match words with
  | [] => [line]
  | word :: rest =>
      if len line + 1 + len word <=? maxCharsPerLine
      then spec_repack maxCharsPerLine rest (line ++ SP ++ word)
      else line :: spec_repack maxCharsPerLine rest word
  end.

(** "For a paragraph whose length <= maxCharsPerLine: treat it as one
    emitted line." *)
Definition spec_paragraph_lines (maxCharsPerLine : Z) (paragraph : jsstring)
    : list jsstring :=
  if len paragraph <=? maxCharsPerLine
  then [paragraph]
  else match split SP paragraph with
       | first :: rest => spec_repack maxCharsPerLine rest first
       | [] => []
       end.

(** "Split input on an explicit line-break marker embedded in the text",
    then wrap each paragraph: the lines of the greedy wrapping step. *)
Definition spec_wrapped_lines (maxCharsPerLine : Z) (text : jsstring)
    : list jsstring :=
  concat (map (spec_paragraph_lines maxCharsPerLine) (split MARKER text)).

(** The lines a reader recovers from the chunks: each chunk split on the
    line feed, in order. *)
Definition lines_of_chunks (cs : list jsstring) : list jsstring :=
  concat (map (split NL) cs).

(** [String.prototype.includes]. *)
Fixpoint includes (s p : jsstring) : bool :=
  isPrefix p s ||
  match s with
  | [] => false
  | _ :: s' => includes s' p
  end.

(** A line is a single word when no blank occurs in it. *)
Definition single_word (l : jsstring) : Prop := SPACE ∉ l.

(** The bound of a produced line: at most [maxCharsPerLine] code units,
    unless it is a single word longer than that. *)
Definition line_within (maxCharsPerLine : Z) (l : jsstring) : Prop :=
  len l <= maxCharsPerLine \/ (single_word l /\ maxCharsPerLine < len l).

(** ** Values, errors and the outside world *)

#[local] Set Warnings "-register-all".

(** A value that arrives as JSON: the body of a webhook request, the
    content of a conversation file.  Numbers matter to the code only
    through their truthiness and are integers here.  An object is the
    list of its properties; a name is looked up from the front. *)
Inductive json :=
| JNull
| JBool (b : bool)
| JNum (n : Z)
| JStr (s : jsstring)
| JArr (items : list json)
| JObj (props : list (jsstring * json)).

(** The errors the code tells apart. *)
Inductive JsError := TypeError | SyntaxError | ENOENT | OtherError.

(** The outcome of a computation that may throw. *)
Inductive Result (A : Type) :=
| Ok (a : A)
| Throw (e : JsError).
Arguments Ok {A} a.
Arguments Throw {A} e.

(** Statements in sequence: the first one that throws ends the block. *)
#[global] Instance Result_bind : MBind Result :=
  fun A B k r =>
    match r with
    | Ok a => k a
    | Throw e => Throw e
    end.

Fixpoint lookupProp (name : jsstring) (props : list (jsstring * json)) : option json :=
  match props with
  | [] => None
  | (k, v) :: rest => if bool_decide (k = name) then Some v else lookupProp name rest
  end.

(** [v.name] for a value [v] that is neither [null] nor [undefined] and
    a name that no prototype defines (true of every name the handlers
    read): the property of an object, [undefined] (here [None]) for
    anything else. *)
Definition prop (v : json) (name : string) : option json :=
  match v with
  | JObj props => lookupProp (js name) props
  | _ => None
  end.

(** [o?.name] and [o && o.name] as far as truthiness and the value of a
    present property go: [undefined] when [o] is. *)
Definition propOf (o : option json) (name : string) : option json :=
  match o with
  | Some v => prop v name
  | None => None
  end.

(** JavaScript truthiness of a parsed value, and of a possibly
    [undefined] one. *)
Definition truthyValue (v : json) : bool :=
  match v with
  | JNull => false
  | JBool b => b
  | JNum n => negb (n =? 0)
  | JStr s => negb (bool_decide (s = []))
  | JArr _ => true
  | JObj _ => true
  end.

Definition truthy (o : option json) : bool :=
  match o with
  | Some v => truthyValue v
  | None => false
  end.

Definition isNull (v : json) : bool :=
  match v with
  | JNull => true
  | _ => false
  end.

(** [`${v}`]: whether the conversion of an interpolated value to a
    string throws.  An object with a property [toString] of its own
    hides [Object.prototype.toString]; a parsed value is never
    callable, and [valueOf], its own or the one of the prototype, which
    returns the object, gives no primitive either: a [TypeError].  An
    object without such a property is ["[object Object]"].  An array is
    converted by [Array.prototype.join], which converts every element
    other than [null]; [null], booleans, numbers and strings convert. *)
Fixpoint toStringThrows (v : json) : bool :=
  match v with
  | JObj props => bool_decide (is_Some (lookupProp (js "toString") props))
  | JArr items => existsb toStringThrows items
  | _ => false
  end.

(** A template literal that interpolates [values], [undefined] being
    [None]; the string it makes goes to the log and matters no
    further. *)
Definition templateLiteral (values : list (option json)) : Result unit :=
  if existsb (fun o => from_option toStringThrows false o) values
  then Throw TypeError
  else Ok tt.

(** Truthiness of a string, and of an environment variable, which is a
    string or [undefined]. *)
Definition nonEmpty (s : jsstring) : bool := negb (bool_decide (s = [])).

Definition isSet (o : option jsstring) : bool :=
  match o with
  | Some s => nonEmpty s
  | None => false
  end.

(** [name in v]: throws a [TypeError] unless [v] is an object or an
    array; no array has a property of the names tested. *)
Definition hasProp (name : string) (v : json) : Result bool :=
  match v with
  | JObj props => Ok (bool_decide (is_Some (lookupProp (js name) props)))
  | JArr _ => Ok false
  | _ => Throw TypeError
  end.

(** [String.prototype.trim]: the white space and line terminator code
    units of ECMAScript. *)
Definition isWhiteSpace (c : N) : bool :=
  ((c =? 9) || (c =? 10) || (c =? 11) || (c =? 12) || (c =? 13) || (c =? 32)
   || (c =? 160) || (c =? 5760) || ((8192 <=? c) && (c <=? 8202))
   || (c =? 8232) || (c =? 8233) || (c =? 8239) || (c =? 8287)
   || (c =? 12288) || (c =? 65279))%N.

Fixpoint trimStart (s : jsstring) : jsstring :=
  match s with
  | [] => []
  | c :: s' => if isWhiteSpace c then trimStart s' else s
  end.

Definition trimEnd (s : jsstring) : jsstring := rev (trimStart (rev s)).

Definition trim (s : jsstring) : jsstring := trimEnd (trimStart s).

(** [s.replace(/[^a-zA-Z0-9]/g, '_')]. *)
Definition isAlphaNumeric (c : N) : bool :=
  (((48 <=? c) && (c <=? 57)) || ((65 <=? c) && (c <=? 90))
   || ((97 <=? c) && (c <=? 122)))%N.

Definition UNDERSCORE : N := 95%N.

Definition sanitize (s : jsstring) : jsstring :=
  map (fun c => if isAlphaNumeric c then c else UNDERSCORE) s.

(** [o === s] for a string literal [s]. *)
Definition isStr (o : option json) (s : string) : bool :=
  match o with
  | Some (JStr t) => bool_decide (t = js s)
  | _ => false
  end.

(** The condition [data.event === 'messages.upsert' && data.data &&
    data.data.messages] of both handlers, with [data.data.messages] when
    it holds. *)
Definition upsertedMessage (data : json) : option json :=
  if isStr (prop data "event") "messages.upsert" && truthy (prop data "data")
  then match propOf (prop data "data") "messages" with
       | Some messageInfo => if truthyValue messageInfo then Some messageInfo else None
       | None => None
       end
  else None.

(** The text of a conversation file: text on which [JSON.parse] throws a
    [SyntaxError], or text that [JSON.parse] turns into the value [v].
    [JSON.stringify(v, null, 2)] writes text of the second kind, for the
    same [v]. *)
Inductive FileContent :=
| Garbled (raw : jsstring)
| JsonText (v : json).

Definition JSON_parse (c : FileContent) : Result json :=
  match c with
  | Garbled _ => Throw SyntaxError
  | JsonText v => Ok v
  end.

Definition JSON_stringify (v : json) : FileContent := JsonText v.

(** The body of a request to the WaSender API. *)
Record Payload := mkPayload {
  payload_to : jsstring;
  payload_text : option jsstring;
  payload_imageUrl : option jsstring;
  payload_videoUrl : option jsstring;
  payload_audioUrl : option jsstring;
  payload_documentUrl : option jsstring
}.

(** What the handler does to the outside, in order: a request posted to
    the WaSender API with its outcome, and a pause between two chunks. *)
Inductive Effect :=
| Post (payload : Payload) (ok : bool)
| Sleep.

(** The state the handler reads and changes: the files by path, in a
    file system that tells two paths apart when they differ as
    strings, and the effects so far. *)
Record World := mkWorld {
  files : gmap jsstring FileContent;
  effects : list Effect
}.

(** The result of a Gemini call as far as the code inspects it:
    [response.response.candidates], [response.text] and
    [response.candidates], each possibly absent, down to the text of a
    part. *)
Record Part := mkPart { part_text : option jsstring }.
Record Content := mkContent { content_parts : option (list Part) }.
Record Candidate := mkCandidate { candidate_content : option Content }.
Record InnerResponse := mkInner { inner_candidates : option (list Candidate) }.
Record GeminiResult := mkGeminiResult {
  result_response : option InnerResponse;
  result_text : option jsstring;
  result_candidates : option (list Candidate)
}.

(** Configuration and collaborators: the two environment variables, the
    Gemini client, the HTTP client (whether a request succeeds may
    depend on everything done so far) and the paths on which file
    access fails with an error other than "not found".

    [chat_sendMessage message history] is [model.startChat({ history })]
    followed by [chat.sendMessage(message)].  The call resolves to a
    result, possibly [undefined], or rejects.  [startChat] is handed
    the array [history] itself, not a copy, and the handlers go on to
    use that array: the second component is what the array holds once
    the call has settled.  [model.generateContent(message)] is handed
    no array. *)
Record Env := mkEnv {
  GEMINI_API_KEY : option jsstring;
  WASENDER_API_TOKEN : option jsstring;
  chat_sendMessage : json -> list json -> Result (option GeminiResult) * list json;
  model_generateContent : json -> Result (option GeminiResult);
  axios_post : list Effect -> Payload -> bool;
  fs_fault : jsstring -> bool
}.

Definition SLASH : N := 47%N.

(** [normalizeString(path, allowAboveRoot, '/', ...)] of the POSIX
    [path] module of Node.js, on the segments of the path between
    separators.  An empty segment and ["."] are dropped; [".."] removes
    the segment kept last, unless there is none or it is [".."]
    itself, and is then kept when [allowAboveRoot]; any other segment
    is kept.  [res] holds the segments kept so far. *)
Fixpoint normalizeSegments (allowAboveRoot : bool) (segments res : list jsstring)
    : list jsstring :=
  match segments with
  | [] => res
  | segment :: rest =>
      if bool_decide (segment = []) || bool_decide (segment = js ".")
      then normalizeSegments allowAboveRoot rest res
      else if bool_decide (segment = js "..")
      then
        match last res with
        | Some kept =>
            if bool_decide (kept = js "..")
            then normalizeSegments allowAboveRoot rest
                   (if allowAboveRoot then res ++ [js ".."] else res)
            else normalizeSegments allowAboveRoot rest (removelast res)
        | None =>
            normalizeSegments allowAboveRoot rest
              (if allowAboveRoot then [js ".."] else [])
        end
      else normalizeSegments allowAboveRoot rest (res ++ [segment])
  end.

(** [path.posix.normalize]. *)
Definition path_normalize (path : jsstring) : jsstring :=
  match path with
  | [] => js "."
  | first :: _ =>
      let isAbsolute := (first =? SLASH)%N in
      let trailingSeparator := bool_decide (last path = Some SLASH) in
      let res :=
        join [SLASH] (normalizeSegments (negb isAbsolute) (split [SLASH] path) []) in
      match res with
      | [] => if isAbsolute then js "/" else if trailingSeparator then js "./" else js "."
      | _ :: _ =>
          let res := if trailingSeparator then res ++ [SLASH] else res in
          if isAbsolute then SLASH :: res else res
      end
  end.

(** [path.posix.join(a, b)]: the arguments that are not empty, joined
    by a separator and normalized. *)
Definition path_join (a b : jsstring) : jsstring :=
  match a, b with
  | [], [] => js "."
  | [], _ :: _ => path_normalize b
  | _ :: _, [] => path_normalize a
  | _ :: _, _ :: _ => path_normalize (a ++ [SLASH] ++ b)
  end.

Definition CONVERSATIONS_DIR : jsstring := js "conversations".

(** [path.join(CONVERSATIONS_DIR, `${userId}.json`)]. *)
Definition conversationPath (userId : jsstring) : jsstring :=
  path_join CONVERSATIONS_DIR (userId ++ js ".json").

Definition fs_readFile (env : Env) (w : World) (path : jsstring) : Result FileContent :=
  if fs_fault env path then Throw OtherError
  else match files w !! path with
       | None => Throw ENOENT
       | Some c => Ok c
       end.

Definition fs_writeFile (env : Env) (w : World) (path : jsstring) (c : FileContent)
    : Result World :=
  if fs_fault env path then Throw OtherError
  else Ok (mkWorld (<[path := c]> (files w)) (effects w)).

(** [Array.prototype.every] with a predicate that may throw. *)
Fixpoint every (f : json -> Result bool) (items : list json) : Result bool :=
  match items with
  | [] => Ok true
  | item :: rest =>
      match f item with
      | Throw e => Throw e
      | Ok false => Ok false
      | Ok true => every f rest
      end
  end.

(** The response of the webhook: [res.status(s).json({status, message})]. *)
Record Response := mkResponse {
  res_status : Z;
  res_body_status : string;
  res_body_message : option string
}.

Definition APOLOGY : jsstring :=
  js "Sorry, I'm having trouble connecting to my brain right now (API key issue).".
Definition TROUBLE : jsstring :=
  js "I'm having trouble processing that request with my AI brain. Please try again later.".
Definition UNEXPECTED_FORMAT : jsstring :=
  js "I received an unexpected response format from Gemini. Please try again.".
Definition UNUSUAL_STRUCTURE : jsstring :=
  js "I received an unusual response structure from Gemini. Please try again.".
Definition EMPTY_OR_UNEXPECTED : jsstring :=
  js "I received an empty or unexpected response from Gemini. Please try again.".

(** [candidates[0].content.parts[0].text.trim()], every step of which
    throws a [TypeError] on [undefined]. *)
Definition firstCandidateText (candidates : list Candidate) : Result jsstring :=
  match candidates with
  | [] => Throw TypeError
  | c :: _ =>
      match candidate_content c with
      | None => Throw TypeError
      | Some content =>
          match content_parts content with
          | None => Throw TypeError
          | Some [] => Throw TypeError
          | Some (part :: _) =>
              match part_text part with
              | None => Throw TypeError
              | Some t => Ok (trim t)
              end
          end
      end
  end.

(** [recipientNumber.includes('@s.whatsapp.net') ? recipientNumber.split('@')[0]
    : recipientNumber] *)
Definition formatRecipient (recipientNumber : jsstring) : jsstring :=
  if nonEmpty recipientNumber && includes recipientNumber (js "@s.whatsapp.net")
  then match split (js "@") recipientNumber with
       | first :: _ => first
       | [] => recipientNumber
       end
  else recipientNumber.

Definition emptyPayload (to_ : jsstring) : Payload :=
  mkPayload to_ None None None None None.

(** ** The first variant of the server *)
Module First.

(** [typeof item === 'object' && 'role' in item && 'parts' in item]:
    [typeof null] is ['object'], and [in] throws on [null]. *)
Definition isTurn (item : json) : Result bool :=
  match item with
  | JObj props =>
      Ok (bool_decide (is_Some (lookupProp (js "role") props))
          && bool_decide (is_Some (lookupProp (js "parts") props)))
  | JArr _ => Ok false
  | JNull => Throw TypeError
  | _ => Ok false
  end.

(** The [try] block of [loadConversationHistory]. *)
Definition loadConversationHistory_try (env : Env) (w : World) (userId : jsstring)
    : Result (list json) :=
  let filePath := conversationPath userId in
  match fs_readFile env w filePath with
  | Throw e => Throw e
  | Ok content =>
      match JSON_parse content with
      | Throw e => Throw e
      | Ok history =>
          match history with
          | JArr items =>
              match every isTurn items with
              | Throw e => Throw e
              | Ok true => Ok items
              | Ok false => Ok []
              end
          | _ => Ok []
          end
      end
  end.

(** Each branch of the [catch] returns the empty array. *)
Definition loadConversationHistory (env : Env) (w : World) (userId : jsstring)
    : list json :=
  match loadConversationHistory_try env w userId with
  | Ok history => history
  | Throw ENOENT => []
  | Throw SyntaxError => []
  | Throw _ => []
  end.

Definition saveConversationHistory (env : Env) (userId : jsstring)
    (history : list json) (w : World) : World :=
  let filePath := conversationPath userId in
  match fs_writeFile env w filePath (JSON_stringify (JArr history)) with
  | Ok w' => w'
  | Throw _ => w
  end.

(** [response.response.candidates], when the first condition on the
    shape of the result holds: a candidate with content and at least
    one part. *)
Definition nestedCandidates (r : GeminiResult) : option (list Candidate) :=
  match result_response r with
  | Some inner =>
      match inner_candidates inner with
      | Some (c :: cs) =>
          match candidate_content c with
          | Some content =>
              match content_parts content with
              | Some (_ :: _) => Some (c :: cs)
              | _ => None
              end
          | None => None
          end
      | _ => None
      end
  | None => None
  end.

(** [response.candidates], when the third condition holds: a candidate
    with content and parts, possibly none. *)
Definition topLevelCandidates (r : GeminiResult) : option (list Candidate) :=
  match result_candidates r with
  | Some (c :: cs) =>
      match candidate_content c with
      | Some content =>
          match content_parts content with
          | Some _ => Some (c :: cs)
          | None => None
          end
      | None => None
      end
  | _ => None
  end.

(** The three shapes tried on a result, in the order of the source. *)
Definition extractText (response : option GeminiResult) : Result jsstring :=
  match response with
  | None => Ok UNEXPECTED_FORMAT
  | Some r =>
      match nestedCandidates r with
      | Some candidates => firstCandidateText candidates
      | None =>
          match result_text r with
          | Some ((_ :: _) as t) => Ok (trim t)
          | _ =>
              match topLevelCandidates r with
              | Some candidates => firstCandidateText candidates
              | None => Ok UNEXPECTED_FORMAT
              end
          end
      end
  end.

(** The [try] block of [getGeminiResponse]: [messageText.substring]
    throws unless the message is a string; both branches on the
    history call [chat.sendMessage], the first one on a chat that was
    handed the array [conversationHistory], the second one on a chat
    started without history.  The second component is what
    [conversationHistory] holds afterwards. *)
Definition getGeminiResponse_try (env : Env) (messageText : json)
    (conversationHistory : list json) : Result jsstring * list json :=
  match messageText with
  | JStr _ =>
      let settled := chat_sendMessage env messageText conversationHistory in
      (response ← fst settled; extractText response,
       match conversationHistory with
       | _ :: _ => snd settled
       | [] => []
       end)
  | _ => (Throw TypeError, conversationHistory)
  end.

(** [getGeminiResponse]: the reply, and [conversationHistory] as the
    call leaves it. *)
Definition getGeminiResponse (env : Env) (messageText : json)
    (conversationHistory : list json) : jsstring * list json :=
  if negb (isSet (GEMINI_API_KEY env)) then (APOLOGY, conversationHistory)
  else
    let attempt := getGeminiResponse_try env messageText conversationHistory in
    (match fst attempt with
     | Ok reply => reply
     | Throw _ => TROUBLE
     end,
     snd attempt).

(** [sendWhatsappMessage]; [messageType] is one of the strings of the
    source, [mediaUrl] is [null] when [None]. *)
Definition sendWhatsappMessage (env : Env) (recipientNumber messageContent : jsstring)
    (messageType : string) (mediaUrl : option jsstring) (w : World) : bool * World :=
  if negb (isSet (WASENDER_API_TOKEN env)) then (false, w)
  else
    let p := emptyPayload (formatRecipient recipientNumber) in
    let content := if nonEmpty messageContent then Some messageContent else None in
    let payload : option Payload :=
      if String.eqb messageType "text"
      then Some (mkPayload (payload_to p) (Some messageContent) None None None None)
      else if String.eqb messageType "image" && isSet mediaUrl
      then Some (mkPayload (payload_to p) content mediaUrl None None None)
      else if String.eqb messageType "video" && isSet mediaUrl
      then Some (mkPayload (payload_to p) content None mediaUrl None None)
      else if String.eqb messageType "audio" && isSet mediaUrl
      then Some (mkPayload (payload_to p) None None None mediaUrl None)
      else if String.eqb messageType "document" && isSet mediaUrl
      then Some (mkPayload (payload_to p) content None None None mediaUrl)
      else None in
    match payload with
    | None => (false, w)
    | Some payload =>
        let ok := axios_post env (effects w) payload in
        (ok, mkWorld (files w) (effects w ++ [Post payload ok]))
    end.

(** The [for] loop over [messageChunks]: [remaining] are the chunks from
    index [i] on, and [i < messageChunks.length - 1] says that a chunk
    follows the current one. *)
Fixpoint deliveryLoop (env : Env) (senderNumber : jsstring)
    (remaining : list jsstring) (w : World) : World :=
  match remaining with
  | [] => w
  | chunk :: rest =>
      let '(success, w1) := sendWhatsappMessage env senderNumber chunk "text" None w in
      if negb success then w1
      else
        let w2 := match rest with
                  | [] => w1
                  | _ :: _ => mkWorld (files w1) (effects w1 ++ [Sleep])
                  end in
        deliveryLoop env senderNumber rest w2
  end.

Definition userTurn (text : json) : json :=
  JObj [(js "role", JStr (js "user"));
        (js "parts", JArr [JObj [(js "text", text)]])].

Definition modelTurn (reply : jsstring) : json :=
  JObj [(js "role", JStr (js "model"));
        (js "parts", JArr [JObj [(js "text", JStr reply)]])].

(** The branch [if (messageType === 'text' && incomingMessageText)]:
    the log line interpolates the sender, the key and the text; the two
    turns are pushed onto the array that [getGeminiResponse] was
    given. *)
Definition processText (env : Env) (senderNumber safeSenderId : jsstring)
    (incomingMessageText : json) (w : World) : Result World :=
  templateLiteral [Some (JStr senderNumber); Some (JStr safeSenderId);
                   Some incomingMessageText];;
  let conversationHistory := loadConversationHistory env w safeSenderId in
  let generated := getGeminiResponse env incomingMessageText conversationHistory in
  let geminiReply := fst generated in
  let conversationHistory := snd generated in
  if nonEmpty geminiReply then
    let messageChunks := splitMessageDefault geminiReply in
    let w1 := deliveryLoop env senderNumber messageChunks w in
    let conversationHistory :=
      conversationHistory ++ [userTurn incomingMessageText; modelTurn geminiReply] in
    Ok (saveConversationHistory env safeSenderId conversationHistory w1)
  else Ok w.

(** [incomingMessageText] and whether [messageType] became ['text']. *)
Definition extractIncoming (messageInfo : json) : option json * bool :=
  match prop messageInfo "message" with
  | Some msgContentObj =>
      if truthyValue msgContentObj then
        if truthy (prop msgContentObj "conversation")
        then (prop msgContentObj "conversation", true)
        else if truthy (prop msgContentObj "extendedTextMessage")
                && truthy (propOf (prop msgContentObj "extendedTextMessage") "text")
        then (propOf (prop msgContentObj "extendedTextMessage") "text", true)
        else (None, false)
      else (None, false)
  | None => (None, false)
  end.

Definition success : Response := mkResponse 200 "success" None.
Definition selfSent : Response :=
  mkResponse 200 "success" (Some "Self-sent message ignored"%string).
Definition systemMessage : Response :=
  mkResponse 200 "success" (Some "System message processed"%string).
Definition incompleteSender : Response :=
  mkResponse 400 "error" (Some "Incomplete sender data"%string).
Definition internalError : Response :=
  mkResponse 500 "error" (Some "Internal server error"%string).

(** The [try] block of the handler, for a parsed body [data]:
    [data.event] throws on [null]; the log lines convert what they
    interpolate to strings; [senderNumber.replace] throws unless the
    sender is a string.  The stub type is tested before the sender. *)
Definition webhook_try (env : Env) (data : json) (w : World) : Result (Response * World) :=
  if isNull data then Throw TypeError
  else
    match upsertedMessage data with
    | Some messageInfo =>
        if truthy (prop messageInfo "key") && truthy (propOf (prop messageInfo "key") "fromMe")
        then
          templateLiteral [propOf (prop messageInfo "key") "id"];;
          Ok (selfSent, w)
        else
          let senderNumber :=
            if truthy (prop messageInfo "key")
            then propOf (prop messageInfo "key") "remoteJid"
            else None in
          let '(incomingMessageText, isText) := extractIncoming messageInfo in
          if truthy (prop messageInfo "messageStubType")
          then
            let stubParams :=
              if truthy (prop messageInfo "messageStubParameters")
              then prop messageInfo "messageStubParameters"
              else Some (JArr []) in
            templateLiteral [prop messageInfo "messageStubType"; senderNumber; stubParams];;
            Ok (systemMessage, w)
          else if negb (truthy senderNumber)
          then Ok (incompleteSender, w)
          else
            match senderNumber with
            | Some (JStr sender) =>
                let safeSenderId := sanitize sender in
                match incomingMessageText with
                | Some text =>
                    if isText && truthyValue text
                    then
                      w' ← processText env sender safeSenderId text w;
                      Ok (success, w')
                    else Ok (success, w)
                | None => Ok (success, w)
                end
            | _ => Throw TypeError
            end
    | None =>
        if truthy (prop data "event")
        then
          templateLiteral [prop data "event"];;
          Ok (success, w)
        else Ok (success, w)
    end.

(** [app.post('/webhook', ...)]: the [catch] answers 500. *)
Definition webhook (env : Env) (data : json) (w : World) : Response * World :=
  match webhook_try env data w with
  | Ok r => r
  | Throw _ => (internalError, w)
  end.

End First.

(** ** The second variant of the server *)
Module Second.

(** [item.role && item.parts]: reading a property of [null] throws. *)
Definition isTurn (item : json) : Result bool :=
  match item with
  | JNull => Throw TypeError
  | _ => Ok (truthy (prop item "role") && truthy (prop item "parts"))
  end.

Definition loadConversationHistory_try (env : Env) (w : World) (userId : jsstring)
    : Result (list json) :=
  let filePath := conversationPath userId in
  match fs_readFile env w filePath with
  | Throw e => Throw e
  | Ok data =>
      match JSON_parse data with
      | Throw e => Throw e
      | Ok history =>
          match history with
          | JArr items =>
              match every isTurn items with
              | Throw e => Throw e
              | Ok true => Ok items
              | Ok false => Ok []
              end
          | _ => Ok []
          end
      end
  end.

Definition loadConversationHistory (env : Env) (w : World) (userId : jsstring)
    : list json :=
  match loadConversationHistory_try env w userId with
  | Ok history => history
  | Throw _ => []
  end.

Definition saveConversationHistory (env : Env) (userId : jsstring)
    (history : list json) (w : World) : World :=
  let filePath := conversationPath userId in
  match fs_writeFile env w filePath (JSON_stringify (JArr history)) with
  | Ok w' => w'
  | Throw _ => w
  end.

(** The inspection of a result, the same after [chat.sendMessage] and
    after [model.generateContent]; the inner [try] has its own
    [catch]. *)
Definition extractText (response : option GeminiResult) : jsstring :=
  match response with
  | None => EMPTY_OR_UNEXPECTED
  | Some r =>
      match result_text r with
      | Some ((_ :: _) as t) => trim t
      | _ =>
          match result_candidates r with
          | Some candidates =>
              match firstCandidateText candidates with
              | Ok t => t
              | Throw _ => UNUSUAL_STRUCTURE
              end
          | None => EMPTY_OR_UNEXPECTED
          end
      end
  end.

(** The [try] block of [getGeminiResponse]: [chat.sendMessage] on a
    chat that was handed the array [conversationHistory] when there is
    history, [model.generateContent] otherwise. *)
Definition getGeminiResponse_try (env : Env) (messageText : json)
    (conversationHistory : list json) : Result jsstring * list json :=
  match conversationHistory with
  | _ :: _ =>
      let settled := chat_sendMessage env messageText conversationHistory in
      (response ← fst settled; Ok (extractText response), snd settled)
  | [] =>
      (response ← model_generateContent env messageText; Ok (extractText response), [])
  end.

Definition getGeminiResponse (env : Env) (messageText : json)
    (conversationHistory : list json) : jsstring * list json :=
  if negb (isSet (GEMINI_API_KEY env)) then (APOLOGY, conversationHistory)
  else
    let attempt := getGeminiResponse_try env messageText conversationHistory in
    (match fst attempt with
     | Ok reply => reply
     | Throw _ => TROUBLE
     end,
     snd attempt).

(** [sendWhatsAppMessage], a [switch] on [messageType]. *)
Definition sendWhatsAppMessage (env : Env) (recipientNumber messageContent : jsstring)
    (messageType : string) (mediaUrl : option jsstring) (w : World) : bool * World :=
  if negb (isSet (WASENDER_API_TOKEN env)) then (false, w)
  else
    let to_ := formatRecipient recipientNumber in
    let content := if nonEmpty messageContent then Some messageContent else None in
    let payload : option Payload :=
      if String.eqb messageType "text"
      then Some (mkPayload to_ (Some messageContent) None None None None)
      else if String.eqb messageType "image"
      then if isSet mediaUrl then Some (mkPayload to_ content mediaUrl None None None)
           else None
      else if String.eqb messageType "video"
      then if isSet mediaUrl then Some (mkPayload to_ content None mediaUrl None None)
           else None
      else if String.eqb messageType "audio"
      then if isSet mediaUrl then Some (mkPayload to_ None None None mediaUrl None)
           else None
      else if String.eqb messageType "document"
      then if isSet mediaUrl then Some (mkPayload to_ content None None None mediaUrl)
           else None
      else None in
    match payload with
    | None => (false, w)
    | Some payload =>
        let ok := axios_post env (effects w) payload in
        (ok, mkWorld (files w) (effects w ++ [Post payload ok]))
    end.

Fixpoint deliveryLoop (env : Env) (senderNumber : jsstring)
    (remaining : list jsstring) (w : World) : World :=
  match remaining with
  | [] => w
  | chunk :: rest =>
      let '(sent, w1) := sendWhatsAppMessage env senderNumber chunk "text" None w in
      if negb sent then w1
      else
        let w2 := match rest with
                  | [] => w1
                  | _ :: _ => mkWorld (files w1) (effects w1 ++ [Sleep])
                  end in
        deliveryLoop env senderNumber rest w2
  end.

Definition userTurn (text : json) : json :=
  JObj [(js "role", JStr (js "user")); (js "parts", JArr [text])].

Definition modelTurn (reply : jsstring) : json :=
  JObj [(js "role", JStr (js "model")); (js "parts", JArr [JStr reply])].

Definition processText (env : Env) (senderNumber safeSenderId : jsstring)
    (incomingMessageText : json) (w : World) : Result World :=
  templateLiteral [Some (JStr senderNumber); Some (JStr safeSenderId);
                   Some incomingMessageText];;
  let conversationHistory := loadConversationHistory env w safeSenderId in
  let generated := getGeminiResponse env incomingMessageText conversationHistory in
  let geminiReply := fst generated in
  let conversationHistory := snd generated in
  if nonEmpty geminiReply then
    let messageChunks := splitMessageDefault geminiReply in
    let w1 := deliveryLoop env senderNumber messageChunks w in
    let conversationHistory :=
      conversationHistory ++ [userTurn incomingMessageText; modelTurn geminiReply] in
    Ok (saveConversationHistory env safeSenderId conversationHistory w1)
  else Ok w.

(** [incomingMessageText] and whether [messageType] became ['text'];
    ['conversation' in msgContentObj] throws unless the message is an
    object or an array. *)
Definition extractIncoming (messageInfo : json) : Result (option json * bool) :=
  match prop messageInfo "message" with
  | Some msgContentObj =>
      if truthyValue msgContentObj then
        match hasProp "conversation" msgContentObj with
        | Throw e => Throw e
        | Ok true => Ok (prop msgContentObj "conversation", true)
        | Ok false =>
            if truthy (propOf (prop msgContentObj "extendedTextMessage") "text")
            then Ok (propOf (prop msgContentObj "extendedTextMessage") "text", true)
            else Ok (None, false)
        end
      else Ok (None, false)
  | None => Ok (None, false)
  end.

Definition success : Response := mkResponse 200 "success" None.
Definition selfSent : Response :=
  mkResponse 200 "success" (Some "Self-sent message ignored"%string).
Definition systemMessage : Response :=
  mkResponse 200 "success" (Some "System message processed"%string).
Definition incompleteSender : Response :=
  mkResponse 400 "error" (Some "Incomplete sender data"%string).
Definition internalError : Response :=
  mkResponse 500 "error" (Some "Internal server error"%string).

(** The [try] block of the handler: the sender is checked first, then
    the text is extracted, then the stub type is tested. *)
Definition webhook_try (env : Env) (data : json) (w : World) : Result (Response * World) :=
  if isNull data then Throw TypeError
  else
    match upsertedMessage data with
    | Some messageInfo =>
        if truthy (propOf (prop messageInfo "key") "fromMe")
        then
          templateLiteral [propOf (prop messageInfo "key") "id"];;
          Ok (selfSent, w)
        else
          let senderNumber := propOf (prop messageInfo "key") "remoteJid" in
          if negb (truthy senderNumber)
          then Ok (incompleteSender, w)
          else
            match senderNumber with
            | Some (JStr sender) =>
                let safeSenderId := sanitize sender in
                '(incomingMessageText, isText) ← extractIncoming messageInfo;
                if truthy (prop messageInfo "messageStubType")
                then
                  let stubParams :=
                    if truthy (prop messageInfo "messageStubParameters")
                    then prop messageInfo "messageStubParameters"
                    else Some (JArr []) in
                  templateLiteral [prop messageInfo "messageStubType"; senderNumber;
                                   stubParams];;
                  Ok (systemMessage, w)
                else
                  match incomingMessageText with
                  | Some text =>
                      if isText && truthyValue text
                      then
                        w' ← processText env sender safeSenderId text w;
                        Ok (success, w')
                      else Ok (success, w)
                  | None => Ok (success, w)
                  end
            | _ => Throw TypeError
            end
    | None =>
        if truthy (prop data "event")
        then
          templateLiteral [prop data "event"];;
          Ok (success, w)
        else Ok (success, w)
    end.

Definition webhook (env : Env) (data : json) (w : World) : Response * World :=
  match webhook_try env data w with
  | Ok r => r
  | Throw _ => (internalError, w)
  end.

End Second.

(** ** Vocabulary of the properties *)

(** An object that carries a role and parts. *)
Definition carriesRoleAndParts (item : json) : Prop :=
  exists props, item = JObj props /\
    is_Some (lookupProp (js "role") props) /\
    is_Some (lookupProp (js "parts") props).

(** A stored record is usable when it parses to an array of objects each
    carrying a role and parts; it is unusable when it is missing,
    unparseable or of another structure. *)
Definition isHistory (v : json) : Prop :=
  exists items, v = JArr items /\ Forall carriesRoleAndParts items.

Definition unusableRecord (record : option FileContent) : Prop :=
  match record with
  | None => True
  | Some (Garbled _) => True
  | Some (JsonText v) => ~ isHistory v
  end.

(** The effects of posts separated by pauses. *)
Fixpoint withPauses (posts : list Effect) : list Effect :=
  match posts with
  | [] => []
  | [e] => [e]
  | e :: rest => e :: Sleep :: withPauses rest
  end.

(** The request that carries one chunk: type "text", no media. *)
Definition textPost (recipient chunk : jsstring) (ok : bool) : Effect :=
  Post (mkPayload (formatRecipient recipient) (Some chunk) None None None None) ok.

(** [candidates[0].content.parts[0].text] when every step is there. *)
Definition firstPartText (candidates : option (list Candidate)) : option jsstring :=
  match candidates with
  | Some (c :: _) =>
      match candidate_content c with
      | Some content =>
          match content_parts content with
          | Some (part :: _) => part_text part
          | _ => None
          end
      | None => None
      end
  | _ => None
  end.

(** The texts a result offers under the shapes the generators know. *)
Definition shapeTexts (response : option GeminiResult) : list jsstring :=
  match response with
  | None => []
  | Some r =>
      option_list (firstPartText (from_option inner_candidates None (result_response r)))
      ++ option_list (result_text r)
      ++ option_list (firstPartText (result_candidates r))
  end.

(** A string is trimmed when it neither starts nor ends with white space. *)
Definition trimmed (s : jsstring) : Prop :=
  (forall c rest, s = c :: rest -> isWhiteSpace c = false) /\
  (forall c front, s = front ++ [c] -> isWhiteSpace c = false).

(** The fields of a "new message" event the handlers classify on. *)
Definition senderOf (messageInfo : json) : option json :=
  propOf (prop messageInfo "key") "remoteJid".

Definition selfOriginated (messageInfo : json) : bool :=
  truthy (propOf (prop messageInfo "key") "fromMe").

Definition isStub (messageInfo : json) : bool :=
  truthy (prop messageInfo "messageStubType").

(** [messageInfo.messageStubParameters || []]. *)
Definition stubParamsOf (messageInfo : json) : option json :=
  if truthy (prop messageInfo "messageStubParameters")
  then prop messageInfo "messageStubParameters"
  else Some (JArr []).

(** A possibly [undefined] value that a template literal can convert
    to a string. *)
Definition printable (o : option json) : bool :=
  negb (from_option toStringThrows false o).

(** The fields have their expected types: the sender identifier is a
    string unless it is falsy, the message is an object or an array
    unless it is falsy, and the fields that the handlers log (the stub
    type, the stub parameters and the two places of the text) convert
    to strings. *)
Definition expectedTypes (messageInfo : json) : bool :=
  match senderOf messageInfo with
  | None | Some (JStr _) => true
  | Some v => negb (truthyValue v)
  end
  &&
  match prop messageInfo "message" with
  | None | Some (JObj _) | Some (JArr _) => true
  | Some v => negb (truthyValue v)
  end
  && printable (prop messageInfo "messageStubType")
  && printable (prop messageInfo "messageStubParameters")
  && printable (propOf (prop messageInfo "message") "conversation")
  && printable (propOf (propOf (prop messageInfo "message") "extendedTextMessage") "text").

(** A turn as the first variant stores it, [{ role, parts: [{ text }] }],
    and as the second variant stores it, [{ role, parts: [text] }]. *)
Definition turnWithTextPart (role : string) (text : json) : json :=
  JObj [(js "role", JStr (js role));
        (js "parts", JArr [JObj [(js "text", text)]])].

Definition turnWithPlainPart (role : string) (text : json) : json :=
  JObj [(js "role", JStr (js role)); (js "parts", JArr [text])].

(** Concrete events, environments and worlds for the examples. *)
Definition obj (props : list (string * json)) : json :=
  JObj (map (fun '(k, v) => (js k, v)) props).

Definition upsert (messageInfo : json) : json :=
  obj [("event", JStr (js "messages.upsert"));
       ("data", obj [("messages", messageInfo)])]%string.

Definition textMessageInfo : json :=
  obj [("key", obj [("remoteJid", JStr (js "60123456789@s.whatsapp.net"));
                    ("fromMe", JBool false)]);
       ("message", obj [("conversation", JStr (js "hello"))])]%string.

Definition numericSenderInfo : json :=
  obj [("key", obj [("remoteJid", JNum 5)])]%string.

Definition stubWithoutSenderInfo : json :=
  obj [("messageStubType", JNum 2)]%string.

Definition stubInfo : json :=
  obj [("key", obj [("remoteJid", JStr (js "60123456789@s.whatsapp.net"))]);
       ("messageStubType", JNum 2)]%string.

Definition noSenderInfo : json :=
  obj [("message", obj [("conversation", JStr (js "hello"))])]%string.

(** A text that is an object with a property [toString] of its own,
    stub parameters that hold such an object, and a message that is a
    string. *)
Definition unprintable : json := obj [("toString", JNum 1)]%string.

Definition unprintableTextInfo : json :=
  obj [("key", obj [("remoteJid", JStr (js "60123456789@s.whatsapp.net"))]);
       ("message", obj [("conversation", unprintable)])]%string.

Definition unprintableStubInfo : json :=
  obj [("key", obj [("remoteJid", JStr (js "60123456789@s.whatsapp.net"))]);
       ("messageStubType", JNum 2);
       ("messageStubParameters", JArr [JStr (js "a"); unprintable])]%string.

Definition stringMessageInfo : json :=
  obj [("key", obj [("remoteJid", JStr (js "60123456789@s.whatsapp.net"))]);
       ("message", JStr (js "hello"))]%string.

Definition emptyWorld : World := mkWorld ∅ [].

Definition replyResult (text : string) : GeminiResult :=
  mkGeminiResult
    (Some (mkInner (Some [mkCandidate (Some (mkContent (Some [mkPart (Some (js text))])))])))
    None None.

(** A chat that settles with [outcome] and leaves the array it was
    handed as it is. *)
Definition settlesWith (outcome : Result (option GeminiResult))
    : json -> list json -> Result (option GeminiResult) * list json :=
  fun _ history => (outcome, history).


(** An environment with both keys set, a Gemini client that answers
    [text], and an HTTP client whose requests succeed as [post] says. *)
Definition envWith (text : string) (post : list Effect -> Payload -> bool) : Env :=
  mkEnv (Some (js "gemini-key")) (Some (js "wasender-token"))
        (settlesWith (Ok (Some (replyResult text))))
        (fun _ => Ok (Some (replyResult text)))
        post
        (fun _ => false).




(** The second request fails: a request succeeds only when nothing was
    posted before it. *)
Definition secondPostFails (done : list Effect) (_ : Payload) : bool :=
  bool_decide (done = []).

Definition allPostsFail (_ : list Effect) (_ : Payload) : bool := false.

(** The outcome of the call the first variant makes, [chat.sendMessage]
    whatever the history, and of the call the second variant makes:
    [chat.sendMessage] when there is history, [model.generateContent]
    otherwise. *)
Definition firstCall (env : Env) (messageText : json) (history : list json)
    : Result (option GeminiResult) :=
  fst (chat_sendMessage env messageText history).

Definition secondCall (env : Env) (messageText : json) (history : list json)
    : Result (option GeminiResult) :=
  match history with
  | [] => model_generateContent env messageText
  | _ :: _ => fst (chat_sendMessage env messageText history)
  end.

(** What the array [history] holds once a chat that was handed it has
    settled; an empty history is not handed to any chat. *)
Definition historyAfterChat (env : Env) (messageText : json) (history : list json)
    : list json :=
  match history with
  | [] => []
  | _ :: _ => snd (chat_sendMessage env messageText history)
  end.


(** What section 4.4 asks of a delivery from world [w] to world [w']:
    the chunks in [sent] were posted in order and succeeded, at most one
    more chunk was posted and failed, nothing was posted after it, a
    pause separates consecutive posts, the last effect is not a pause,
    and the files are untouched.  Without a failure every chunk was
    sent; with the API token set the first chunk is always attempted. *)
Definition stopsAtFirstFailure (env : Env) (recipient : jsstring)
    (chunks : list jsstring) (w w' : World) : Prop :=
  exists (sent : list jsstring) (stopped : option jsstring),
    let added :=
      withPauses (map (fun c => textPost recipient c true) sent
                  ++ map (fun c => textPost recipient c false) (option_list stopped)) in
    (sent ++ option_list stopped) `prefix_of` chunks /\
    effects w' = effects w ++ added /\
    last added <> Some Sleep /\
    files w' = files w /\
    (isSet (WASENDER_API_TOKEN env) = true ->
       (stopped = None -> sent = chunks) /\
       (chunks <> [] -> sent ++ option_list stopped <> [])) /\
    (isSet (WASENDER_API_TOKEN env) = false -> sent = [] /\ stopped = None).

(** A closed chunk holds between one and [maxLines] lines. *)
Definition group_ok (maxLines : Z) (g : list jsstring) : Prop :=
  g <> [] /\ Z.of_nat (length g) <= maxLines.

(** The chunk state once the lines [ls] have been pushed: the closed
    chunks are the joins of the groups [gs], the groups followed by the
    open chunk are [ls], and the counter is the size of the open chunk. *)
Record chunk_inv (maxLines : Z) (ls : list jsstring) (st : ChunkState)
    (gs : list (list jsstring)) : Prop := mkChunkInv {
  inv_chunks : chunks st = map (join NL) gs;
  inv_lines : concat gs ++ currentChunk st = ls;
  inv_count : currentLineCount st = Z.of_nat (length (currentChunk st));
  inv_groups : 1 <= maxLines -> Forall (group_ok maxLines) gs;
  inv_current : 1 <= maxLines -> Z.of_nat (length (currentChunk st)) <= maxLines
}.

(** The word loop's total for the current line never undercounts it, and
    exceeds the limit only for a line made of one word. *)
Definition line_inv (maxCharsPerLine : Z) (line : list jsstring) (total : Z) : Prop :=
  Forall single_word line /\
  ((line = [] /\ total = 0) \/
   (line <> [] /\ len (join SP line) <= total /\
    (total <= maxCharsPerLine \/ exists w, line = [w]))).

(** What section 8 asks of a chunk: split on the line feed it has at
    most [maxLines] lines, each within the bound of a produced line. *)
Definition chunk_bounded (maxLines maxCharsPerLine : Z) (chunk : jsstring) : Prop :=
  Z.of_nat (length (split NL chunk)) <= maxLines /\
  Forall (line_within maxCharsPerLine) (split NL chunk).

(** The first line that the wrapping step of section 4.2 makes of a
    paragraph is shorter than [maxCharsPerLine], for a paragraph that
    has to be wrapped. *)
Definition firstLineHasRoom (maxCharsPerLine : Z) (paragraph : jsstring) : bool :=
  (len paragraph <=? maxCharsPerLine) ||
  match spec_paragraph_lines maxCharsPerLine paragraph with
  | l :: _ => len l <? maxCharsPerLine
  | [] => false
  end.

(** Concrete texts used in the examples below.  [js] does not interpret
    escapes: in [js "a\nb"] the backslash and the n are two code units,
    the marker; a line feed is written [NL]. *)
Definition four_real_lines : jsstring :=
  js "a" ++ NL ++ js "b" ++ NL ++ js "c" ++ NL ++ js "d".

Definition two_real_lines : jsstring := js "a" ++ NL ++ js "b".

Definition marked_reply : jsstring :=
  js "Hi there!\nI can help with that. Here is a rather long paragraph that has to be wrapped because it is longer than one hundred code units in total.\nOne\nTwo\nThree".

Definition reply_with_line_feeds : jsstring :=
  js "Dear user," ++ NL ++ js "this reply uses real line feeds" ++ NL ++ js "and no marker.".

(** A single word of 101 code units. *)
Definition long_word : jsstring := List.repeat 97%N 101.

(** ** Vocabulary of the further properties *)

(** The lines [l] cut into consecutive groups of [n], the last one
    possibly shorter; [fuel] bounds the number of groups. *)
Fixpoint groupsOf (fuel n : nat) (l : list jsstring) : list (list jsstring) :=
  match fuel with
  | O => []
  | S fuel' =>
      match l with
      | [] => []
      | _ :: _ => take n l :: groupsOf fuel' n (drop n l)
      end
  end.

Definition inGroupsOf (n : nat) (l : list jsstring) : list (list jsstring) :=
  groupsOf (length l) n l.

(** A code unit that is neither a blank nor a line feed. *)
Definition visible (c : N) : Prop := c <> SPACE /\ c <> NEWLINE.

#[global] Instance visible_dec (c : N) : Decision (visible c) :=
  decide (c <> SPACE /\ c <> NEWLINE).

(** An effect of a reply to [sender]: a pause, or the post of one text
    chunk, without media, to the sender's formatted number. *)
Definition replyEffect (sender : jsstring) (e : Effect) : Prop :=
  e = Sleep \/ exists chunk ok, e = textPost sender chunk ok.

Definition selfSentInfo : json :=
  obj [("key", obj [("remoteJid", JStr (js "60123456789@s.whatsapp.net"));
                    ("fromMe", JBool true)]);
       ("message", obj [("conversation", JStr (js "hello"))])]%string.

(** An environment in which every file access fails. *)
Definition faultyEnv : Env :=
  mkEnv (Some (js "gemini-key")) (Some (js "wasender-token"))
        (settlesWith (Throw OtherError)) (fun _ => Throw OtherError)
        allPostsFail (fun _ => true).

(** An environment without Gemini API key, whose posts succeed. *)
Definition envNoKey : Env :=
  mkEnv None (Some (js "wasender-token"))
        (settlesWith (Throw OtherError)) (fun _ => Throw OtherError)
        (fun _ _ => true) (fun _ => false).

(** A result that carries its text under [response.text] only. *)
Definition textResult (text : string) : GeminiResult :=
  mkGeminiResult None (Some (js text)) None.

Definition envWithText (text : string) : Env :=
  mkEnv (Some (js "gemini-key")) (Some (js "wasender-token"))
        (settlesWith (Ok (Some (textResult text))))
        (fun _ => Ok (Some (textResult text)))
        (fun _ _ => true) (fun _ => false).

(* ================================================================== *)
(** * Properties *)
(* ================================================================== *)

(** ** Strings *)

(** Membership in a list written out. *)
Ltac in_list :=
  cbv beta iota;
  solve [repeat first [apply list_elem_of_here | apply list_elem_of_further]].

Lemma len_app (a b : jsstring) : len (a ++ b) = len a + len b.
Proof. unfold len. rewrite length_app. lia. Qed.

Lemma len_nonneg (a : jsstring) : 0 <= len a.
Proof. unfold len. lia. Qed.

Lemma splitFrom_not_nil sep k s : splitFrom sep k s <> [].
Proof.
  revert k. induction s as [|c s IH]; intros k; simpl; [discriminate|].
  destruct k as [|k]; [|apply IH].
  destruct (isPrefix sep (c :: s)); [discriminate|].
  destruct (splitFrom sep 0 s); discriminate.
Qed.

Lemma split_single_cons c x s :
  split [c] (x :: s) =
  if (c =? x)%N then [] :: split [c] s
  else match split [c] s with
       | h :: t => (x :: h) :: t
       | [] => [[x]]
       end.
Proof.
  unfold split. simpl. rewrite andb_true_r. reflexivity.
Qed.

Lemma split_single_free c (l : jsstring) : c ∉ l -> split [c] l = [l].
Proof.
  induction l as [|x l IH]; intros Hc; [reflexivity|].
  rewrite split_single_cons.
  apply not_elem_of_cons in Hc as [Hx Hl].
  destruct (N.eqb_spec c x) as [->|_]; [done|].
  rewrite (IH Hl). reflexivity.
Qed.

Lemma split_single_app c (l s : jsstring) :
  c ∉ l -> split [c] (l ++ c :: s) = l :: split [c] s.
Proof.
  induction l as [|x l IH]; intros Hc; simpl.
  - rewrite split_single_cons, N.eqb_refl. reflexivity.
  - apply not_elem_of_cons in Hc as [Hx Hl].
    rewrite split_single_cons.
    destruct (N.eqb_spec c x) as [->|_]; [done|].
    rewrite (IH Hl). reflexivity.
Qed.

(** Splitting on a code unit undoes joining with it, for a non-empty
    list of strings in which it does not occur. *)
Lemma split_join c (ls : list jsstring) :
  ls <> [] -> Forall (fun l => c ∉ l) ls -> split [c] (join [c] ls) = ls.
Proof.
  induction ls as [|l ls IH]; intros Hne Hall; [done|].
  apply Forall_cons in Hall as [Hl Hls].
  destruct ls as [|l' ls].
  - simpl. apply split_single_free, Hl.
  - change (join [c] (l :: l' :: ls)) with (l ++ c :: join [c] (l' :: ls)).
    rewrite split_single_app by done.
    rewrite IH; [reflexivity|discriminate|done].
Qed.

(** The pieces of a split on a code unit do not contain it. *)
Lemma split_single_pieces c (s : jsstring) :
  Forall (fun p => c ∉ p) (split [c] s).
Proof.
  induction s as [|x s IH].
  - repeat constructor. apply not_elem_of_nil.
  - rewrite split_single_cons.
    destruct (N.eqb_spec c x) as [->|Hne].
    + constructor; [apply not_elem_of_nil|done].
    + destruct (split [c] s) as [|h t].
      * repeat constructor. apply not_elem_of_cons. split; [done|apply not_elem_of_nil].
      * apply Forall_cons in IH as [Hh Ht].
        constructor; [|done]. apply not_elem_of_cons. done.
Qed.

(** Every code unit of a piece is a code unit of the string that was split. *)
Lemma splitFrom_pieces_sub sep k (s : jsstring) :
  Forall (fun p => forall x, x ∈ p -> x ∈ s) (splitFrom sep k s).
Proof.
  revert k. induction s as [|c s IH]; intros k; simpl.
  - constructor; [|constructor]. intros x Hx. done.
  - assert (Hw : forall k', Forall (fun p => forall x, x ∈ p -> x ∈ c :: s) (splitFrom sep k' s)).
    { intros k'. eapply Forall_impl; [apply IH|]. simpl. intros p Hp x Hx.
      apply elem_of_cons. right. by apply Hp. }
    destruct k as [|k]; [|apply Hw].
    destruct (isPrefix sep (c :: s)).
    + constructor; [|apply Hw]. intros x Hx. by apply elem_of_nil in Hx.
    + specialize (Hw 0%nat). destruct (splitFrom sep 0 s) as [|h t].
      * constructor; [|constructor].
        intros x Hx. apply list_elem_of_singleton in Hx as ->. left.
      * apply Forall_cons in Hw as [Hh Ht]. constructor; [|done].
        intros x Hx. apply elem_of_cons in Hx as [->|Hx]; [left|by apply Hh].
Qed.

Lemma includes_cons_false x (s p : jsstring) :
  includes (x :: s) p = false -> isPrefix p (x :: s) = false /\ includes s p = false.
Proof. simpl. intros H. apply orb_false_iff in H. done. Qed.

(** A string without the separator is a single piece. *)
Lemma split_not_included sep (s : jsstring) :
  includes s sep = false -> split sep s = [s].
Proof.
  unfold split. induction s as [|x s IH]; intros H; [reflexivity|].
  apply includes_cons_false in H as [Hp Hs].
  simpl splitFrom. rewrite Hp. rewrite (IH Hs). reflexivity.
Qed.

Lemma elem_of_join x sep (ls : list jsstring) :
  x ∈ join sep ls -> x ∈ sep \/ exists l, l ∈ ls /\ x ∈ l.
Proof.
  induction ls as [|l ls IH]; intros Hx.
  - by apply elem_of_nil in Hx.
  - destruct ls as [|l' ls].
    + right. exists l. split; [left|done].
    + change (join sep (l :: l' :: ls)) with (l ++ sep ++ join sep (l' :: ls)) in Hx.
      apply elem_of_app in Hx as [Hx|Hx]; [right; exists l; split; [left|done]|].
      apply elem_of_app in Hx as [Hx|Hx]; [by left|].
      destruct (IH Hx) as [?|(l0 & Hl0 & ?)]; [by left|].
      right. exists l0. split; [by right|done].
Qed.

Lemma join_app sep (l1 l2 : list jsstring) :
  l1 <> [] -> l2 <> [] -> join sep (l1 ++ l2) = join sep l1 ++ sep ++ join sep l2.
Proof.
  induction l1 as [|a l1 IH]; intros H1 H2; [done|].
  destruct l1 as [|b l1].
  - destruct l2; [done|reflexivity].
  - change (join sep ((a :: b :: l1) ++ l2)) with (a ++ sep ++ join sep ((b :: l1) ++ l2)).
    rewrite IH by done.
    change (join sep (a :: b :: l1)) with (a ++ sep ++ join sep (b :: l1)).
    by rewrite <- !app_assoc.
Qed.

Lemma join_snoc sep (line : list jsstring) (w : jsstring) :
  line <> [] -> join sep (line ++ [w]) = join sep line ++ sep ++ w.
Proof. intros H. by rewrite join_app. Qed.

(** C1 *)
Lemma split_single_pieces_len c (s : jsstring) :
  Forall (fun p => len p <= len s) (split [c] s).
Proof.
  induction s as [|x s IH].
  - constructor; [done|constructor].
  - rewrite split_single_cons.
    assert (Hs : len (x :: s) = len s + 1) by (unfold len; cbn [length]; lia).
    destruct (N.eqb_spec c x) as [->|Hne].
    + constructor; [unfold len; simpl; lia|].
      eapply Forall_impl; [exact IH|]. simpl. intros p Hp. lia.
    + destruct (split [c] s) as [|h t].
      * constructor; [|constructor]. unfold len in *. simpl in *. lia.
      * apply Forall_cons in IH as [Hh Ht]. constructor.
        -- unfold len in *. cbn [length] in *. lia.
        -- eapply Forall_impl; [exact Ht|]. simpl. intros p Hp. lia.
Qed.

Lemma split_single_concat c (l s : jsstring) :
  split [c] (l ++ c :: s) = split [c] l ++ split [c] s.
Proof.
  induction l as [|x l IH]; cbn [app].
  - rewrite split_single_cons, N.eqb_refl. reflexivity.
  - rewrite !split_single_cons. destruct (c =? x)%N.
    + by rewrite IH.
    + rewrite IH.
      pose proof (splitFrom_not_nil [c] 0 l) as Hne. fold (split [c] l) in Hne.
      by destruct (split [c] l).
Qed.

Lemma split_join_concat c (ls : list jsstring) :
  ls <> [] -> split [c] (join [c] ls) = concat (map (split [c]) ls).
Proof.
  induction ls as [|l ls IH]; intros Hne; [done|].
  destruct ls as [|l' ls].
  - simpl. by rewrite app_nil_r.
  - change (join [c] (l :: l' :: ls)) with (l ++ c :: join [c] (l' :: ls)).
    rewrite split_single_concat, IH by done. reflexivity.
Qed.

(** ** The chunker: wrapping and chunking taken apart *)

Lemma wordLoop_lines ml mc ws ln st :
  (let '(ln', st') := wordLoop ml mc ws ln st in
   match currentLine ln' with
   | [] => st'
   | _ :: _ => pushLine ml st' (join SP (currentLine ln'))
   end)
  = fold_left (pushLine ml) (wrapWords mc ws (currentLine ln) (currentLength ln)) st.
Proof.
  revert ln st. induction ws as [|w ws IH]; intros ln st; simpl.
  - destruct (currentLine ln); reflexivity.
  - destruct (currentLength ln + len w + 1 <=? mc).
    + rewrite IH. simpl. rewrite Z.add_assoc. reflexivity.
    + rewrite IH. reflexivity.
Qed.

Lemma paragraphStep_lines ml mc st p :
  paragraphStep ml mc st p = fold_left (pushLine ml) (paragraphLines mc p) st.
Proof.
  unfold paragraphStep, paragraphLines.
  destruct (Z.leb_spec (len p) mc) as [Hle|Hgt], (Z.gtb_spec (len p) mc) as [Hgt'|Hle'];
    try lia.
  - reflexivity.
  - apply (wordLoop_lines ml mc (split SP p) (mkLineState [] 0) st).
Qed.

Lemma fold_paragraphStep_lines ml mc ps st :
  fold_left (paragraphStep ml mc) ps st
  = fold_left (pushLine ml) (concat (map (paragraphLines mc) ps)) st.
Proof.
  revert st. induction ps as [|p ps IH]; intros st; simpl; [reflexivity|].
  rewrite fold_left_app, IH, paragraphStep_lines. reflexivity.
Qed.

Lemma chunk_inv_init ml : chunk_inv ml [] (mkChunkState [] [] 0) [].
Proof. constructor; simpl; try done. intros; lia. Qed.

Lemma pushLine_inv ml ls st gs l :
  chunk_inv ml ls st gs -> exists gs', chunk_inv ml (ls ++ [l]) (pushLine ml st l) gs'.
Proof.
  intros [Hc Hl Hn Hg Hb]. unfold pushLine, closeChunkIfFull.
  destruct (Z.geb_spec (currentLineCount st) ml) as [Hfull|Hroom]; simpl.
  - exists (gs ++ [currentChunk st]). constructor; simpl.
    + rewrite Hc, map_app. reflexivity.
    + rewrite concat_app. simpl. rewrite app_nil_r, <- Hl. reflexivity.
    + reflexivity.
    + intros H1. apply Forall_app. split; [by apply Hg|].
      constructor; [|constructor]. split; [|by apply Hb].
      intros E. rewrite E in Hn. simpl in Hn. lia.
    + lia.
  - exists gs. constructor; simpl.
    + exact Hc.
    + rewrite <- Hl. apply app_assoc.
    + rewrite length_app. simpl. lia.
    + exact Hg.
    + intros H1. rewrite length_app. simpl. lia.
Qed.

Lemma fold_pushLine_inv ml more ls st gs :
  chunk_inv ml ls st gs ->
  exists gs', chunk_inv ml (ls ++ more) (fold_left (pushLine ml) more st) gs'.
Proof.
  revert ls st gs. induction more as [|l more IH]; intros ls st gs Hinv; simpl.
  - exists gs. rewrite app_nil_r. exact Hinv.
  - destruct (pushLine_inv ml ls st gs l Hinv) as [gs1 H1].
    destruct (IH _ _ _ H1) as [gs2 H2].
    exists gs2. rewrite <- app_assoc in H2. exact H2.
Qed.

(** [splitMessage] joins, chunk by chunk, a grouping of the lines of the
    wrapping step; for [maxLines >= 1] no group is empty and none has
    more than [maxLines] lines. *)
Lemma splitMessage_groups text ml mc :
  exists gs : list (list jsstring),
    splitMessage text ml mc = map (join NL) gs /\
    concat gs = wrappedLines mc text /\
    (1 <= ml -> Forall (group_ok ml) gs).
Proof.
  unfold splitMessage. rewrite fold_paragraphStep_lines.
  fold (wrappedLines mc text).
  destruct (fold_pushLine_inv ml (wrappedLines mc text) [] _ [] (chunk_inv_init ml))
    as [gs [Hc Hl Hn Hg Hb]].
  simpl in Hl.
  destruct (currentChunk _) as [|l0 cur] eqn:Hcur.
  - exists gs. rewrite app_nil_r in Hl. done.
  - exists (gs ++ [l0 :: cur]). split; [|split].
    + rewrite Hc, map_app. reflexivity.
    + rewrite concat_app. simpl. rewrite app_nil_r. exact Hl.
    + intros H1. apply Forall_app. split; [by apply Hg|].
      constructor; [|constructor]. split; [discriminate|by apply Hb].
Qed.

(** ** The lines of the wrapping step *)

Lemma single_word_nil : single_word [].
Proof. apply not_elem_of_nil. Qed.

Lemma len_join_snoc (line : list jsstring) (w : jsstring) :
  line <> [] -> len (join SP (line ++ [w])) = len (join SP line) + 1 + len w.
Proof.
  induction line as [|l line IH]; intros Hne; [done|].
  destruct line as [|l' line].
  - simpl. rewrite !len_app. unfold SP, len. simpl. lia.
  - change (join SP ((l :: l' :: line) ++ [w]))
      with (l ++ SP ++ join SP ((l' :: line) ++ [w])).
    change (join SP (l :: l' :: line)) with (l ++ SP ++ join SP (l' :: line)).
    rewrite !len_app, IH by discriminate. lia.
Qed.

Lemma wrapWords_within mc ws line total :
  Forall single_word ws -> line_inv mc line total ->
  Forall (line_within mc) (wrapWords mc ws line total).
Proof.
  revert line total. induction ws as [|w ws IH]; intros line total Hws [Hsw Hinv]; simpl.
  - destruct line as [|l line]; constructor; [|constructor].
    destruct Hinv as [[? _]|(_ & Hlen & [Hle|[w0 Hw0]])]; [done| |].
    + left. lia.
    + injection Hw0 as -> ->. simpl. apply Forall_cons in Hsw as [Hl _].
      destruct (Z.le_gt_cases (len w0) mc); [by left|right; done].
  - apply Forall_cons in Hws as [Hw Hws].
    destruct (Z.leb_spec (total + len w + 1) mc) as [Hfit|Hover].
    + apply IH; [done|]. split; [apply Forall_app; split; [done|by constructor]|].
      right. split; [by destruct line|]. split; [|by left].
      destruct Hinv as [[-> ->]|(Hne & Hlen & _)].
      * simpl. lia.
      * rewrite len_join_snoc by done. lia.
    + constructor.
      * destruct Hinv as [[-> ->]|(_ & Hlen & [Hle|[w0 ->]])].
        -- simpl. destruct (Z.le_gt_cases 0 mc); [left; done|right].
           split; [apply single_word_nil|done].
        -- left. lia.
        -- simpl. apply Forall_cons in Hsw as [Hw0 _].
           destruct (Z.le_gt_cases (len w0) mc); [by left|right; done].
      * apply IH; [done|]. split; [by constructor|].
        right. split; [done|]. split; [simpl; lia|]. right. by exists w.
Qed.

Lemma paragraphLines_within mc p :
  Forall (line_within mc) (paragraphLines mc p).
Proof.
  unfold paragraphLines.
  destruct (Z.leb_spec (len p) mc) as [Hle|Hgt].
  - constructor; [by left|constructor].
  - apply wrapWords_within; [apply split_single_pieces|].
    split; [constructor|]. by left.
Qed.

Lemma wrappedLines_within mc text :
  Forall (line_within mc) (wrappedLines mc text).
Proof.
  unfold wrappedLines.
  induction (split MARKER text) as [|p ps IH]; simpl; [constructor|].
  apply Forall_app. split; [apply paragraphLines_within|exact IH].
Qed.

(** The word loop against the wrapping of section 4.2.  A line that a
    word started after another line was closed is counted exactly; the
    first line of a paragraph is counted one too long, its first word
    being charged a blank. *)
Lemma wrapWords_exact mc ws (line : list jsstring) :
  line <> [] ->
  wrapWords mc ws line (len (join SP line)) = spec_repack mc ws (join SP line).
Proof.
  revert line. induction ws as [|w ws IH]; intros line Hne; cbn [wrapWords spec_repack].
  - by destruct line.
  - replace (len (join SP line) + len w + 1) with (len (join SP line) + 1 + len w) by lia.
    destruct (len (join SP line) + 1 + len w <=? mc).
    + rewrite <- join_snoc by done. rewrite <- IH by (by destruct line).
      by rewrite len_join_snoc.
    + f_equal. apply (IH [w]). done.
Qed.

Lemma spec_repack_head mc ws (line : jsstring) :
  exists l ls, spec_repack mc ws line = l :: ls /\ len line <= len l.
Proof.
  revert line. induction ws as [|w ws IH]; intros line; cbn [spec_repack].
  - exists line, []. split; [done|lia].
  - destruct (len line + 1 + len w <=? mc).
    + destruct (IH (line ++ SP ++ w)) as (l & ls & -> & Hl).
      exists l, ls. split; [done|]. rewrite !len_app in Hl. pose proof (len_nonneg w).
      unfold SP, len in *. simpl in *. lia.
    + exists line, (spec_repack mc ws w). split; [done|lia].
Qed.

Lemma wrapWords_first mc ws (line : list jsstring) :
  line <> [] ->
  (forall l ls, spec_repack mc ws (join SP line) = l :: ls -> len l < mc) ->
  wrapWords mc ws line (len (join SP line) + 1) = spec_repack mc ws (join SP line).
Proof.
  revert line. induction ws as [|w ws IH]; intros line Hne Hroom; cbn [wrapWords spec_repack].
  - by destruct line.
  - cbn [spec_repack] in Hroom.
    destruct (Z.leb_spec (len (join SP line) + 1 + len w + 1) mc) as [Hfit|Hover];
    destruct (Z.leb_spec (len (join SP line) + 1 + len w) mc) as [Hfit'|Hover']; try lia.
    + rewrite <- join_snoc in * by done.
      rewrite <- IH.
      * rewrite len_join_snoc by done. f_equal; lia.
      * by destruct line.
      * exact Hroom.
    + exfalso.
      destruct (spec_repack_head mc ws (join SP line ++ SP ++ w)) as (l & ls & Heq & Hl).
      specialize (Hroom l ls Heq). rewrite !len_app in Hl.
      unfold SP, len in *. simpl in *. lia.
    + f_equal. apply (wrapWords_exact mc ws [w]). done.
Qed.

Lemma paragraphLines_spec mc (p : jsstring) :
  firstLineHasRoom mc p = true -> paragraphLines mc p = spec_paragraph_lines mc p.
Proof.
  unfold firstLineHasRoom, paragraphLines, spec_paragraph_lines.
  destruct (Z.leb_spec (len p) mc) as [Hle|Hgt]; [done|]. simpl.
  destruct (split SP p) as [|w ws]; [done|].
  intros Hroom.
  destruct (spec_repack_head mc ws w) as (l & ls & Heq & Hl).
  rewrite Heq in Hroom. apply Z.ltb_lt in Hroom.
  cbn [wrapWords]. destruct (Z.leb_spec (0 + len w + 1) mc) as [Hfit|Hover]; [|lia].
  rewrite Z.add_0_l.
  apply (wrapWords_first mc ws [w]); [done|].
  cbn [join]. intros l' ls' Heq'. rewrite Heq in Heq'. by injection Heq' as <- <-.
Qed.

Lemma wrappedLines_spec mc (text : jsstring) :
  forallb (firstLineHasRoom mc) (split MARKER text) = true ->
  wrappedLines mc text = spec_wrapped_lines mc text.
Proof.
  unfold wrappedLines, spec_wrapped_lines.
  induction (split MARKER text) as [|p ps IH]; [done|].
  simpl. intros H. apply andb_true_iff in H as [Hp Hps].
  by rewrite (paragraphLines_spec mc p Hp), IH.
Qed.


(** A property of code units that holds of the blank and of every code
    unit of the text holds of every code unit of every wrapped line. *)
Section CodeUnits.
Variable P : N -> Prop.
Hypothesis P_space : P SPACE.

Lemma join_SP_Forall (ls : list jsstring) :
  Forall (Forall P) ls -> Forall P (join SP ls).
Proof.
  intros Hls. apply Forall_forall. intros x Hx.
  apply elem_of_join in Hx as [Hx|(l & Hl & Hx)].
  - apply list_elem_of_singleton in Hx as ->. exact P_space.
  - rewrite Forall_forall in Hls. specialize (Hls l Hl).
    rewrite Forall_forall in Hls. by apply Hls.
Qed.

Lemma split_Forall sep (s : jsstring) :
  Forall P s -> Forall (Forall P) (split sep s).
Proof.
  intros Hs. eapply Forall_impl; [apply splitFrom_pieces_sub|].
  simpl. intros p Hp. apply Forall_forall. intros x Hx.
  rewrite Forall_forall in Hs. apply Hs, Hp, Hx.
Qed.

Lemma wrapWords_Forall mc ws line total :
  Forall (Forall P) ws -> Forall (Forall P) line ->
  Forall (Forall P) (wrapWords mc ws line total).
Proof.
  revert line total. induction ws as [|w ws IH]; intros line total Hws Hline; simpl.
  - destruct line; constructor; [by apply join_SP_Forall|constructor].
  - apply Forall_cons in Hws as [Hw Hws].
    destruct (total + len w + 1 <=? mc).
    + apply IH; [done|]. apply Forall_app. split; [done|by constructor].
    + constructor; [by apply join_SP_Forall|].
      apply IH; [done|by constructor].
Qed.

Lemma wrappedLines_Forall mc (text : jsstring) :
  Forall P text -> Forall (Forall P) (wrappedLines mc text).
Proof.
  intros Ht. unfold wrappedLines.
  pose proof (split_Forall MARKER text Ht) as Hps.
  induction Hps as [|p ps Hp Hps IH]; simpl; [constructor|].
  apply Forall_app. split; [|exact IH].
  unfold paragraphLines. destruct (len p <=? mc).
  - constructor; [done|constructor].
  - apply wrapWords_Forall; [by apply split_Forall|constructor].
Qed.
End CodeUnits.

Lemma wrappedLines_newline_free mc (text : jsstring) :
  NEWLINE ∉ text -> Forall (fun l => NEWLINE ∉ l) (wrappedLines mc text).
Proof.
  intros Hnl.
  assert (Ht : Forall (fun x => x <> NEWLINE) text).
  { apply Forall_forall. intros x Hx ->. done. }
  pose proof (wrappedLines_Forall (fun x => x <> NEWLINE) ltac:(done) mc text Ht) as H.
  eapply Forall_impl; [exact H|]. simpl. intros l Hl Hin.
  rewrite Forall_forall in Hl. by apply (Hl NEWLINE).
Qed.

Lemma Forall_concat_group {A} (Q : A -> Prop) (gs : list (list A)) g :
  Forall Q (concat gs) -> g ∈ gs -> Forall Q g.
Proof.
  intros Hall Hg. apply Forall_forall. intros x Hx.
  rewrite Forall_forall in Hall. apply Hall.
  apply list_elem_of_In, in_concat. exists g.
  split; by apply list_elem_of_In.
Qed.

(** Under [maxLines >= 1] and on a text free of line feeds, every chunk
    splits on the line feed into the very lines it was joined from. *)
Lemma splitMessage_groups_split text ml mc :
  1 <= ml -> NEWLINE ∉ text ->
  exists gs : list (list jsstring),
    splitMessage text ml mc = map (join NL) gs /\
    concat gs = wrappedLines mc text /\
    Forall (group_ok ml) gs /\
    Forall (fun g => split NL (join NL g) = g) gs.
Proof.
  intros Hml Hnl.
  destruct (splitMessage_groups text ml mc) as (gs & Hsm & Hcat & Hok).
  specialize (Hok Hml).
  exists gs. repeat split; try done.
  apply Forall_forall. intros g Hg.
  rewrite Forall_forall in Hok. destruct (Hok g Hg) as [Hne _].
  apply split_join; [done|].
  apply (Forall_concat_group _ gs); [|done].
  rewrite Hcat. by apply wrappedLines_newline_free.
Qed.

(** ** Chunk and line bounds *)

(** A reply with markers and one paragraph that has to be wrapped. *)
Example splitMessage_marked_reply :
  splitMessageDefault marked_reply =
  [ js "Hi there!" ++ NL ++
    js "I can help with that. Here is a rather long paragraph that has to be wrapped because it is longer" ++ NL ++
    js "than one hundred code units in total.";
    js "One" ++ NL ++ js "Two" ++ NL ++ js "Three" ].
Proof. vm_compute. reflexivity. Qed.

(** The counter of the word loop charges the first word of a paragraph
    one code unit for a blank: the first line of a wrapped paragraph
    holds at most [maxCharsPerLine - 1] code units, the lines after it
    [maxCharsPerLine]. *)
Example splitMessage_first_line_capacity :
  splitMessage (js "aaaa bbbb c") 3 9 = [js "aaaa" ++ NL ++ js "bbbb c"] /\
  splitMessage (js "c bbbb aaaa bbbb") 3 9 = [js "c bbbb" ++ NL ++ js "aaaa bbbb"].
Proof. split; vm_compute; reflexivity. Qed.

(** A paragraph that starts with a word of [maxCharsPerLine] code units
    or more yields an empty first line: the word loop closes the still
    empty current line before it starts the line of that word. *)
Example splitMessage_leading_long_word :
  splitMessage (js "abcdefghij") 3 5 = [NL ++ js "abcdefghij"].
Proof. vm_compute. reflexivity. Qed.

(** With [maxLines <= 0] every line is closed into a chunk of its own
    and an empty chunk comes first. *)
Example splitMessage_no_lines_allowed :
  splitMessage (js "a\nb") 0 100 = [js ""; js "a"; js "b"].
Proof. vm_compute. reflexivity. Qed.

(** C1, as stated, fails: with the default parameters the text
    [four_real_lines], which holds line feeds and no marker, is returned
    as one chunk, and that chunk has four lines when split on the line
    feed, more than [maxLines = 3].  It also fails for [maxLines = 0],
    where every chunk, the empty first one included, has one line. *)
Lemma splitMessage_chunk_lines_counterexample :
  (splitMessage four_real_lines 3 100 = [four_real_lines] /\
   length (split NL four_real_lines) = 4%nat /\
   ~ Forall (chunk_bounded 3 100) (splitMessage four_real_lines 3 100)) /\
  ~ Forall (chunk_bounded 0 100) (splitMessage (js "a\nb") 0 100).
Proof.
  split; [split; [vm_compute; reflexivity|]; split; [vm_compute; reflexivity|]|].
  - intros H. apply Forall_cons in H as [[Hlines _] _].
    vm_compute in Hlines. apply Hlines. reflexivity.
  - intros H. apply Forall_cons in H as [[Hlines _] _].
    vm_compute in Hlines. apply Hlines. reflexivity.
Qed.

Lemma line_within_pieces mc (l : jsstring) :
  line_within mc l -> Forall (line_within mc) (split NL l).
Proof.
  intros Hl.
  pose proof (split_single_pieces_len NEWLINE l) as Hlen.
  pose proof (splitFrom_pieces_sub NL 0 l) as Hsub. fold (split NL l) in Hsub.
  unfold NL in *.
  induction Hlen as [|p ps Hp _ IH]; [constructor|].
  apply Forall_cons in Hsub as [Hpsub Hsub].
  constructor; [|by apply IH].
  destruct Hl as [Hle|[Hword Hlong]]; [left; lia|].
  destruct (Z.le_gt_cases (len p) mc); [by left|right].
  split; [|lia]. intros Hsp. apply Hword. by apply Hpsub.
Qed.

Lemma line_within_nil mc : line_within mc [].
Proof.
  destruct (Z.le_gt_cases 0 mc); [by left|right].
  split; [apply single_word_nil|done].
Qed.

Lemma splitMessage_lines_within text ml mc :
  Forall (fun chunk => Forall (line_within mc) (split NL chunk)) (splitMessage text ml mc).
Proof.
  destruct (splitMessage_groups text ml mc) as (gs & -> & Hcat & _).
  apply Forall_map, Forall_forall. intros g Hg.
  assert (Hall : Forall (line_within mc) g).
  { apply (Forall_concat_group _ gs); [|done]. rewrite Hcat. apply wrappedLines_within. }
  destruct g as [|l g].
  - constructor; [apply line_within_nil|constructor].
  - unfold NL. rewrite split_join_concat by done.
    apply Forall_concat, Forall_map.
    eapply Forall_impl; [exact Hall|]. intros l0. apply line_within_pieces.
Qed.

(** C1 (amended): for every text and all parameters, each line of each
    returned chunk, the chunk being split on the line feed, has at most
    [maxCharsPerLine] code units unless it is a single word longer than
    that; and for [maxLines >= 1] and a text without line feed, every
    chunk has at most [maxLines] lines. *)
Theorem splitMessage_chunks_bounded text ml mc :
  Forall (fun chunk => Forall (line_within mc) (split NL chunk)) (splitMessage text ml mc) /\
  (1 <= ml -> NEWLINE ∉ text ->
   Forall (chunk_bounded ml mc) (splitMessage text ml mc)).
Proof.
  split; [apply splitMessage_lines_within|].
  intros Hml Hnl.
  destruct (splitMessage_groups_split text ml mc Hml Hnl) as (gs & -> & Hcat & Hok & Hsplit).
  apply Forall_map, Forall_forall. intros g Hg.
  rewrite Forall_forall in Hok, Hsplit.
  unfold chunk_bounded. rewrite (Hsplit g Hg).
  split; [apply (Hok g Hg)|].
  apply (Forall_concat_group _ gs); [|done].
  rewrite Hcat. apply wrappedLines_within.
Qed.

Lemma splitMessage_chunks_bounded_witness :
  1 <= 3 /\ (NEWLINE ∉ marked_reply) /\
  Forall (chunk_bounded 3 100) (splitMessage marked_reply 3 100).
Proof.
  assert (H1 : 1 <= 3) by lia.
  assert (H2 : NEWLINE ∉ marked_reply).
  { apply (bool_decide_unpack _). vm_compute. exact I. }
  split; [exact H1|]. split; [exact H2|].
  exact (proj2 (splitMessage_chunks_bounded marked_reply 3 100) H1 H2).
Defined.

(** ** Chunks against the lines of the wrapping step *)

(** C2, as stated, fails.  For the text [two_real_lines] (["a"], a line
    feed, ["b"]) the wrapping step produces the single line [a<LF>b],
    while the chunk splits on the line feed into the two lines ["a"] and
    ["b"].  For a single word of 101 code units and the default
    parameters the wrapping step of section 4.2 produces that word as
    one oversized line, while [splitMessage] puts an empty line before
    it.  For ["aaaa bbbb c"] and lines of 9 code units the wrapping step
    fills the first line with ["aaaa bbbb"], while [splitMessage], which
    charges the first word of a paragraph a blank, closes it after
    ["aaaa"].  And for [maxLines = 0] the empty first chunk adds an
    empty line. *)
Lemma splitMessage_lines_counterexample :
  (spec_wrapped_lines 100 two_real_lines = [two_real_lines] /\
   lines_of_chunks (splitMessage two_real_lines 3 100) = [js "a"; js "b"] /\
   lines_of_chunks (splitMessage two_real_lines 3 100)
     <> spec_wrapped_lines 100 two_real_lines) /\
  (spec_wrapped_lines 100 long_word = [long_word] /\
   lines_of_chunks (splitMessage long_word 3 100) = [js ""; long_word] /\
   lines_of_chunks (splitMessage long_word 3 100) <> spec_wrapped_lines 100 long_word) /\
  (spec_wrapped_lines 9 (js "aaaa bbbb c") = [js "aaaa bbbb"; js "c"] /\
   lines_of_chunks (splitMessage (js "aaaa bbbb c") 3 9) = [js "aaaa"; js "bbbb c"] /\
   lines_of_chunks (splitMessage (js "aaaa bbbb c") 3 9)
     <> spec_wrapped_lines 9 (js "aaaa bbbb c")) /\
  lines_of_chunks (splitMessage (js "a\nb") 0 100) <> spec_wrapped_lines 100 (js "a\nb").
Proof.
  repeat split; try (vm_compute; reflexivity); vm_compute; discriminate.
Qed.

(** C2 (amended): for [maxLines >= 1] and a text without line feed,
    splitting every returned chunk on the line feed and concatenating
    the results, in order, gives exactly the lines that the loops of
    [splitMessage] pushed: chunking loses, duplicates and moves no
    line.  When moreover the first line that the greedy wrapping step
    of section 4.2 makes of each paragraph longer than
    [maxCharsPerLine] is shorter than [maxCharsPerLine], these are
    exactly the lines of that wrapping step. *)
Theorem splitMessage_lines_roundtrip text ml mc :
  1 <= ml -> NEWLINE ∉ text ->
  lines_of_chunks (splitMessage text ml mc) = wrappedLines mc text /\
  (forallb (firstLineHasRoom mc) (split MARKER text) = true ->
   lines_of_chunks (splitMessage text ml mc) = spec_wrapped_lines mc text).
Proof.
  intros Hml Hnl.
  assert (H : lines_of_chunks (splitMessage text ml mc) = wrappedLines mc text).
  { destruct (splitMessage_groups_split text ml mc Hml Hnl) as (gs & -> & <- & _ & Hsplit).
    unfold lines_of_chunks. f_equal.
    rewrite map_map.
    induction Hsplit as [|g gs Hg _ IH]; simpl; [reflexivity|].
    rewrite Hg, IH. reflexivity. }
  split; [exact H|]. intros Hroom. rewrite H. by apply wrappedLines_spec.
Qed.

Lemma splitMessage_lines_roundtrip_witness :
  1 <= 3 /\ (NEWLINE ∉ marked_reply) /\
  forallb (firstLineHasRoom 100) (split MARKER marked_reply) = true /\
  lines_of_chunks (splitMessage marked_reply 3 100) = spec_wrapped_lines 100 marked_reply.
Proof.
  assert (H1 : 1 <= 3) by lia.
  assert (H2 : NEWLINE ∉ marked_reply).
  { apply (bool_decide_unpack _). vm_compute. exact I. }
  assert (H3 : forallb (firstLineHasRoom 100) (split MARKER marked_reply) = true)
    by (vm_compute; reflexivity).
  split; [exact H1|]. split; [exact H2|]. split; [exact H3|].
  exact (proj2 (splitMessage_lines_roundtrip marked_reply 3 100 H1 H2) H3).
Defined.

(** ** Empty and short inputs *)

Lemma splitMessage_one_paragraph text ml mc :
  1 <= ml -> len text <= mc -> includes text MARKER = false ->
  splitMessage text ml mc = [text].
Proof.
  intros Hml Hlen Hmark. unfold splitMessage.
  rewrite (split_not_included MARKER text Hmark). simpl.
  unfold paragraphStep.
  destruct (Z.gtb_spec (len text) mc) as [Hgt|_]; [lia|].
  unfold pushLine, closeChunkIfFull. simpl.
  destruct (Z.geb_spec 0 ml) as [Hge|_]; [lia|]. reflexivity.
Qed.

(** C3, as stated, fails: [splitMessage("")] is not the empty sequence
    but the sequence of one chunk, the empty string. *)
Lemma splitMessage_empty_counterexample :
  splitMessageDefault (js "") = [js ""] /\ splitMessageDefault (js "") <> [].
Proof. split; [vm_compute; reflexivity|vm_compute; discriminate]. Qed.

(** C3 (amended): [splitMessage] is a total function of its arguments
    (the embedding recurses on the finite lists of paragraphs and words
    and has no failing step).  For [maxLines >= 1] and
    [maxCharsPerLine >= 0], [splitMessage("")] is the sequence of one
    chunk, the empty string; and a text of at most [maxCharsPerLine]
    code units without marker comes back as exactly one chunk equal to
    the text, which is one line when the text has no line feed. *)
Theorem splitMessage_empty_and_short ml mc :
  1 <= ml -> 0 <= mc ->
  splitMessage [] ml mc = [[]] /\
  forall text, len text <= mc -> includes text MARKER = false ->
    splitMessage text ml mc = [text] /\
    (NEWLINE ∉ text -> lines_of_chunks (splitMessage text ml mc) = [text]).
Proof.
  intros Hml Hmc. split.
  - apply splitMessage_one_paragraph; done.
  - intros text Hlen Hmark.
    rewrite (splitMessage_one_paragraph text ml mc Hml Hlen Hmark).
    split; [reflexivity|].
    intros Hnl. unfold lines_of_chunks. simpl.
    rewrite app_nil_r. apply (split_single_free NEWLINE text Hnl).
Qed.

Lemma splitMessage_empty_and_short_witness :
  1 <= 3 /\ 0 <= 100 /\ len (js "short") <= 100 /\
  includes (js "short") MARKER = false /\
  splitMessage (js "short") 3 100 = [js "short"].
Proof.
  assert (H1 : 1 <= 3) by lia.
  assert (H2 : 0 <= 100) by lia.
  assert (H3 : len (js "short") <= 100) by (vm_compute; discriminate).
  assert (H4 : includes (js "short") MARKER = false) by reflexivity.
  split; [exact H1|]. split; [exact H2|]. split; [exact H3|]. split; [exact H4|].
  exact (proj1 (proj2 (splitMessage_empty_and_short 3 100 H1 H2) (js "short") H3 H4)).
Defined.

(** ** The marker and the line feed *)

Lemma join_split c (s : jsstring) : join [c] (split [c] s) = s.
Proof.
  induction s as [|x s IH]; [reflexivity|].
  rewrite split_single_cons.
  destruct (N.eqb_spec c x) as [->|_].
  - pose proof (splitFrom_not_nil [x] 0 s) as Hne. fold (split [x] s) in Hne.
    destruct (split [x] s) as [|h t]; [done|].
    change (join [x] ([] :: h :: t)) with (x :: join [x] (h :: t)).
    by rewrite IH.
  - destruct (split [c] s) as [|h t]; [by rewrite <- IH|].
    destruct t as [|h' t]; simpl in *; by rewrite IH.
Qed.

(** The lines of the word loop, put back together with one blank between
    consecutive lines, are the words joined by blanks. *)
Lemma wrapWords_join mc ws line total :
  line <> [] ->
  wrapWords mc ws line total <> [] /\
  join SP (wrapWords mc ws line total) = join SP (line ++ ws).
Proof.
  revert line total. induction ws as [|w ws IH]; intros line total Hne; simpl.
  - destruct line as [|l line]; [done|]. rewrite app_nil_r. done.
  - destruct (total + len w + 1 <=? mc).
    + destruct (IH (line ++ [w]) (total + len w + 1)) as [Hr Hj]; [by destruct line|].
      split; [done|]. rewrite Hj, <- app_assoc. reflexivity.
    + destruct (IH [w] (len w)) as [Hr Hj]; [done|].
      split; [done|].
      destruct (wrapWords mc ws [w] (len w)) as [|r rs] eqn:E; [done|].
      change (join SP (join SP line :: r :: rs))
        with (join SP line ++ SP ++ join SP (r :: rs)).
      rewrite Hj. symmetry. apply join_app; done.
Qed.

Lemma paragraphLines_join mc (p : jsstring) :
  join SP (paragraphLines mc p) = p \/
  join SP (paragraphLines mc p) = SPACE :: p.
Proof.
  unfold paragraphLines. destruct (len p <=? mc); [by left|].
  pose proof (join_split SPACE p) as Hjs. fold SP in Hjs.
  pose proof (splitFrom_not_nil SP 0 p) as Hne. fold (split SP p) in Hne.
  destruct (split SP p) as [|w ws]; [done|]. simpl.
  destruct (0 + len w + 1 <=? mc).
  - left. destruct (wrapWords_join mc ws [w] (0 + len w + 1)) as [_ Hj]; [done|].
    rewrite Hj. exact Hjs.
  - right. destruct (wrapWords_join mc ws [w] (len w)) as [Hr Hj]; [done|].
    destruct (wrapWords mc ws [w] (len w)) as [|r rs]; [done|].
    change (join SP ([] :: r :: rs)) with (SPACE :: join SP (r :: rs)).
    rewrite Hj. simpl app. by rewrite Hjs.
Qed.

Lemma splitFrom_cons_no_prefix sep c (s : jsstring) :
  isPrefix sep (c :: s) = false ->
  splitFrom sep 0 (c :: s) =
  match splitFrom sep 0 s with
  | h :: t => (c :: h) :: t
  | [] => [[c]]
  end.
Proof. intros H. simpl. rewrite H. reflexivity. Qed.

(** The marker separates paragraphs. *)
Lemma split_marker_app (a b : jsstring) :
  includes a MARKER = false -> split MARKER (a ++ MARKER ++ b) = a :: split MARKER b.
Proof.
  unfold split. induction a as [|x a IH]; intros Ha; [reflexivity|].
  apply includes_cons_false in Ha as [Hp Ha].
  specialize (IH Ha).
  change ((x :: a) ++ MARKER ++ b) with (x :: (a ++ MARKER ++ b)).
  rewrite splitFrom_cons_no_prefix.
  - rewrite IH. reflexivity.
  - destruct a as [|y a]; [|exact Hp].
    simpl. apply andb_false_r.
Qed.

Lemma groupsOf_fuel n (l : list jsstring) f1 f2 :
  (1 <= n)%nat -> (length l <= f1)%nat -> (length l <= f2)%nat ->
  groupsOf f1 n l = groupsOf f2 n l.
Proof.
  intros Hn. revert f2 l. induction f1 as [|f1 IH]; intros f2 l H1 H2.
  - destruct l; [|simpl in H1; lia]. by destruct f2.
  - destruct f2 as [|f2]; [destruct l; [done|simpl in H2; lia]|].
    simpl. destruct l as [|x l]; [done|]. f_equal.
    apply IH; rewrite length_drop; cbn [length] in *; lia.
Qed.

Lemma inGroupsOf_full n (cur rest : list jsstring) :
  (1 <= n)%nat -> length cur = n -> rest <> [] ->
  inGroupsOf n (cur ++ rest) = cur :: inGroupsOf n rest.
Proof.
  intros Hn Hlen Hrest. unfold inGroupsOf.
  rewrite length_app. destruct (length cur + length rest)%nat as [|f] eqn:E; [lia|].
  simpl. destruct (cur ++ rest) as [|x l] eqn:Eapp.
  - apply app_eq_nil in Eapp as [_ ?]. done.
  - rewrite <- Eapp. rewrite take_app_length' by done. rewrite drop_app_length' by done.
    f_equal. apply groupsOf_fuel; lia.
Qed.

Lemma inGroupsOf_short n (cur : list jsstring) :
  (length cur <= n)%nat ->
  inGroupsOf n cur = match cur with [] => [] | _ :: _ => [cur] end.
Proof.
  intros Hlen. unfold inGroupsOf. destruct cur as [|x cur]; [done|].
  simpl length. cbn [groupsOf].
  rewrite take_ge by exact Hlen. rewrite drop_ge by exact Hlen.
  by destruct (length cur).
Qed.

Lemma pushLine_cases ml st l :
  pushLine ml st l =
  if currentLineCount st >=? ml
  then mkChunkState (chunks st ++ [join NL (currentChunk st)]) [l] 1
  else mkChunkState (chunks st) (currentChunk st ++ [l]) (currentLineCount st + 1).
Proof.
  unfold pushLine, closeChunkIfFull. destruct (currentLineCount st >=? ml); reflexivity.
Qed.

(** The chunks at the end of the loop, for a state in which the counter
    is the size of the open chunk and does not exceed [maxLines]. *)
Lemma fold_pushLine_groups ml ls st :
  1 <= ml ->
  currentLineCount st = Z.of_nat (length (currentChunk st)) ->
  Z.of_nat (length (currentChunk st)) <= ml ->
  (let st' := fold_left (pushLine ml) ls st in
   match currentChunk st' with
   | [] => chunks st'
   | _ :: _ => chunks st' ++ [join NL (currentChunk st')]
   end)
  = chunks st ++ map (join NL) (inGroupsOf (Z.to_nat ml) (currentChunk st ++ ls)).
Proof.
  intros Hml. revert st. induction ls as [|l ls IH]; intros st Hcount Hroom; cbv zeta.
  - simpl. rewrite app_nil_r, inGroupsOf_short by lia.
    destruct (currentChunk st); [by rewrite app_nil_r|reflexivity].
  - cbn [fold_left]. rewrite (pushLine_cases ml st l).
    destruct (Z.geb_spec (currentLineCount st) ml) as [Hfull|Hless].
    + cbv zeta in IH. rewrite IH; simpl; [|lia|lia].
      rewrite inGroupsOf_full; [|lia|lia|done].
      rewrite <- app_assoc. reflexivity.
    + cbv zeta in IH. rewrite IH; simpl.
      * rewrite <- app_assoc. reflexivity.
      * rewrite length_app. simpl. lia.
      * rewrite length_app. simpl. lia.
Qed.

Lemma splitMessage_as_groups text ml mc :
  1 <= ml ->
  splitMessage text ml mc
  = map (join NL) (inGroupsOf (Z.to_nat ml) (wrappedLines mc text)).
Proof.
  intros Hml. unfold splitMessage. rewrite fold_paragraphStep_lines.
  fold (wrappedLines mc text).
  apply (fold_pushLine_groups ml (wrappedLines mc text) (mkChunkState [] [] 0) Hml);
    simpl; lia.
Qed.

(** C10 / X3 helpers *)
Lemma wrappedLines_short mc (text : jsstring) :
  Forall (fun p => len p <= mc) (split MARKER text) ->
  wrappedLines mc text = split MARKER text.
Proof.
  unfold wrappedLines. induction 1 as [|p ps Hp _ IH]; [done|].
  simpl. rewrite IH. unfold paragraphLines.
  destruct (Z.leb_spec (len p) mc); [done|lia].
Qed.

Lemma splitMessage_short_paragraphs text ml mc :
  1 <= ml -> Forall (fun p => len p <= mc) (split MARKER text) ->
  splitMessage text ml mc
  = map (join NL) (inGroupsOf (Z.to_nat ml) (split MARKER text)).
Proof.
  intros Hml Hshort. rewrite splitMessage_as_groups by done.
  by rewrite wrappedLines_short.
Qed.

Lemma splitMessage_two_paragraphs (a b : jsstring) ml mc :
  2 <= ml -> includes a MARKER = false -> includes b MARKER = false ->
  len a <= mc -> len b <= mc ->
  splitMessage (a ++ MARKER ++ b) ml mc = [a ++ NL ++ b].
Proof.
  intros Hml Ha Hb Hla Hlb.
  assert (Hsplit : split MARKER (a ++ MARKER ++ b) = [a; b]).
  { rewrite split_marker_app by done. by rewrite (split_not_included MARKER b). }
  rewrite splitMessage_short_paragraphs; [|lia|rewrite Hsplit; by repeat constructor].
  rewrite Hsplit. rewrite inGroupsOf_short; [done|]. simpl. lia.
Qed.
(** C10: the paragraph separator of [splitMessage] is the marker, a
    backslash followed by the letter n, and not the line feed.  The
    marker ends a paragraph.  When no paragraph has to be wrapped, the
    chunks are the pieces of the text between markers, in consecutive
    groups of [maxLines], each group joined by line feeds: two short
    pieces around one marker come back as one chunk of two lines, or as
    two chunks when [maxLines] is 1.  A text without the marker,
    whatever line feeds it has, is one paragraph; when it has at most
    [maxCharsPerLine] code units it is returned whole as one chunk; and
    in every case the chunks are joins of lines which, put back together
    with one blank between consecutive lines, are the text itself
    (after one blank, when the word loop closed an empty first line):
    lines and chunks end at blanks of the text only, so every line feed
    of the text lies inside an emitted line. *)
Theorem splitMessage_marker_not_line_feed :
  (forall a b : jsstring,
     includes a MARKER = false ->
     split MARKER (a ++ MARKER ++ b) = a :: split MARKER b) /\
  (forall (text : jsstring) ml mc,
     1 <= ml -> Forall (fun p => len p <= mc) (split MARKER text) ->
     splitMessage text ml mc
     = map (join NL) (inGroupsOf (Z.to_nat ml) (split MARKER text))) /\
  (forall (a b : jsstring) ml mc,
     2 <= ml -> includes a MARKER = false -> includes b MARKER = false ->
     len a <= mc -> len b <= mc ->
     splitMessage (a ++ MARKER ++ b) ml mc = [a ++ NL ++ b] /\
     splitMessage (a ++ MARKER ++ b) 1 mc = [a; b]) /\
  (forall (text : jsstring) ml mc,
     includes text MARKER = false ->
     split MARKER text = [text] /\
     (1 <= ml -> len text <= mc -> splitMessage text ml mc = [text]) /\
     exists lines_by_chunk : list (list jsstring),
       splitMessage text ml mc = map (join NL) lines_by_chunk /\
       (join SP (concat lines_by_chunk) = text \/
        join SP (concat lines_by_chunk) = SPACE :: text)).
Proof.
  split; [exact split_marker_app|].
  split; [exact splitMessage_short_paragraphs|].
  split.
  - intros a b ml mc Hml Ha Hb Hla Hlb.
    split; [by apply splitMessage_two_paragraphs|].
    assert (Hsplit : split MARKER (a ++ MARKER ++ b) = [a; b]).
    { rewrite split_marker_app by done. by rewrite (split_not_included MARKER b). }
    rewrite splitMessage_short_paragraphs; [|lia|rewrite Hsplit; by repeat constructor].
    rewrite Hsplit. change [a; b] with ([a] ++ [b]).
    rewrite (inGroupsOf_full (Z.to_nat 1) [a] [b]); [|simpl; lia|done|done].
    rewrite inGroupsOf_short; [done|simpl; lia].
  - intros text ml mc Hmark.
    split; [by apply split_not_included|].
    split; [intros; by apply splitMessage_one_paragraph|].
    destruct (splitMessage_groups text ml mc) as (gs & Hsm & Hcat & _).
    exists gs. split; [exact Hsm|].
    rewrite Hcat. unfold wrappedLines.
    rewrite (split_not_included MARKER text Hmark). simpl. rewrite app_nil_r.
    apply paragraphLines_join.
Qed.

Lemma splitMessage_marker_not_line_feed_witness :
  (2 <= 3 /\ includes (js "Hi there!") MARKER = false /\
   includes (js "How are you?") MARKER = false /\
   splitMessage (js "Hi there!\nHow are you?") 3 100
   = [js "Hi there!" ++ NL ++ js "How are you?"]) /\
  (includes reply_with_line_feeds MARKER = false /\
   (NEWLINE ∈ reply_with_line_feeds) /\
   splitMessage reply_with_line_feeds 3 100 = [reply_with_line_feeds]).
Proof.
  assert (H0 : 2 <= 3) by lia.
  assert (Ha : includes (js "Hi there!") MARKER = false) by reflexivity.
  assert (Hb : includes (js "How are you?") MARKER = false) by reflexivity.
  assert (Hla : len (js "Hi there!") <= 100) by (vm_compute; discriminate).
  assert (Hlb : len (js "How are you?") <= 100) by (vm_compute; discriminate).
  assert (H1 : includes reply_with_line_feeds MARKER = false) by reflexivity.
  assert (H2 : NEWLINE ∈ reply_with_line_feeds).
  { apply (bool_decide_unpack _). vm_compute. exact I. }
  assert (H3 : 1 <= 3) by lia.
  assert (H4 : len reply_with_line_feeds <= 100) by (vm_compute; discriminate).
  pose proof splitMessage_marker_not_line_feed as (_ & _ & Htwo & Hfree).
  split.
  - split; [exact H0|]. split; [exact Ha|]. split; [exact Hb|].
    exact (proj1 (Htwo (js "Hi there!") (js "How are you?") 3 100 H0 Ha Hb Hla Hlb)).
  - split; [exact H1|]. split; [exact H2|].
    exact (proj1 (proj2 (Hfree reply_with_line_feeds 3 100 H1)) H3 H4).
Defined.

(** ** The conversation store *)

Lemma every_Forall f items :
  every f items = Ok true <-> Forall (fun item => f item = Ok true) items.
Proof.
  induction items as [|item items IH]; simpl.
  - split; [constructor|reflexivity].
  - destruct (f item) as [[|]|e] eqn:E.
    + rewrite IH. split; [by constructor|]. intros H. by apply Forall_cons in H as [_ H].
    + split; [discriminate|]. intros H. apply Forall_cons in H as [H _]. congruence.
    + split; [discriminate|]. intros H. apply Forall_cons in H as [H _]. congruence.
Qed.

Lemma first_isTurn_carries item :
  First.isTurn item = Ok true <-> carriesRoleAndParts item.
Proof.
  split.
  - destruct item as [| | | | |props]; simpl; try discriminate.
    intros [= H]. apply andb_true_iff in H as [H1 H2].
    apply bool_decide_eq_true in H1, H2. by exists props.
  - intros (props & -> & H1 & H2). simpl. f_equal.
    apply andb_true_iff. split; by apply bool_decide_eq_true.
Qed.

Lemma second_isTurn_carries item :
  Second.isTurn item = Ok true -> carriesRoleAndParts item.
Proof.
  destruct item as [| | | | |props]; simpl; try discriminate.
  intros [= H]. apply andb_true_iff in H as [H1 H2].
  exists props. split; [reflexivity|].
  split; [destruct (lookupProp (js "role") props)|destruct (lookupProp (js "parts") props)];
    try done; by eexists.
Qed.



(** C8: loading a key that has no stored record, or whose record is
    unparseable or parses to something other than an array of objects
    each carrying a role and parts, returns the empty conversation, in
    both variants; the function returns a conversation in every case
    and raises nothing. *)
Theorem load_unusable_record_is_empty env w k :
  unusableRecord (files w !! conversationPath k) ->
  First.loadConversationHistory env w k = [] /\
  Second.loadConversationHistory env w k = [].
Proof.
  intros Hbad.
  unfold First.loadConversationHistory, First.loadConversationHistory_try,
    Second.loadConversationHistory, Second.loadConversationHistory_try, fs_readFile.
  destruct (fs_fault env (conversationPath k)); [done|].
  destruct (files w !! conversationPath k) as [[raw|v]|]; simpl in *; [done| |done].
  destruct v as [| | | |items|]; try done.
  assert (Hnot : ~ Forall carriesRoleAndParts items).
  { intros H. apply Hbad. by exists items. }
  split.
  - destruct (every First.isTurn items) as [[|]|[]] eqn:E; try done.
    exfalso. apply Hnot. apply every_Forall in E.
    eapply Forall_impl; [exact E|]. intros item. apply first_isTurn_carries.
  - destruct (every Second.isTurn items) as [[|]|[]] eqn:E; try done.
    exfalso. apply Hnot. apply every_Forall in E.
    eapply Forall_impl; [exact E|]. intros item. apply second_isTurn_carries.
Qed.

Lemma load_unusable_record_is_empty_witness :
  let w := mkWorld {[ conversationPath (js "u1") := JsonText (JArr [JObj [(js "role", JStr (js "user"))]]) ]} [] in
  unusableRecord (files w !! conversationPath (js "u1")) /\
  First.loadConversationHistory (envWith "hi" allPostsFail) w (js "u1") = [] /\
  Second.loadConversationHistory (envWith "hi" allPostsFail) w (js "u1") = [].
Proof.
  intros w.
  assert (H : unusableRecord (files w !! conversationPath (js "u1"))).
  { unfold w. simpl. rewrite lookup_singleton_eq. simpl.
    intros (items & [= <-] & Hall).
    apply Forall_cons in Hall as [(props & [= <-] & _ & Hparts) _].
    vm_compute in Hparts. by destruct Hparts. }
  split; [exact H|].
  exact (load_unusable_record_is_empty (envWith "hi" allPostsFail) w (js "u1") H).
Defined.

(** A missing file, unparseable text and an array holding [null]. *)
Example load_missing_garbled_null :
  First.loadConversationHistory (envWith "hi" allPostsFail) emptyWorld (js "u1") = [] /\
  First.loadConversationHistory (envWith "hi" allPostsFail)
    (mkWorld {[ conversationPath (js "u1") := Garbled (js "{oops") ]} []) (js "u1") = [] /\
  First.loadConversationHistory (envWith "hi" allPostsFail)
    (mkWorld {[ conversationPath (js "u1") := JsonText (JArr [JNull]) ]} []) (js "u1") = [].
Proof.
  split; [|split]; vm_compute; reflexivity.
Qed.





(** ** The reply generator *)

Lemma trimStart_head s c rest : trimStart s = c :: rest -> isWhiteSpace c = false.
Proof.
  induction s as [|x s IH]; simpl; [discriminate|].
  destruct (isWhiteSpace x) eqn:E; [exact IH|].
  intros [= <- _]. exact E.
Qed.

Lemma trimStart_suffix s : exists pre, s = pre ++ trimStart s.
Proof.
  induction s as [|x s [pre IH]]; simpl; [by exists []|].
  destruct (isWhiteSpace x).
  - exists (x :: pre). simpl. by rewrite <- IH.
  - by exists [].
Qed.

Lemma trimEnd_prefix s : exists post, s = trimEnd s ++ post.
Proof.
  destruct (trimStart_suffix (rev s)) as [pre H].
  exists (rev pre). unfold trimEnd.
  rewrite <- rev_app_distr, <- H, rev_involutive. reflexivity.
Qed.

Lemma trim_trimmed s : trimmed (trim s).
Proof.
  unfold trim. split.
  - intros c rest H.
    destruct (trimEnd_prefix (trimStart s)) as [post Hp].
    rewrite H in Hp. simpl in Hp.
    exact (trimStart_head s c _ Hp).
  - intros c front H. unfold trimEnd in H.
    apply (f_equal (@rev N)) in H.
    rewrite rev_involutive, rev_app_distr in H. simpl in H.
    exact (trimStart_head _ c _ H).
Qed.

Lemma firstCandidateText_shape candidates t :
  firstCandidateText candidates = Ok t ->
  exists t0, firstPartText (Some candidates) = Some t0 /\ t = trim t0.
Proof.
  destruct candidates as [|c cs]; simpl; [discriminate|].
  destruct (candidate_content c) as [content|]; [|discriminate].
  destruct (content_parts content) as [[|part parts]|]; try discriminate.
  destruct (part_text part) as [t0|]; [|discriminate].
  intros [= <-]. by exists t0.
Qed.

Lemma first_extractText_cases response r :
  First.extractText response = Ok r ->
  r = UNEXPECTED_FORMAT \/ exists t, t ∈ shapeTexts response /\ r = trim t.
Proof.
  destruct response as [res|]; simpl; [|intros [= <-]; by left].
  destruct (First.nestedCandidates res) as [cands|] eqn:Hn.
  - intros H. apply firstCandidateText_shape in H as (t0 & Ht0 & ->).
    right. exists t0. split; [|reflexivity].
    unfold First.nestedCandidates in Hn.
    destruct (result_response res) as [inner|]; [|discriminate]. simpl.
    destruct (inner_candidates inner) as [[|c cs]|] eqn:Hc; try discriminate.
    destruct (candidate_content c) as [content|] eqn:Hcc; [|discriminate].
    destruct (content_parts content) as [[|part parts]|] eqn:Hcp; try discriminate.
    injection Hn as <-. simpl in Ht0. rewrite Hcc, Hcp in Ht0.
    simpl. rewrite Hcc, Hcp, Ht0. simpl. left.
  - destruct (result_text res) as [[|x t]|] eqn:Ht.
    + destruct (First.topLevelCandidates res) as [cands|] eqn:Htop;
        [|intros [= <-]; by left].
      intros H. apply firstCandidateText_shape in H as (t0 & Ht0 & ->).
      right. exists t0. split; [|reflexivity].
      unfold First.topLevelCandidates in Htop.
      destruct (result_candidates res) as [[|c cs]|] eqn:Hc; try discriminate.
      destruct (candidate_content c) as [content|] eqn:Hcc; [|discriminate].
      destruct (content_parts content) as [parts|] eqn:Hcp; [|discriminate].
      injection Htop as <-.
      apply elem_of_app. right. apply elem_of_app. right.
      rewrite Ht0. simpl. left.
    + intros [= <-]. right. exists (x :: t). split; [|reflexivity].
      apply elem_of_app. right. simpl. left.
    + destruct (First.topLevelCandidates res) as [cands|] eqn:Htop;
        [|intros [= <-]; by left].
      intros H. apply firstCandidateText_shape in H as (t0 & Ht0 & ->).
      right. exists t0. split; [|reflexivity].
      unfold First.topLevelCandidates in Htop.
      destruct (result_candidates res) as [[|c cs]|] eqn:Hc; try discriminate.
      destruct (candidate_content c) as [content|] eqn:Hcc; [|discriminate].
      destruct (content_parts content) as [parts|] eqn:Hcp; [|discriminate].
      injection Htop as <-.
      apply elem_of_app. right. apply elem_of_app. right.
      rewrite Ht0. simpl. left.
Qed.

Lemma second_candidates_cases (candidates : option (list Candidate)) :
  let r := match candidates with
           | Some cands =>
               match firstCandidateText cands with
               | Ok t => t
               | Throw _ => UNUSUAL_STRUCTURE
               end
           | None => EMPTY_OR_UNEXPECTED
           end in
  r ∈ [UNUSUAL_STRUCTURE; EMPTY_OR_UNEXPECTED] \/
  exists t, firstPartText candidates = Some t /\ r = trim t.
Proof.
  destruct candidates as [cands|]; simpl; [|left; in_list].
  destruct (firstCandidateText cands) as [t|e] eqn:E; [|left; in_list].
  apply firstCandidateText_shape in E as (t0 & Ht0 & ->).
  right. by exists t0.
Qed.

Lemma second_extractText_cases response :
  Second.extractText response ∈ [UNUSUAL_STRUCTURE; EMPTY_OR_UNEXPECTED] \/
  exists t, t ∈ shapeTexts response /\ Second.extractText response = trim t.
Proof.
  destruct response as [res|]; simpl; [|left; in_list].
  pose proof (second_candidates_cases (result_candidates res)) as Hcands.
  simpl in Hcands.
  assert (Hlast : forall t0, firstPartText (result_candidates res) = Some t0 ->
    t0 ∈ option_list (firstPartText (from_option inner_candidates None (result_response res)))
         ++ option_list (result_text res)
         ++ option_list (firstPartText (result_candidates res))).
  { intros t0 ->. apply elem_of_app. right. apply elem_of_app. right. simpl. left. }
  destruct (result_text res) as [[|x t]|] eqn:Ht.
  - destruct Hcands as [?|(t0 & Hin & Heq)]; [by left|].
    right. exists t0. split; [by apply Hlast|done].
  - right. exists (x :: t). split; [|reflexivity].
    apply elem_of_app. right. simpl. left.
  - destruct Hcands as [?|(t0 & Hin & Heq)]; [by left|].
    right. exists t0. split; [by apply Hlast|done].
Qed.

Lemma first_reply env messageText history :
  fst (First.getGeminiResponse env messageText history) =
  if isSet (GEMINI_API_KEY env)
  then match messageText with
       | JStr _ =>
           match firstCall env messageText history with
           | Ok response =>
               match First.extractText response with
               | Ok reply => reply
               | Throw _ => TROUBLE
               end
           | Throw _ => TROUBLE
           end
       | _ => TROUBLE
       end
  else APOLOGY.
Proof.
  unfold First.getGeminiResponse, First.getGeminiResponse_try, firstCall.
  destruct (isSet (GEMINI_API_KEY env)); [|reflexivity]. cbn [negb].
  destruct messageText; try reflexivity. cbn [fst].
  by destruct (fst (chat_sendMessage env (JStr s) history)).
Qed.

Lemma first_history env messageText history :
  snd (First.getGeminiResponse env messageText history) =
  if isSet (GEMINI_API_KEY env)
  then match messageText with
       | JStr _ => historyAfterChat env messageText history
       | _ => history
       end
  else history.
Proof.
  unfold First.getGeminiResponse, First.getGeminiResponse_try, historyAfterChat.
  destruct (isSet (GEMINI_API_KEY env)); [|reflexivity]. cbn [negb].
  destruct messageText; reflexivity.
Qed.

Lemma second_reply env messageText history :
  fst (Second.getGeminiResponse env messageText history) =
  if isSet (GEMINI_API_KEY env)
  then match secondCall env messageText history with
       | Ok response => Second.extractText response
       | Throw _ => TROUBLE
       end
  else APOLOGY.
Proof.
  unfold Second.getGeminiResponse, Second.getGeminiResponse_try, secondCall.
  destruct (isSet (GEMINI_API_KEY env)); [|reflexivity]. cbn [negb].
  destruct history as [|turn history]; cbn [fst].
  - by destruct (model_generateContent env messageText).
  - by destruct (fst (chat_sendMessage env messageText (turn :: history))).
Qed.

Lemma second_history env messageText history :
  snd (Second.getGeminiResponse env messageText history) =
  if isSet (GEMINI_API_KEY env) then historyAfterChat env messageText history else history.
Proof.
  unfold Second.getGeminiResponse, Second.getGeminiResponse_try, historyAfterChat.
  destruct (isSet (GEMINI_API_KEY env)); [|reflexivity]. cbn [negb].
  by destruct history.
Qed.

Lemma firstPartText_text candidates t :
  firstPartText (Some candidates) = Some t -> firstCandidateText candidates = Ok (trim t).
Proof.
  destruct candidates as [|c cs]; simpl; [discriminate|].
  destruct (candidate_content c) as [content|]; [|discriminate].
  destruct (content_parts content) as [[|part parts]|]; try discriminate.
  by intros ->.
Qed.

(** The first variant on a result whose first shape is complete. *)
Lemma first_extractText_nested r t :
  firstPartText (from_option inner_candidates None (result_response r)) = Some t ->
  First.extractText (Some r) = Ok (trim t).
Proof.
  intros Ht. unfold First.extractText.
  assert (Hn : First.nestedCandidates r
               = from_option inner_candidates None (result_response r)).
  { unfold First.nestedCandidates.
    destruct (result_response r) as [inner|]; [|discriminate]. simpl in *.
    destruct (inner_candidates inner) as [[|c cs]|]; try discriminate. simpl in Ht.
    destruct (candidate_content c) as [content|]; [|discriminate].
    destruct (content_parts content) as [[|part parts]|]; try discriminate.
    reflexivity. }
  rewrite Hn.
  destruct (from_option inner_candidates None (result_response r)) as [cands|];
    [|discriminate].
  by apply firstPartText_text.
Qed.

(** The first variant on a result without the first shape. *)
Lemma first_extractText_top r :
  First.nestedCandidates r = None ->
  (forall t, result_text r = Some t -> t <> [] -> First.extractText (Some r) = Ok (trim t)) /\
  (forall t, isSet (result_text r) = false -> firstPartText (result_candidates r) = Some t ->
     First.extractText (Some r) = Ok (trim t)) /\
  (isSet (result_text r) = false -> First.topLevelCandidates r = None ->
     First.extractText (Some r) = Ok UNEXPECTED_FORMAT).
Proof.
  intros Hn. unfold First.extractText. rewrite Hn. split; [|split].
  - intros t -> Hne. by destruct t.
  - intros t Htext Ht.
    assert (Htop : First.topLevelCandidates r = result_candidates r).
    { unfold First.topLevelCandidates.
      destruct (result_candidates r) as [[|c cs]|]; try discriminate. simpl in Ht.
      destruct (candidate_content c) as [content|]; [|discriminate].
      destruct (content_parts content) as [parts|]; [|discriminate]. reflexivity. }
    rewrite Htop.
    destruct (result_candidates r) as [cands|]; [|discriminate].
    rewrite (firstPartText_text cands t Ht).
    destruct (result_text r) as [[|x s]|]; try done.
  - intros Htext ->. destruct (result_text r) as [[|x s]|]; try done.
Qed.

Lemma second_extractText_shapes r :
  (forall t, result_text r = Some t -> t <> [] -> Second.extractText (Some r) = trim t) /\
  (forall t, isSet (result_text r) = false -> firstPartText (result_candidates r) = Some t ->
     Second.extractText (Some r) = trim t) /\
  (isSet (result_text r) = false -> result_candidates r = None ->
     Second.extractText (Some r) = EMPTY_OR_UNEXPECTED).
Proof.
  unfold Second.extractText. split; [|split].
  - intros t -> Hne. by destruct t.
  - intros t Htext Ht.
    destruct (result_candidates r) as [cands|]; [|discriminate].
    rewrite (firstPartText_text cands t Ht).
    destruct (result_text r) as [[|x s]|]; try done.
  - intros Htext ->. destruct (result_text r) as [[|x s]|]; try done.
Qed.

Lemma nestedCandidates_absent r :
  result_response r = None -> First.nestedCandidates r = None.
Proof. unfold First.nestedCandidates. by intros ->. Qed.

(** C7: in both variants the reply generator returns a string for every
    message and history and lets no error through.  Without an API key
    it returns the fixed apology at once and leaves the history alone.
    With a key, a call that rejects gives the fixed fallback
    [TROUBLE], and so does, in the first variant, a message that is not
    a string; a result under none of whose shapes a text is found gives
    one of the fixed fallback strings.  When a text is found the reply
    is that text trimmed: in the first variant the text of the first
    part under [response.response.candidates], and for a result
    without [response.response] a non-empty [response.text] or else
    the text of the first part under [response.candidates]; in the
    second variant a non-empty [response.text] or else the text of the
    first part under [response.candidates].  In every case the reply
    is one of the fixed strings or one of the texts of the result,
    trimmed; and a trimmed text neither starts nor ends with white
    space. *)
Theorem getGeminiResponse_always_answers env messageText history :
  let r1 := fst (First.getGeminiResponse env messageText history) in
  let r2 := fst (Second.getGeminiResponse env messageText history) in
  (isSet (GEMINI_API_KEY env) = false ->
     First.getGeminiResponse env messageText history = (APOLOGY, history) /\
     Second.getGeminiResponse env messageText history = (APOLOGY, history)) /\
  (isSet (GEMINI_API_KEY env) = true ->
     (forall e, firstCall env messageText history = Throw e -> r1 = TROUBLE) /\
     (forall e, secondCall env messageText history = Throw e -> r2 = TROUBLE) /\
     ((forall m, messageText <> JStr m) -> r1 = TROUBLE) /\
     (forall response,
        firstCall env messageText history = Ok response -> shapeTexts response = [] ->
        r1 ∈ [TROUBLE; UNEXPECTED_FORMAT]) /\
     (forall response,
        secondCall env messageText history = Ok response -> shapeTexts response = [] ->
        r2 ∈ [UNUSUAL_STRUCTURE; EMPTY_OR_UNEXPECTED]) /\
     (forall m r t,
        messageText = JStr m -> firstCall env messageText history = Ok (Some r) ->
        (firstPartText (from_option inner_candidates None (result_response r)) = Some t \/
         (result_response r = None /\ result_text r = Some t /\ t <> []) \/
         (result_response r = None /\ isSet (result_text r) = false /\
          firstPartText (result_candidates r) = Some t)) ->
        r1 = trim t /\ trimmed r1) /\
     (forall r t,
        secondCall env messageText history = Ok (Some r) ->
        ((result_text r = Some t /\ t <> []) \/
         (isSet (result_text r) = false /\
          firstPartText (result_candidates r) = Some t)) ->
        r2 = trim t /\ trimmed r2) /\
     (r1 ∈ [TROUBLE; UNEXPECTED_FORMAT] \/
      exists response t,
        firstCall env messageText history = Ok response /\
        t ∈ shapeTexts response /\ r1 = trim t /\ trimmed r1) /\
     (r2 ∈ [TROUBLE; UNUSUAL_STRUCTURE; EMPTY_OR_UNEXPECTED] \/
      exists response t,
        secondCall env messageText history = Ok response /\
        t ∈ shapeTexts response /\ r2 = trim t /\ trimmed r2)).
Proof.
  intros r1 r2.
  assert (Hlast1 : isSet (GEMINI_API_KEY env) = true ->
    r1 ∈ [TROUBLE; UNEXPECTED_FORMAT] \/
    exists response t,
      firstCall env messageText history = Ok response /\
      t ∈ shapeTexts response /\ r1 = trim t /\ trimmed r1).
  { intros Hkey. subst r1. rewrite first_reply, Hkey.
    destruct messageText as [| | |m| |]; try (left; in_list).
    destruct (firstCall env (JStr m) history) as [response|e]; [|left; in_list].
    destruct (First.extractText response) as [r|e] eqn:Hx; [|left; in_list].
    apply first_extractText_cases in Hx as [->|(t & Hin & ->)]; [left; in_list|].
    right. exists response, t. repeat split; try done; apply trim_trimmed. }
  assert (Hlast2 : isSet (GEMINI_API_KEY env) = true ->
    r2 ∈ [TROUBLE; UNUSUAL_STRUCTURE; EMPTY_OR_UNEXPECTED] \/
    exists response t,
      secondCall env messageText history = Ok response /\
      t ∈ shapeTexts response /\ r2 = trim t /\ trimmed r2).
  { intros Hkey. subst r2. rewrite second_reply, Hkey.
    destruct (secondCall env messageText history) as [response|e]; [|left; in_list].
    destruct (second_extractText_cases response) as [H|(t & Hin & Heq)].
    - left. by right.
    - right. exists response, t. rewrite Heq. repeat split; try done; apply trim_trimmed. }
  split.
  - intros Hkey. unfold First.getGeminiResponse, Second.getGeminiResponse.
    by rewrite Hkey.
  - intros Hkey. specialize (Hlast1 Hkey). specialize (Hlast2 Hkey).
    subst r1 r2. rewrite first_reply, second_reply, Hkey in *.
    split; [|split; [|split; [|split; [|split; [|split; [|split; [|split]]]]]]];
      try assumption.
    + intros e He. rewrite He. by destruct messageText.
    + intros e He. by rewrite He.
    + intros Hm. destruct messageText as [| | |m| |]; try done. by destruct (Hm m).
    + intros response Hcall Hnone. rewrite Hcall in *.
      destruct Hlast1 as [H|(response' & t & [= <-] & Hin & _)]; [done|].
      rewrite Hnone in Hin. by apply elem_of_nil in Hin.
    + intros response Hcall Hnone. rewrite Hcall in *.
      destruct (second_extractText_cases response) as [H'|(t & Hin & _)]; [done|].
      rewrite Hnone in Hin. by apply elem_of_nil in Hin.
    + intros m r t -> Hcall Hshape. rewrite Hcall.
      assert (Hx : First.extractText (Some r) = Ok (trim t)).
      { destruct Hshape as [Ht|[(Hr & Ht & Hne)|(Hr & Hs & Ht)]].
        - by apply first_extractText_nested.
        - destruct (first_extractText_top r (nestedCandidates_absent r Hr)) as (Htext & _).
          by apply Htext.
        - destruct (first_extractText_top r (nestedCandidates_absent r Hr)) as (_ & Hc & _).
          by apply Hc. }
      rewrite Hx. split; [reflexivity|apply trim_trimmed].
    + intros r t Hcall Hshape. rewrite Hcall.
      destruct (second_extractText_shapes r) as (Htext & Hc & _).
      assert (Hx : Second.extractText (Some r) = trim t).
      { destruct Hshape as [(Ht & Hne)|(Hs & Ht)]; [by apply Htext|by apply Hc]. }
      rewrite Hx. split; [reflexivity|apply trim_trimmed].
Qed.

Lemma getGeminiResponse_always_answers_witness :
  let env := envWith "  On my way!  " allPostsFail in
  let r := replyResult "  On my way!  " in
  isSet (GEMINI_API_KEY env) = true /\
  firstCall env (JStr (js "hello")) [] = Ok (Some r) /\
  firstPartText (from_option inner_candidates None (result_response r))
    = Some (js "  On my way!  ") /\
  fst (First.getGeminiResponse env (JStr (js "hello")) []) = js "On my way!".
Proof.
  intros env r.
  assert (H1 : isSet (GEMINI_API_KEY env) = true) by reflexivity.
  assert (H2 : firstCall env (JStr (js "hello")) [] = Ok (Some r)) by reflexivity.
  assert (H3 : firstPartText (from_option inner_candidates None (result_response r))
               = Some (js "  On my way!  ")) by reflexivity.
  split; [exact H1|]. split; [exact H2|]. split; [exact H3|].
  pose proof (getGeminiResponse_always_answers env (JStr (js "hello")) []) as [_ H].
  destruct (H H1) as (_ & _ & _ & _ & _ & Hshape & _).
  destruct (Hshape (js "hello") r (js "  On my way!  ") eq_refl H2 (or_introl H3)) as [Heq _].
  rewrite Heq. vm_compute. reflexivity.
Defined.

(** A result that carries its text under [response.response.candidates]
    only: the first variant finds and trims it; the second variant
    looks at [text] and [candidates] of the result itself and falls
    back.  A message that is not a string makes the first variant fall
    back. *)
Example getGeminiResponse_replies :
  fst (First.getGeminiResponse (envWith "  On my way!  " allPostsFail) (JStr (js "hello")) [])
    = js "On my way!" /\
  fst (Second.getGeminiResponse (envWith "  On my way!  " allPostsFail) (JStr (js "hello")) [])
    = EMPTY_OR_UNEXPECTED /\
  fst (First.getGeminiResponse (envWith "x" allPostsFail) (JNum 5) []) = TROUBLE.
Proof. split; [|split]; vm_compute; reflexivity. Qed.

(** ** Delivery *)

Lemma first_send_text env recipient chunk w :
  First.sendWhatsappMessage env recipient chunk "text" None w =
  if isSet (WASENDER_API_TOKEN env)
  then
    let ok := axios_post env (effects w)
                (mkPayload (formatRecipient recipient) (Some chunk) None None None None) in
    (ok, mkWorld (files w) (effects w ++ [textPost recipient chunk ok]))
  else (false, w).
Proof.
  unfold First.sendWhatsappMessage. destruct (isSet (WASENDER_API_TOKEN env)); reflexivity.
Qed.

Lemma second_send_text env recipient chunk w :
  Second.sendWhatsAppMessage env recipient chunk "text" None w =
  First.sendWhatsappMessage env recipient chunk "text" None w.
Proof. reflexivity. Qed.

Lemma second_deliveryLoop_first env recipient chunks w :
  Second.deliveryLoop env recipient chunks w = First.deliveryLoop env recipient chunks w.
Proof.
  revert w. induction chunks as [|chunk rest IH]; intros w; [reflexivity|].
  simpl. rewrite second_send_text.
  destruct (First.sendWhatsappMessage env recipient chunk "text" None w) as [ok w1].
  destruct ok; simpl; [apply IH|reflexivity].
Qed.

Lemma first_deliveryLoop_cons env recipient chunk rest w :
  First.deliveryLoop env recipient (chunk :: rest) w =
  let '(success, w1) := First.sendWhatsappMessage env recipient chunk "text" None w in
  if negb success then w1
  else First.deliveryLoop env recipient rest
         match rest with
         | [] => w1
         | _ :: _ => mkWorld (files w1) (effects w1 ++ [Sleep])
         end.
Proof. reflexivity. Qed.

Lemma withPauses_cons e (posts : list Effect) :
  posts <> [] -> withPauses (e :: posts) = e :: Sleep :: withPauses posts.
Proof. destruct posts; [done|reflexivity]. Qed.

Lemma withPauses_last (posts : list Effect) : last (withPauses posts) = last posts.
Proof.
  induction posts as [|e posts IH]; [reflexivity|].
  destruct posts as [|e' posts]; [reflexivity|].
  change (withPauses (e :: e' :: posts)) with (e :: Sleep :: withPauses (e' :: posts)).
  rewrite (last_cons_cons e e' posts), <- IH.
  destruct (withPauses (e' :: posts)) as [|x rest] eqn:E.
  - destruct posts; discriminate.
  - by rewrite !last_cons_cons.
Qed.

Lemma posts_last_not_pause recipient (sent : list jsstring) (stopped : option jsstring) :
  last (withPauses (map (fun c => textPost recipient c true) sent
                    ++ map (fun c => textPost recipient c false) (option_list stopped)))
  <> Some Sleep.
Proof.
  rewrite withPauses_last. intros H.
  apply last_Some_elem_of in H.
  apply elem_of_app in H as [H|H]; apply list_elem_of_fmap in H as (c & Hc & _);
    discriminate.
Qed.

Lemma first_deliveryLoop_stops env recipient chunks w :
  stopsAtFirstFailure env recipient chunks w (First.deliveryLoop env recipient chunks w).
Proof.
  unfold stopsAtFirstFailure.
  revert w. induction chunks as [|chunk rest IH]; intros w.
  - exists [], None. cbv zeta. split; [done|]. split; [simpl; by rewrite app_nil_r|].
    split; [apply posts_last_not_pause|]. repeat split; try done.
  - rewrite first_deliveryLoop_cons, first_send_text.
    destruct (isSet (WASENDER_API_TOKEN env)) eqn:Htoken; cbv zeta.
    + set (payload := mkPayload (formatRecipient recipient) (Some chunk) None None None None).
      destruct (axios_post env (effects w) payload) eqn:Hpost; cbn [negb].
      * destruct rest as [|next rest'].
        -- exists [chunk], None. split; [done|]. split; [reflexivity|].
           split; [apply posts_last_not_pause|]. repeat split; try done; congruence.
        -- set (w2 := mkWorld (files w)
                        ((effects w ++ [textPost recipient chunk true]) ++ [Sleep])).
           destruct (IH w2) as (sent & stopped & Hpre & Heff & _ & Hfiles & Hset & _).
           destruct (Hset eq_refl) as [Hall Hsome].
           exists (chunk :: sent), stopped.
           split; [simpl; by apply prefix_cons|].
           split; [|split; [apply posts_last_not_pause|split; [|split]]].
           ++ cbn [files effects]. fold w2. rewrite Heff. unfold w2. cbn [effects].
              change (map (fun c => textPost recipient c true) (chunk :: sent))
                with (textPost recipient chunk true
                      :: map (fun c => textPost recipient c true) sent).
              rewrite <- app_comm_cons, withPauses_cons.
              ** rewrite <- !app_assoc. reflexivity.
              ** intros Hnil. apply app_eq_nil in Hnil as [H1 H2].
                 apply map_eq_nil in H1, H2. apply (Hsome ltac:(done)).
                 by rewrite H1, H2.
           ++ cbn [files effects]. fold w2. rewrite Hfiles. reflexivity.
           ++ intros _. split; [|done]. intros Hs. by rewrite (Hall Hs).
           ++ congruence.
      * exists [], (Some chunk). split; [apply prefix_cons, prefix_nil|].
        split; [reflexivity|]. split; [apply posts_last_not_pause|].
        repeat split; try done; congruence.
    + exists [], None. split; [apply prefix_nil|]. split; [simpl; by rewrite app_nil_r|].
      split; [apply posts_last_not_pause|]. repeat split; try done; congruence.
Qed.

Lemma first_deliveryLoop_files env recipient chunks w :
  files (First.deliveryLoop env recipient chunks w) = files w.
Proof.
  destruct (first_deliveryLoop_stops env recipient chunks w)
    as (sent & stopped & _ & _ & _ & H & _).
  exact H.
Qed.

(** C6: in both variants the delivery loop posts the chunks in order,
    one after the other, stops at the first send that reports failure
    without attempting a later chunk, raises nothing, pauses between two
    consecutive posts only and never after the last one.  With chunks
    [c1, c2, c3] and a second send that fails, [c1] is delivered, [c2]
    is attempted and [c3] is not. *)
Theorem deliveryLoop_stops_at_first_failure env recipient w :
  (forall chunks,
     stopsAtFirstFailure env recipient chunks w (First.deliveryLoop env recipient chunks w) /\
     stopsAtFirstFailure env recipient chunks w (Second.deliveryLoop env recipient chunks w)) /\
  (forall c1 c2 c3,
     isSet (WASENDER_API_TOKEN env) = true ->
     axios_post env (effects w)
       (mkPayload (formatRecipient recipient) (Some c1) None None None None) = true ->
     axios_post env (effects w ++ [textPost recipient c1 true; Sleep])
       (mkPayload (formatRecipient recipient) (Some c2) None None None None) = false ->
     effects (First.deliveryLoop env recipient [c1; c2; c3] w)
       = effects w ++ [textPost recipient c1 true; Sleep; textPost recipient c2 false] /\
     effects (Second.deliveryLoop env recipient [c1; c2; c3] w)
       = effects w ++ [textPost recipient c1 true; Sleep; textPost recipient c2 false]).
Proof.
  split.
  - intros chunks. split; [apply first_deliveryLoop_stops|].
    rewrite (second_deliveryLoop_first env recipient chunks w).
    apply first_deliveryLoop_stops.
  - intros c1 c2 c3 Htoken H1 H2.
    rewrite (second_deliveryLoop_first env recipient [c1; c2; c3] w).
    assert (H : effects (First.deliveryLoop env recipient [c1; c2; c3] w)
       = effects w ++ [textPost recipient c1 true; Sleep; textPost recipient c2 false]).
    { rewrite first_deliveryLoop_cons, first_send_text, Htoken. cbv zeta. rewrite H1.
      cbn [negb]. cbv iota.
      rewrite first_deliveryLoop_cons, first_send_text, Htoken. cbv zeta.
      cbn [effects files]. rewrite <- app_assoc. cbn [app]. rewrite H2.
      cbn [negb effects]. rewrite <- app_assoc. reflexivity. }
    by split.
Qed.

Lemma deliveryLoop_stops_at_first_failure_witness :
  let env := envWith "x" secondPostFails in
  let to_ := js "60123456789@s.whatsapp.net" in
  isSet (WASENDER_API_TOKEN env) = true /\
  axios_post env [] (mkPayload (formatRecipient to_) (Some (js "c1")) None None None None)
    = true /\
  axios_post env ([] ++ [textPost to_ (js "c1") true; Sleep])
    (mkPayload (formatRecipient to_) (Some (js "c2")) None None None None) = false /\
  effects (First.deliveryLoop env to_ [js "c1"; js "c2"; js "c3"] emptyWorld)
    = [] ++ [textPost to_ (js "c1") true; Sleep; textPost to_ (js "c2") false].
Proof.
  intros env to_.
  assert (H1 : isSet (WASENDER_API_TOKEN env) = true) by reflexivity.
  assert (H2 : axios_post env (effects emptyWorld)
            (mkPayload (formatRecipient to_) (Some (js "c1")) None None None None) = true)
    by reflexivity.
  assert (H3 : axios_post env (effects emptyWorld ++ [textPost to_ (js "c1") true; Sleep])
            (mkPayload (formatRecipient to_) (Some (js "c2")) None None None None) = false)
    by reflexivity.
  split; [exact H1|]. split; [exact H2|]. split; [exact H3|].
  exact (proj1 (proj2 (deliveryLoop_stops_at_first_failure env to_ emptyWorld)
                  (js "c1") (js "c2") (js "c3") H1 H2 H3)).
Defined.

(** Two chunks, both delivered: one pause, between them. *)
Example deliveryLoop_all_sent :
  effects (First.deliveryLoop (envWith "x" (fun _ _ => true)) (js "601@s.whatsapp.net")
             [js "c1"; js "c2"] emptyWorld)
  = [Post (mkPayload (js "601") (Some (js "c1")) None None None None) true;
     Sleep;
     Post (mkPayload (js "601") (Some (js "c2")) None None None None) true].
Proof. vm_compute. reflexivity. Qed.

(** ** The webhook handler *)

Lemma upsertedMessage_not_null data messageInfo :
  upsertedMessage data = Some messageInfo -> isNull data = false.
Proof. destruct data; try reflexivity. discriminate. Qed.

Lemma truthy_propOf o name : truthy (propOf o name) = true -> truthy o = true.
Proof.
  destruct o as [v|]; [|discriminate].
  destruct v; simpl; try discriminate. reflexivity.
Qed.

Lemma guarded_prop o name :
  (if truthy o then propOf o name else None) = propOf o name.
Proof.
  destruct (truthy o) eqn:E; [reflexivity|].
  destruct o as [v|]; [|reflexivity].
  destruct v; try reflexivity. discriminate.
Qed.

Lemma guarded_truthy o name :
  truthy o && truthy (propOf o name) = truthy (propOf o name).
Proof.
  destruct (truthy (propOf o name)) eqn:E.
  - by rewrite (truthy_propOf o name E).
  - apply andb_false_r.
Qed.

(** Log lines. *)
Lemma templateLiteral_one o :
  templateLiteral [o] = if printable o then Ok tt else Throw TypeError.
Proof.
  unfold templateLiteral, printable. cbn [existsb]. rewrite orb_false_r.
  by destruct (from_option toStringThrows false o).
Qed.

Lemma templateLiteral_text (sender key : jsstring) text :
  templateLiteral [Some (JStr sender); Some (JStr key); Some text]
  = if toStringThrows text then Throw TypeError else Ok tt.
Proof. unfold templateLiteral. cbn. by rewrite orb_false_r. Qed.

Lemma templateLiteral_stub stubType sender stubParams :
  printable stubType = true -> printable sender = true -> printable stubParams = true ->
  templateLiteral [stubType; sender; stubParams] = Ok tt.
Proof.
  unfold templateLiteral, printable. cbn [existsb].
  intros H1 H2 H3. apply negb_true_iff in H1, H2, H3. by rewrite H1, H2, H3.
Qed.

Lemma falsy_printable v : truthyValue v = false -> toStringThrows v = false.
Proof. by destruct v. Qed.

Lemma truthy_not_printable o : printable o = false -> truthy o = true.
Proof.
  unfold printable. destruct o as [v|]; [|discriminate]. simpl.
  intros H. apply negb_false_iff in H.
  destruct (truthyValue v) eqn:E; [done|].
  by rewrite (falsy_printable v E) in H.
Qed.

(** The handlers on a "new message" event that is not self-originated. *)
Lemma first_webhook_try_upsert env data w messageInfo :
  upsertedMessage data = Some messageInfo ->
  selfOriginated messageInfo = false ->
  First.webhook_try env data w =
  let '(incomingMessageText, isText) := First.extractIncoming messageInfo in
  if isStub messageInfo
  then
    templateLiteral [prop messageInfo "messageStubType"; senderOf messageInfo;
                     stubParamsOf messageInfo];;
    Ok (First.systemMessage, w)
  else if negb (truthy (senderOf messageInfo)) then Ok (First.incompleteSender, w)
  else
    match senderOf messageInfo with
    | Some (JStr sender) =>
        match incomingMessageText with
        | Some text =>
            if isText && truthyValue text
            then
              w' ← First.processText env sender (sanitize sender) text w;
              Ok (First.success, w')
            else Ok (First.success, w)
        | None => Ok (First.success, w)
        end
    | _ => Throw TypeError
    end.
Proof.
  intros Hups Hself. unfold First.webhook_try.
  rewrite (upsertedMessage_not_null data messageInfo Hups), Hups.
  rewrite guarded_truthy, guarded_prop.
  unfold selfOriginated in Hself. rewrite Hself. reflexivity.
Qed.

Lemma second_webhook_try_upsert env data w messageInfo :
  upsertedMessage data = Some messageInfo ->
  selfOriginated messageInfo = false ->
  Second.webhook_try env data w =
  if negb (truthy (senderOf messageInfo)) then Ok (Second.incompleteSender, w)
  else
    match senderOf messageInfo with
    | Some (JStr sender) =>
        '(incomingMessageText, isText) ← Second.extractIncoming messageInfo;
        if isStub messageInfo
        then
          templateLiteral [prop messageInfo "messageStubType"; senderOf messageInfo;
                           stubParamsOf messageInfo];;
          Ok (Second.systemMessage, w)
        else
          match incomingMessageText with
          | Some text =>
              if isText && truthyValue text
              then
                w' ← Second.processText env sender (sanitize sender) text w;
                Ok (Second.success, w')
              else Ok (Second.success, w)
          | None => Ok (Second.success, w)
          end
    | _ => Throw TypeError
    end.
Proof.
  intros Hups Hself. unfold Second.webhook_try.
  rewrite (upsertedMessage_not_null data messageInfo Hups), Hups.
  unfold selfOriginated in Hself. rewrite Hself. reflexivity.
Qed.

Lemma first_save_files env k history w :
  files (First.saveConversationHistory env k history w) =
  if fs_fault env (conversationPath k) then files w
  else <[conversationPath k := JsonText (JArr history)]> (files w).
Proof.
  unfold First.saveConversationHistory, fs_writeFile.
  destruct (fs_fault env (conversationPath k)); reflexivity.
Qed.

Lemma second_save_files env k history w :
  files (Second.saveConversationHistory env k history w) =
  if fs_fault env (conversationPath k) then files w
  else <[conversationPath k := JsonText (JArr history)]> (files w).
Proof.
  unfold Second.saveConversationHistory, fs_writeFile.
  destruct (fs_fault env (conversationPath k)); reflexivity.
Qed.

Lemma first_load_files env w1 w2 k :
  files w1 = files w2 ->
  First.loadConversationHistory env w1 k = First.loadConversationHistory env w2 k.
Proof.
  intros H. unfold First.loadConversationHistory, First.loadConversationHistory_try,
    fs_readFile. by rewrite H.
Qed.

Lemma second_load_files env w1 w2 k :
  files w1 = files w2 ->
  Second.loadConversationHistory env w1 k = Second.loadConversationHistory env w2 k.
Proof.
  intros H. unfold Second.loadConversationHistory, Second.loadConversationHistory_try,
    fs_readFile. by rewrite H.
Qed.

Lemma nonEmpty_true (s : jsstring) : s <> [] -> nonEmpty s = true.
Proof. intros H. unfold nonEmpty. by rewrite bool_decide_eq_false_2. Qed.

Lemma nonEmpty_false (s : jsstring) : nonEmpty s = false -> s = [].
Proof.
  unfold nonEmpty. intros H. apply negb_false_iff, bool_decide_eq_true in H. exact H.
Qed.

(** The text branch: the log line throws on a text that does not
    convert to a string; an empty reply ends the branch; otherwise the
    chunks of the reply are delivered and the array, as the Gemini
    client left it, is saved with the two turns pushed onto it. *)
Lemma first_processText_cases env sender key text w :
  let history := First.loadConversationHistory env w key in
  let reply := fst (First.getGeminiResponse env text history) in
  let array := snd (First.getGeminiResponse env text history) in
  First.processText env sender key text w =
  if toStringThrows text then Throw TypeError
  else if nonEmpty reply
  then Ok (First.saveConversationHistory env key
             (array ++ [turnWithTextPart "user" text; turnWithTextPart "model" (JStr reply)])
             (First.deliveryLoop env sender (splitMessageDefault reply) w))
  else Ok w.
Proof.
  cbv zeta. unfold First.processText. rewrite templateLiteral_text.
  by destruct (toStringThrows text).
Qed.

Lemma second_processText_cases env sender key text w :
  let history := Second.loadConversationHistory env w key in
  let reply := fst (Second.getGeminiResponse env text history) in
  let array := snd (Second.getGeminiResponse env text history) in
  Second.processText env sender key text w =
  if toStringThrows text then Throw TypeError
  else if nonEmpty reply
  then Ok (Second.saveConversationHistory env key
             (array ++ [turnWithPlainPart "user" text; turnWithPlainPart "model" (JStr reply)])
             (First.deliveryLoop env sender (splitMessageDefault reply) w))
  else Ok w.
Proof.
  cbv zeta. unfold Second.processText. rewrite templateLiteral_text.
  rewrite (second_deliveryLoop_first env sender _ w).
  by destruct (toStringThrows text).
Qed.






(** Every delivery failed, and the conversation was saved all the same. *)
Example webhook_saves_despite_failed_delivery :
  let env := envWith "Hello! How can I help?" allPostsFail in
  let w := snd (First.webhook env (upsert textMessageInfo) emptyWorld) in
  effects w = [textPost (js "60123456789@s.whatsapp.net") (js "Hello! How can I help?") false] /\
  files w !! conversationPath (js "60123456789_s_whatsapp_net")
  = Some (JsonText (JArr [turnWithTextPart "user" (JStr (js "hello"));
                          turnWithTextPart "model" (JStr (js "Hello! How can I help?"))])).
Proof. split; vm_compute; reflexivity. Qed.

Lemma expectedTypes_parts messageInfo :
  expectedTypes messageInfo = true ->
  (truthy (senderOf messageInfo) = true ->
   exists sender, senderOf messageInfo = Some (JStr sender)) /\
  printable (senderOf messageInfo) = true /\
  (exists r, Second.extractIncoming messageInfo = Ok r) /\
  printable (prop messageInfo "messageStubType") = true /\
  printable (stubParamsOf messageInfo) = true /\
  printable (propOf (prop messageInfo "message") "conversation") = true /\
  printable (propOf (propOf (prop messageInfo "message") "extendedTextMessage") "text")
    = true.
Proof.
  unfold expectedTypes. intros H.
  repeat (apply andb_true_iff in H as [H ?]).
  split; [|split; [|split; [|split; [|split; [|split]]]]]; try assumption.
  - intros Ht. destruct (senderOf messageInfo) as [v|]; [|discriminate].
    destruct v as [| | |s| |]; simpl in *; try congruence.
    + rewrite Ht in H. discriminate.
    + rewrite Ht in H. discriminate.
    + by exists s.
  - destruct (senderOf messageInfo) as [v|]; [|done].
    destruct v; try done; apply negb_true_iff in H; unfold printable; simpl;
      by rewrite (falsy_printable _ H).
  - unfold Second.extractIncoming.
    destruct (prop messageInfo "message") as [v|]; [|by eexists].
    destruct (truthyValue v) eqn:Ht; [|by eexists].
    destruct v as [| | | |items|props]; simpl in *; try discriminate.
    + destruct (truthy (propOf (prop (JArr items) "extendedTextMessage") "text")); by eexists.
    + destruct (bool_decide (is_Some (lookupProp (js "conversation") props))); [by eexists|].
      destruct (truthy (propOf (lookupProp (js "extendedTextMessage") props) "text"));
        by eexists.
  - unfold stubParamsOf.
    by destruct (truthy (prop messageInfo "messageStubParameters")).
Qed.

(** The text that the handlers extract is one of the two fields. *)
Lemma first_extractIncoming_text messageInfo text isText :
  First.extractIncoming messageInfo = (Some text, isText) ->
  Some text = propOf (prop messageInfo "message") "conversation" \/
  Some text = propOf (propOf (prop messageInfo "message") "extendedTextMessage") "text".
Proof.
  unfold First.extractIncoming.
  destruct (prop messageInfo "message") as [m|]; [|discriminate]. cbn [propOf].
  destruct (truthyValue m); [|discriminate].
  destruct (truthy (prop m "conversation")); [intros [= <- _]; by left|].
  destruct (truthy (prop m "extendedTextMessage") &&
            truthy (propOf (prop m "extendedTextMessage") "text")); [|discriminate].
  intros [= <- _]. by right.
Qed.

Lemma second_extractIncoming_text messageInfo text isText :
  Second.extractIncoming messageInfo = Ok (Some text, isText) ->
  Some text = propOf (prop messageInfo "message") "conversation" \/
  Some text = propOf (propOf (prop messageInfo "message") "extendedTextMessage") "text".
Proof.
  unfold Second.extractIncoming.
  destruct (prop messageInfo "message") as [m|]; [|discriminate]. cbn [propOf].
  destruct (truthyValue m); [|discriminate].
  destruct (hasProp "conversation" m) as [[|]|e]; [| |discriminate].
  - intros [= <- _]. by left.
  - destruct (truthy (propOf (prop m "extendedTextMessage") "text")); [|discriminate].
    intros [= <- _]. by right.
Qed.

Lemma printable_text text (o1 o2 : option json) :
  printable o1 = true -> printable o2 = true ->
  Some text = o1 \/ Some text = o2 -> toStringThrows text = false.
Proof.
  unfold printable. intros H1 H2 [<-|<-]; simpl in *; by apply negb_true_iff.
Qed.

Lemma first_processText_ok env sender key text w :
  toStringThrows text = false ->
  exists w', First.processText env sender key text w = Ok w'.
Proof.
  intros H. rewrite first_processText_cases, H.
  destruct (nonEmpty _); by eexists.
Qed.

Lemma second_processText_ok env sender key text w :
  toStringThrows text = false ->
  exists w', Second.processText env sender key text w = Ok w'.
Proof.
  intros H. rewrite second_processText_cases, H.
  destruct (nonEmpty _); by eexists.
Qed.

Lemma first_webhook_status env data w messageInfo :
  upsertedMessage data = Some messageInfo ->
  selfOriginated messageInfo = false ->
  expectedTypes messageInfo = true ->
  res_status (fst (First.webhook env data w)) <> 200 ->
  truthy (senderOf messageInfo) = false /\
  First.webhook env data w = (First.incompleteSender, w).
Proof.
  intros Hups Hself Htypes.
  destruct (expectedTypes_parts messageInfo Htypes)
    as (Hstr & Hps & _ & Hpt & Hpp & Hpc & Hpe).
  unfold First.webhook.
  rewrite (first_webhook_try_upsert env data w messageInfo Hups Hself).
  destruct (First.extractIncoming messageInfo) as [incoming isText] eqn:Hin.
  destruct (isStub messageInfo).
  { rewrite (templateLiteral_stub _ _ _ Hpt Hps Hpp). simpl. done. }
  destruct (truthy (senderOf messageInfo)) eqn:Ht; [|done].
  destruct (Hstr eq_refl) as [sender ->].
  cbn [negb].
  destruct incoming as [text|]; [|simpl; done].
  destruct (isText && truthyValue text); [|simpl; done].
  assert (Hprint : toStringThrows text = false).
  { eapply printable_text; [exact Hpc|exact Hpe|].
    by eapply first_extractIncoming_text. }
  destruct (first_processText_ok env sender (sanitize sender) text w Hprint) as [w' ->].
  simpl. done.
Qed.

Lemma second_webhook_status env data w messageInfo :
  upsertedMessage data = Some messageInfo ->
  selfOriginated messageInfo = false ->
  expectedTypes messageInfo = true ->
  res_status (fst (Second.webhook env data w)) <> 200 ->
  truthy (senderOf messageInfo) = false /\
  Second.webhook env data w = (Second.incompleteSender, w).
Proof.
  intros Hups Hself Htypes.
  destruct (expectedTypes_parts messageInfo Htypes)
    as (Hstr & Hps & [[incoming isText] Hin] & Hpt & Hpp & Hpc & Hpe).
  unfold Second.webhook.
  rewrite (second_webhook_try_upsert env data w messageInfo Hups Hself).
  destruct (truthy (senderOf messageInfo)) eqn:Ht; [|done].
  destruct (Hstr eq_refl) as [sender Hs]. rewrite Hs in *.
  rewrite Hin. cbn [negb mbind Result_bind].
  destruct (isStub messageInfo).
  { rewrite (templateLiteral_stub _ _ _ Hpt Hps Hpp). simpl. done. }
  destruct incoming as [text|]; [|simpl; done].
  destruct (isText && truthyValue text); [|simpl; done].
  assert (Hprint : toStringThrows text = false).
  { eapply printable_text; [exact Hpc|exact Hpe|].
    by eapply second_extractIncoming_text. }
  destruct (second_processText_ok env sender (sanitize sender) text w Hprint) as [w' ->].
  simpl. done.
Qed.

(** C4, as stated, fails: a "new message" event that is not
    self-originated and whose sender identifier is present, but is the
    number 5 and not a string, is answered with status 500 by both
    variants ([senderNumber.replace] throws and the catch-all handler
    answers): the absent sender is not the only event shape with a
    non-success status. *)
Lemma webhook_non_success_counterexample :
  upsertedMessage (upsert numericSenderInfo) = Some numericSenderInfo /\
  selfOriginated numericSenderInfo = false /\
  truthy (senderOf numericSenderInfo) = true /\
  First.webhook (envWith "x" allPostsFail) (upsert numericSenderInfo) emptyWorld
    = (First.internalError, emptyWorld) /\
  Second.webhook (envWith "x" allPostsFail) (upsert numericSenderInfo) emptyWorld
    = (Second.internalError, emptyWorld) /\
  res_status First.internalError = 500 /\ res_status Second.internalError = 500.
Proof. repeat split. Qed.

(** The two variants order the stub test and the sender test
    differently: on a stub notification without sender the first
    variant answers "System message processed", the second "Incomplete
    sender data". *)
Example webhook_stub_without_sender :
  First.webhook (envWith "x" allPostsFail) (upsert stubWithoutSenderInfo) emptyWorld
    = (First.systemMessage, emptyWorld) /\
  Second.webhook (envWith "x" allPostsFail) (upsert stubWithoutSenderInfo) emptyWorld
    = (Second.incompleteSender, emptyWorld).
Proof. split; reflexivity. Qed.

(** A field that a log line cannot convert to a string is answered 500:
    a text that is an object with a property [toString], and stub
    parameters that hold such an object.  A message that is a string
    is ignored by the first variant and answered 500 by the second. *)
Example webhook_unprintable_fields :
  let env := envWith "x" (fun _ _ => true) in
  First.webhook env (upsert unprintableTextInfo) emptyWorld
    = (First.internalError, emptyWorld) /\
  Second.webhook env (upsert unprintableTextInfo) emptyWorld
    = (Second.internalError, emptyWorld) /\
  First.webhook env (upsert unprintableStubInfo) emptyWorld
    = (First.internalError, emptyWorld) /\
  Second.webhook env (upsert unprintableStubInfo) emptyWorld
    = (Second.internalError, emptyWorld) /\
  First.webhook env (upsert stringMessageInfo) emptyWorld = (First.success, emptyWorld) /\
  Second.webhook env (upsert stringMessageInfo) emptyWorld
    = (Second.internalError, emptyWorld).
Proof. repeat split. Qed.

(** C4 (amended): for every "new message" event that is not
    self-originated.  When the sender identifier is absent, the second
    variant answers 400 "Incomplete sender data" before it looks at the
    stub type, and the first variant does so when the event carries no
    stub type; nothing else happens.  A stub notification with a sender
    and fields of the expected types is acknowledged with success and
    nothing else happens.  When the fields have their expected types
    (the sender identifier a string, the message an object or array,
    the logged fields convertible to strings), the answer for an absent
    sender is the only one whose status is not 200.  And a sender
    identifier that is present but not a string is answered 500 by the
    second variant, and by the first variant when the event carries no
    stub type; nothing else happens. *)
Theorem webhook_sender_and_stub env data w messageInfo :
  upsertedMessage data = Some messageInfo ->
  selfOriginated messageInfo = false ->
  (truthy (senderOf messageInfo) = false ->
     Second.webhook env data w = (Second.incompleteSender, w) /\
     (isStub messageInfo = false ->
      First.webhook env data w = (First.incompleteSender, w))) /\
  (isStub messageInfo = true ->
   expectedTypes messageInfo = true ->
   truthy (senderOf messageInfo) = true ->
     First.webhook env data w = (First.systemMessage, w) /\
     Second.webhook env data w = (Second.systemMessage, w)) /\
  (expectedTypes messageInfo = true ->
     (res_status (fst (First.webhook env data w)) <> 200 ->
      truthy (senderOf messageInfo) = false /\
      First.webhook env data w = (First.incompleteSender, w)) /\
     (res_status (fst (Second.webhook env data w)) <> 200 ->
      truthy (senderOf messageInfo) = false /\
      Second.webhook env data w = (Second.incompleteSender, w))) /\
  (truthy (senderOf messageInfo) = true ->
   (forall sender, senderOf messageInfo <> Some (JStr sender)) ->
     Second.webhook env data w = (Second.internalError, w) /\
     (isStub messageInfo = false ->
      First.webhook env data w = (First.internalError, w))).
Proof.
  intros Hups Hself. split; [|split; [|split]].
  - intros Habsent. split.
    + unfold Second.webhook.
      rewrite (second_webhook_try_upsert env data w messageInfo Hups Hself), Habsent.
      reflexivity.
    + intros Hstub. unfold First.webhook.
      rewrite (first_webhook_try_upsert env data w messageInfo Hups Hself).
      destruct (First.extractIncoming messageInfo) as [incoming isText].
      rewrite Hstub, Habsent. reflexivity.
  - intros Hstub Htypes Hpresent.
    destruct (expectedTypes_parts messageInfo Htypes)
      as (Hstr & Hps & [[incoming isText] Hin] & Hpt & Hpp & _).
    split.
    + unfold First.webhook.
      rewrite (first_webhook_try_upsert env data w messageInfo Hups Hself).
      destruct (First.extractIncoming messageInfo) as [incoming' isText'].
      rewrite Hstub, (templateLiteral_stub _ _ _ Hpt Hps Hpp). reflexivity.
    + unfold Second.webhook.
      rewrite (second_webhook_try_upsert env data w messageInfo Hups Hself), Hpresent.
      destruct (Hstr Hpresent) as [sender Hs]. rewrite Hs in *.
      rewrite Hin. cbn [negb mbind Result_bind].
      rewrite Hstub, (templateLiteral_stub _ _ _ Hpt Hps Hpp). reflexivity.
  - intros Htypes. split.
    + by apply first_webhook_status.
    + by apply second_webhook_status.
  - intros Hpresent Hnot. split.
    + unfold Second.webhook.
      rewrite (second_webhook_try_upsert env data w messageInfo Hups Hself), Hpresent.
      cbn [negb].
      destruct (senderOf messageInfo) as [[| | |sender| |]|]; try reflexivity.
      by destruct (Hnot sender).
    + intros Hstub. unfold First.webhook.
      rewrite (first_webhook_try_upsert env data w messageInfo Hups Hself).
      destruct (First.extractIncoming messageInfo) as [incoming isText].
      rewrite Hstub, Hpresent. cbn [negb].
      destruct (senderOf messageInfo) as [[| | |sender| |]|]; try reflexivity.
      by destruct (Hnot sender).
Qed.

Lemma webhook_sender_and_stub_witness :
  let env := envWith "x" allPostsFail in
  (upsertedMessage (upsert noSenderInfo) = Some noSenderInfo /\
   selfOriginated noSenderInfo = false /\
   truthy (senderOf noSenderInfo) = false /\
   Second.webhook env (upsert noSenderInfo) emptyWorld
     = (Second.incompleteSender, emptyWorld)) /\
  (upsertedMessage (upsert stubInfo) = Some stubInfo /\
   selfOriginated stubInfo = false /\
   isStub stubInfo = true /\ expectedTypes stubInfo = true /\
   truthy (senderOf stubInfo) = true /\
   First.webhook env (upsert stubInfo) emptyWorld = (First.systemMessage, emptyWorld)).
Proof.
  intros env.
  assert (H1 : upsertedMessage (upsert noSenderInfo) = Some noSenderInfo) by reflexivity.
  assert (H2 : selfOriginated noSenderInfo = false) by reflexivity.
  assert (H3 : truthy (senderOf noSenderInfo) = false) by reflexivity.
  assert (H4 : upsertedMessage (upsert stubInfo) = Some stubInfo) by reflexivity.
  assert (H5 : selfOriginated stubInfo = false) by reflexivity.
  assert (H6 : isStub stubInfo = true) by reflexivity.
  assert (H7 : expectedTypes stubInfo = true) by reflexivity.
  assert (H8 : truthy (senderOf stubInfo) = true) by reflexivity.
  split.
  - split; [exact H1|]. split; [exact H2|]. split; [exact H3|].
    exact (proj1 (proj1
      (webhook_sender_and_stub env (upsert noSenderInfo) emptyWorld noSenderInfo H1 H2) H3)).
  - split; [exact H4|]. split; [exact H5|]. split; [exact H6|]. split; [exact H7|].
    split; [exact H8|].
    exact (proj1 (proj1 (proj2
      (webhook_sender_and_stub env (upsert stubInfo) emptyWorld stubInfo H4 H5)) H6 H7 H8)).
Defined.

(** A stub notification with a sender: acknowledged by both variants. *)
Example webhook_stub_with_sender :
  First.webhook (envWith "x" allPostsFail) (upsert stubInfo) emptyWorld
    = (First.systemMessage, emptyWorld) /\
  Second.webhook (envWith "x" allPostsFail) (upsert stubInfo) emptyWorld
    = (Second.systemMessage, emptyWorld).
Proof. split; reflexivity. Qed.

(* ================================================================== *)
(** * Further properties *)
(* ================================================================== *)

Lemma groupsOf_length n (l : list jsstring) f :
  (1 <= n)%nat -> (length l <= f)%nat ->
  Z.of_nat (length (groupsOf f n l)) = (Z.of_nat (length l) + Z.of_nat n - 1) / Z.of_nat n.
Proof.
  intros Hn. revert l. induction f as [|f IH]; intros l Hf.
  - destruct l; [|simpl in Hf; lia]. simpl. symmetry. apply Z.div_small. lia.
  - destruct l as [|x l]; [simpl; symmetry; apply Z.div_small; lia|].
    cbn [groupsOf length] in *.
    rewrite Nat2Z.inj_succ, IH by (rewrite length_drop; cbn [length]; lia).
    rewrite length_drop. cbn [length]. rewrite Nat2Z.inj_sub_max, Nat2Z.inj_succ.
    set (a := Z.of_nat (length l)). set (N := Z.of_nat n).
    assert (Ha : 0 <= a) by (unfold a; lia). assert (HN : 1 <= N) by (unfold N; lia).
    replace (Z.succ a + N - 1) with (a + 1 * N) by lia.
    rewrite Z.div_add by lia.
    destruct (Z.le_gt_cases (Z.succ a) N) as [Hle|Hgt].
    + rewrite Z.max_l by lia. rewrite !Z.div_small by lia. reflexivity.
    + rewrite Z.max_r by lia. replace (Z.succ a - N + N - 1) with a by lia. lia.
Qed.

Lemma inGroupsOf_concat n (l : list jsstring) :
  (1 <= n)%nat -> concat (inGroupsOf n l) = l.
Proof.
  intros Hn. unfold inGroupsOf.
  assert (H : forall f l, (length l <= f)%nat -> concat (groupsOf f n l) = l).
  { clear l. induction f as [|f IH]; intros l Hf.
    - destruct l; [done|simpl in Hf; lia].
    - destruct l as [|x l]; [done|]. cbn [groupsOf concat].
      rewrite IH by (rewrite length_drop; cbn [length] in *; lia).
      apply take_drop. }
  by apply H.
Qed.

(** X1: for [maxLines >= 1], [splitMessage] is the wrapping step followed
    by a cut into consecutive groups of [maxLines] lines, each group
    joined by line feeds: every chunk but the last holds exactly
    [maxLines] lines, and the number of chunks is the number of wrapped
    lines divided by [maxLines], rounded up. *)
Theorem splitMessage_wrap_then_group text ml mc :
  1 <= ml ->
  let lines := wrappedLines mc text in
  splitMessage text ml mc = map (join NL) (inGroupsOf (Z.to_nat ml) lines) /\
  concat (inGroupsOf (Z.to_nat ml) lines) = lines /\
  Z.of_nat (length (splitMessage text ml mc))
    = (Z.of_nat (length lines) + ml - 1) / ml.
Proof.
  intros Hml lines. split; [by apply splitMessage_as_groups|].
  split; [apply inGroupsOf_concat; lia|].
  rewrite splitMessage_as_groups by done. rewrite length_map.
  unfold inGroupsOf. rewrite groupsOf_length by lia.
  rewrite Z2Nat.id by lia. reflexivity.
Qed.

Lemma splitMessage_wrap_then_group_witness :
  1 <= 3 /\
  splitMessage marked_reply 3 100
  = map (join NL) (inGroupsOf (Z.to_nat 3) (wrappedLines 100 marked_reply)) /\
  Z.of_nat (length (splitMessage marked_reply 3 100)) = 2.
Proof.
  assert (H : 1 <= 3) by lia.
  destruct (splitMessage_wrap_then_group marked_reply 3 100 H) as (H1 & _ & H3).
  split; [exact H|]. split; [exact H1|]. rewrite H3. vm_compute. reflexivity.
Defined.

Lemma filter_visible_join sep (ls : list jsstring) :
  Forall (fun c => ~ visible c) sep ->
  filter visible (join sep ls) = filter visible (concat ls).
Proof.
  intros Hsep.
  assert (Hs : filter visible sep = []).
  { induction Hsep as [|c sep Hc _ IH]; [done|]. rewrite filter_cons_False by exact Hc. exact IH. }
  induction ls as [|l ls IH]; [done|].
  destruct ls as [|l' ls].
  - simpl. by rewrite app_nil_r.
  - change (join sep (l :: l' :: ls)) with (l ++ sep ++ join sep (l' :: ls)).
    rewrite !filter_app, Hs, IH. cbn [concat app]. rewrite !filter_app. reflexivity.
Qed.

Lemma not_visible_space : Forall (fun c => ~ visible c) SP.
Proof. constructor; [|constructor]. intros [H _]. done. Qed.

Lemma not_visible_newline : Forall (fun c => ~ visible c) NL.
Proof. constructor; [|constructor]. intros [_ H]. done. Qed.

Lemma paragraphLines_visible mc (p : jsstring) :
  filter visible (concat (paragraphLines mc p)) = filter visible p.
Proof.
  rewrite <- (filter_visible_join SP) by apply not_visible_space.
  destruct (paragraphLines_join mc p) as [->| ->]; [done|].
  rewrite filter_cons_False; [done|]. intros [H _]. by apply H.
Qed.

Lemma wrappedLines_visible mc (text : jsstring) :
  filter visible (concat (wrappedLines mc text))
  = filter visible (concat (split MARKER text)).
Proof.
  unfold wrappedLines.
  induction (split MARKER text) as [|p ps IH]; [done|].
  simpl. rewrite concat_app, !filter_app, IH, paragraphLines_visible. done.
Qed.

(** X2: for every text and all parameters, the code units of the chunks
    other than blanks and line feeds are, in order, those of the
    paragraphs of the text: chunking and wrapping drop nothing,
    duplicate nothing and reorder nothing; they only replace markers
    and some blanks by line feeds or chunk boundaries. *)
Theorem splitMessage_keeps_content text ml mc :
  filter visible (concat (splitMessage text ml mc))
  = filter visible (concat (split MARKER text)).
Proof.
  destruct (splitMessage_groups text ml mc) as (gs & -> & Hcat & _).
  rewrite <- (wrappedLines_visible mc text), <- Hcat.
  clear Hcat. induction gs as [|g gs IH]; [done|].
  cbn [map concat]. rewrite concat_app, !filter_app, IH.
  rewrite (filter_visible_join NL) by apply not_visible_newline. reflexivity.
Qed.

Lemma paragraphLines_not_nil mc (p : jsstring) : paragraphLines mc p <> [].
Proof.
  unfold paragraphLines. destruct (len p <=? mc); [done|].
  pose proof (splitFrom_not_nil SP 0 p) as Hne. fold (split SP p) in Hne.
  destruct (split SP p) as [|w ws]; [done|]. simpl.
  destruct (0 + len w + 1 <=? mc); [|done].
  by destruct (wrapWords_join mc ws [w] (0 + len w + 1)).
Qed.

Lemma wrappedLines_not_nil mc (text : jsstring) : wrappedLines mc text <> [].
Proof.
  unfold wrappedLines.
  pose proof (splitFrom_not_nil MARKER 0 text) as Hne. fold (split MARKER text) in Hne.
  destruct (split MARKER text) as [|p ps]; [done|]. simpl.
  intros H. apply app_eq_nil in H as [Hp _].
  by apply paragraphLines_not_nil in Hp.
Qed.

Lemma fold_pushLine_no_room ml ls st :
  ml <= 0 -> 0 <= currentLineCount st -> ls <> [] ->
  (let st' := fold_left (pushLine ml) ls st in
   match currentChunk st' with
   | [] => chunks st'
   | _ :: _ => chunks st' ++ [join NL (currentChunk st')]
   end)
  = chunks st ++ [join NL (currentChunk st)] ++ ls.
Proof.
  intros Hml. revert st. induction ls as [|l ls IH]; intros st Hcount Hne; [done|].
  cbv zeta. cbn [fold_left]. rewrite (pushLine_cases ml st l).
  destruct (Z.geb_spec (currentLineCount st) ml) as [_|Hlt]; [|lia].
  destruct ls as [|l' ls].
  - simpl. by rewrite <- app_assoc.
  - cbv zeta in IH. rewrite IH; [|simpl; lia|done].
    simpl. by rewrite <- app_assoc.
Qed.

Lemma splitMessage_no_room text ml mc :
  ml <= 0 -> splitMessage text ml mc = [] :: wrappedLines mc text.
Proof.
  intros Hml. unfold splitMessage. rewrite fold_paragraphStep_lines.
  fold (wrappedLines mc text).
  apply (fold_pushLine_no_room ml (wrappedLines mc text) (mkChunkState [] [] 0) Hml);
    [simpl; lia|apply wrappedLines_not_nil].
Qed.

(** X3: [splitMessage] returns at least one chunk for every text, the
    empty string included.  For [maxLines >= 1] the chunks are the joins
    of groups of lines which, put end to end, are the lines of the
    wrapping step, each group holding between one and [maxLines] lines:
    there are never more chunks than lines.  For [maxLines <= 0] an
    empty chunk comes first and every line is a chunk of its own. *)
Theorem splitMessage_not_empty text ml mc :
  splitMessage text ml mc <> [] /\
  (1 <= ml -> exists gs : list (list jsstring),
      splitMessage text ml mc = map (join NL) gs /\
      concat gs = wrappedLines mc text /\
      Forall (group_ok ml) gs) /\
  (ml <= 0 -> splitMessage text ml mc = [] :: wrappedLines mc text).
Proof.
  destruct (splitMessage_groups text ml mc) as (gs & Heq & Hcat & Hok).
  split; [|split].
  - rewrite Heq. intros Hnil. apply map_eq_nil in Hnil. subst gs.
    symmetry in Hcat. by apply wrappedLines_not_nil in Hcat.
  - intros Hml. exists gs. split; [done|]. split; [done|by apply Hok].
  - apply splitMessage_no_room.
Qed.

Lemma splitMessage_not_empty_witness :
  1 <= 3 /\
  exists gs : list (list jsstring),
    splitMessage marked_reply 3 100 = map (join NL) gs /\
    concat gs = wrappedLines 100 marked_reply /\
    Forall (group_ok 3) gs.
Proof.
  assert (H : 1 <= 3) by lia.
  split; [exact H|].
  exact (proj1 (proj2 (splitMessage_not_empty marked_reply 3 100)) H).
Defined.

(** [path.join] of a directory name and a file name, neither of which
    holds a separator or is ["."] or [".."], is the two joined by a
    separator. *)
Lemma path_join_plain (dir file : jsstring) :
  dir <> [] -> file <> [] -> SLASH ∉ dir -> SLASH ∉ file ->
  dir <> js "." -> dir <> js ".." -> file <> js "." -> file <> js ".." ->
  path_join dir file = dir ++ [SLASH] ++ file.
Proof.
  intros Hd Hf Hsd Hsf Hd1 Hd2 Hf1 Hf2.
  assert (Hsplit : split [SLASH] (dir ++ [SLASH] ++ file) = [dir; file]).
  { cbn [app]. rewrite split_single_app by done.
    by rewrite (split_single_free SLASH file Hsf). }
  assert (Hlast : last (dir ++ [SLASH] ++ file) <> Some SLASH).
  { rewrite app_assoc, last_app.
    destruct (last file) as [x|] eqn:E; [|by apply last_None in E].
    intros [= ->]. apply Hsf. by apply last_Some_elem_of. }
  destruct dir as [|d dir'] eqn:Edir; [done|].
  destruct file as [|c file'] eqn:Efile; [done|].
  rewrite <- Edir, <- Efile in *. unfold path_join. rewrite Edir at 1. rewrite Efile at 1.
  cbv iota beta.
  assert (Habs : (d =? SLASH)%N = false).
  { apply N.eqb_neq. intros ->. apply Hsd. rewrite Edir. left. }
  unfold path_normalize. rewrite Hsplit.
  rewrite (bool_decide_eq_false_2 _ Hlast).
  rewrite Edir at 1. cbn [app]. rewrite Habs. cbn [negb normalizeSegments].
  rewrite (bool_decide_eq_false_2 (dir = [])) by (by rewrite Edir).
  rewrite (bool_decide_eq_false_2 _ Hd1), (bool_decide_eq_false_2 _ Hd2).
  cbn [orb app last].
  rewrite (bool_decide_eq_false_2 (file = [])) by (by rewrite Efile).
  rewrite (bool_decide_eq_false_2 _ Hf1), (bool_decide_eq_false_2 _ Hf2).
  cbn [orb app join]. rewrite Edir at 1. cbn [app]. by rewrite Edir.
Qed.

Lemma conversationPath_plain (userId : jsstring) :
  SLASH ∉ userId ->
  conversationPath userId = js "conversations/" ++ userId ++ js ".json".
Proof.
  intros Hfree. unfold conversationPath, CONVERSATIONS_DIR.
  assert (Hlen : forall short : jsstring,
            (length short < 5)%nat -> userId ++ js ".json" <> short).
  { intros short Hshort H. apply (f_equal length) in H.
    rewrite length_app in H. simpl in H. lia. }
  rewrite path_join_plain; try done; try (apply Hlen; simpl; lia).
  - apply (bool_decide_unpack _). vm_compute. exact I.
  - intros H. apply elem_of_app in H as [H|H]; [done|].
    revert H. apply (bool_decide_unpack _). vm_compute. exact I.
Qed.

Lemma conversationPath_inj k1 k2 :
  SLASH ∉ k1 -> SLASH ∉ k2 -> conversationPath k1 = conversationPath k2 -> k1 = k2.
Proof.
  intros H1 H2. rewrite !conversationPath_plain by done. intros H.
  apply app_inv_head in H. by apply app_inv_tail in H.
Qed.


Lemma first_load_lookup env w1 w2 k :
  files w1 !! conversationPath k = files w2 !! conversationPath k ->
  First.loadConversationHistory env w1 k = First.loadConversationHistory env w2 k.
Proof.
  intros H. unfold First.loadConversationHistory, First.loadConversationHistory_try,
    fs_readFile. by rewrite H.
Qed.

Lemma second_load_lookup env w1 w2 k :
  files w1 !! conversationPath k = files w2 !! conversationPath k ->
  Second.loadConversationHistory env w1 k = Second.loadConversationHistory env w2 k.
Proof.
  intros H. unfold Second.loadConversationHistory, Second.loadConversationHistory_try,
    fs_readFile. by rewrite H.
Qed.

Lemma first_save_other env k history w path :
  path <> conversationPath k ->
  files (First.saveConversationHistory env k history w) !! path = files w !! path.
Proof.
  intros Hne. rewrite first_save_files.
  destruct (fs_fault env (conversationPath k)); [done|]. by rewrite lookup_insert_ne.
Qed.

Lemma second_save_other env k history w path :
  path <> conversationPath k ->
  files (Second.saveConversationHistory env k history w) !! path = files w !! path.
Proof.
  intros Hne. rewrite second_save_files.
  destruct (fs_fault env (conversationPath k)); [done|]. by rewrite lookup_insert_ne.
Qed.

(** X4: for user ids without path separator, as the storage keys of the
    handlers are, saving the conversation of one id does not change
    what a load returns for any other id, in both variants. *)
Theorem save_leaves_other_keys env w k k' history :
  SLASH ∉ k -> SLASH ∉ k' -> k <> k' ->
  First.loadConversationHistory env (First.saveConversationHistory env k history w) k'
    = First.loadConversationHistory env w k' /\
  Second.loadConversationHistory env (Second.saveConversationHistory env k history w) k'
    = Second.loadConversationHistory env w k'.
Proof.
  intros Hk Hk' Hne.
  assert (Hp : conversationPath k' <> conversationPath k).
  { intros H. apply conversationPath_inj in H; [congruence|done|done]. }
  split.
  - apply first_load_lookup. by apply first_save_other.
  - apply second_load_lookup. by apply second_save_other.
Qed.

Lemma save_leaves_other_keys_witness :
  (SLASH ∉ js "u1") /\ (SLASH ∉ js "u2") /\ js "u1" <> js "u2" /\
  First.loadConversationHistory (envWith "hi" allPostsFail)
    (First.saveConversationHistory (envWith "hi" allPostsFail) (js "u1")
       [First.userTurn (JStr (js "a")); First.modelTurn (js "b")] emptyWorld) (js "u2")
  = First.loadConversationHistory (envWith "hi" allPostsFail) emptyWorld (js "u2").
Proof.
  assert (H1 : SLASH ∉ js "u1") by (apply (bool_decide_unpack _); vm_compute; exact I).
  assert (H2 : SLASH ∉ js "u2") by (apply (bool_decide_unpack _); vm_compute; exact I).
  assert (H : js "u1" <> js "u2") by discriminate.
  split; [exact H1|]. split; [exact H2|]. split; [exact H|].
  exact (proj1 (save_leaves_other_keys (envWith "hi" allPostsFail) emptyWorld
                  (js "u1") (js "u2") _ H1 H2 H)).
Defined.

(** [path.join] normalizes: two ids that differ by a detour through
    another directory name one file, and a save under one is loaded
    under the other. *)
Example conversationPath_normalizes :
  conversationPath (js "x/../a") = conversationPath (js "a") /\
  conversationPath (js "../a") = js "a.json" /\
  First.loadConversationHistory (envWith "hi" allPostsFail)
    (First.saveConversationHistory (envWith "hi" allPostsFail) (js "x/../a")
       [First.modelTurn (js "b")] emptyWorld) (js "a")
  = [First.modelTurn (js "b")].
Proof. repeat split; vm_compute; reflexivity. Qed.

(** X5: a save replaces the whole record of its key: after two saves
    under the same key the world is the one the second save alone
    produces. *)
Theorem save_overwrites env w k h1 h2 :
  First.saveConversationHistory env k h2 (First.saveConversationHistory env k h1 w)
    = First.saveConversationHistory env k h2 w /\
  Second.saveConversationHistory env k h2 (Second.saveConversationHistory env k h1 w)
    = Second.saveConversationHistory env k h2 w.
Proof.
  unfold First.saveConversationHistory, Second.saveConversationHistory, fs_writeFile.
  destruct (fs_fault env (conversationPath k)) eqn:E; simpl; rewrite ?E; [done|].
  simpl. rewrite insert_insert_eq. done.
Qed.

(** X6: when access to the file of a key fails with an error other than
    "not found", a save leaves the world as it is and a load returns
    the empty conversation; neither raises. *)
Theorem store_absorbs_io_failure env w k history :
  fs_fault env (conversationPath k) = true ->
  First.saveConversationHistory env k history w = w /\
  Second.saveConversationHistory env k history w = w /\
  First.loadConversationHistory env w k = [] /\
  Second.loadConversationHistory env w k = [].
Proof.
  intros H.
  unfold First.saveConversationHistory, Second.saveConversationHistory, fs_writeFile,
    First.loadConversationHistory, First.loadConversationHistory_try,
    Second.loadConversationHistory, Second.loadConversationHistory_try, fs_readFile.
  rewrite H. done.
Qed.

Lemma store_absorbs_io_failure_witness :
  fs_fault faultyEnv (conversationPath (js "u1")) = true /\
  First.saveConversationHistory faultyEnv (js "u1") [First.modelTurn (js "b")] emptyWorld
  = emptyWorld.
Proof.
  assert (H : fs_fault faultyEnv (conversationPath (js "u1")) = true) by reflexivity.
  split; [exact H|].
  exact (proj1 (store_absorbs_io_failure faultyEnv emptyWorld (js "u1")
                  [First.modelTurn (js "b")] H)).
Defined.

(** X7: a readable record that holds an array of objects each carrying a
    role and parts is returned by the first variant's load as it is,
    in order; the second variant returns it when every role and parts
    value is truthy. *)
Theorem load_returns_stored_record env w k items :
  fs_fault env (conversationPath k) = false ->
  files w !! conversationPath k = Some (JsonText (JArr items)) ->
  (Forall carriesRoleAndParts items ->
     First.loadConversationHistory env w k = items) /\
  (Forall (fun item => truthy (prop item "role") = true /\ truthy (prop item "parts") = true)
          items ->
     Second.loadConversationHistory env w k = items).
Proof.
  intros Hok Hrec.
  unfold First.loadConversationHistory, First.loadConversationHistory_try,
    Second.loadConversationHistory, Second.loadConversationHistory_try, fs_readFile.
  rewrite Hok, Hrec. simpl. split; intros Hall.
  - assert (H : every First.isTurn items = Ok true).
    { apply every_Forall. eapply Forall_impl; [exact Hall|].
      intros item. apply first_isTurn_carries. }
    by rewrite H.
  - assert (H : every Second.isTurn items = Ok true).
    { apply every_Forall. eapply Forall_impl; [exact Hall|].
      intros item [H1 H2]. destruct item; simpl in *; try discriminate.
      by rewrite H1, H2. }
    by rewrite H.
Qed.

Lemma load_returns_stored_record_witness :
  let env := envWith "hi" allPostsFail in
  let items := [First.userTurn (JStr (js "a")); First.modelTurn (js "b")] in
  let w := mkWorld {[ conversationPath (js "u1") := JsonText (JArr items) ]} [] in
  fs_fault env (conversationPath (js "u1")) = false /\
  files w !! conversationPath (js "u1") = Some (JsonText (JArr items)) /\
  Forall carriesRoleAndParts items /\
  First.loadConversationHistory env w (js "u1") = items.
Proof.
  intros env items w.
  assert (H1 : fs_fault env (conversationPath (js "u1")) = false) by reflexivity.
  assert (H2 : files w !! conversationPath (js "u1") = Some (JsonText (JArr items))).
  { unfold w. simpl. apply lookup_singleton_eq. }
  assert (H3 : Forall carriesRoleAndParts items).
  { repeat constructor; eexists; (split; [reflexivity|]); split; by eexists. }
  split; [exact H1|]. split; [exact H2|]. split; [exact H3|].
  exact (proj1 (load_returns_stored_record env w (js "u1") items H1 H2) H3).
Defined.

(** X8: the validity check of the second variant is the stricter one:
    whatever the stored record, the second variant's load returns the
    empty conversation or exactly what the first variant's load
    returns. *)
Theorem second_load_is_stricter env w k :
  Second.loadConversationHistory env w k = [] \/
  Second.loadConversationHistory env w k = First.loadConversationHistory env w k.
Proof.
  unfold First.loadConversationHistory, First.loadConversationHistory_try,
    Second.loadConversationHistory, Second.loadConversationHistory_try.
  destruct (fs_readFile env w (conversationPath k)) as [[raw|v]|e]; simpl; try by left.
  destruct v as [| | | |items|]; try by left.
  destruct (every Second.isTurn items) as [[|]|e] eqn:E; try by left.
  right. apply every_Forall in E.
  assert (H : every First.isTurn items = Ok true).
  { apply every_Forall. eapply Forall_impl; [exact E|].
    intros item Hitem. apply first_isTurn_carries. by apply second_isTurn_carries. }
  by rewrite H.
Qed.

(** X9: the storage key [senderNumber.replace(/[^a-zA-Z0-9]/g, '_')]
    consists of letters, digits and underscores only, so it holds no
    slash, backslash or dot; it is as long as the sender identifier;
    sanitising twice changes nothing more; and an identifier of letters
    and digits is its own key. *)
Theorem sanitize_is_storage_safe (s : jsstring) :
  Forall (fun c => isAlphaNumeric c = true \/ c = UNDERSCORE) (sanitize s) /\
  Forall (fun c => c <> N_of_ascii "/"%char /\ c <> N_of_ascii "\"%char
                   /\ c <> N_of_ascii "."%char) (sanitize s) /\
  length (sanitize s) = length s /\
  sanitize (sanitize s) = sanitize s /\
  (Forall (fun c => isAlphaNumeric c = true) s -> sanitize s = s).
Proof.
  unfold sanitize. split; [|split; [|split; [|split]]].
  - apply Forall_map, Forall_forall. intros c _.
    destruct (isAlphaNumeric c) eqn:E; [by left|by right].
  - apply Forall_map, Forall_forall. intros c _.
    destruct (isAlphaNumeric c) eqn:E; [|done].
    repeat split; intros ->; discriminate.
  - apply length_map.
  - rewrite map_map. apply map_ext. intros c.
    destruct (isAlphaNumeric c) eqn:E; [by rewrite E|reflexivity].
  - intros Hall. induction Hall as [|c s Hc _ IH]; [done|].
    simpl. by rewrite Hc, IH.
Qed.

Lemma sanitize_is_storage_safe_witness :
  Forall (fun c => isAlphaNumeric c = true) (js "abc123") /\
  sanitize (js "abc123") = js "abc123".
Proof.
  assert (H : Forall (fun c => isAlphaNumeric c = true) (js "abc123")).
  { by repeat constructor. }
  split; [exact H|].
  exact (proj2 (proj2 (proj2 (proj2 (sanitize_is_storage_safe (js "abc123"))))) H).
Defined.

Lemma isPrefix_app (p rest : jsstring) : isPrefix p (p ++ rest) = true.
Proof. induction p as [|c p IH]; [done|]. simpl. by rewrite N.eqb_refl. Qed.

Lemma includes_app (n p rest : jsstring) : includes (n ++ p ++ rest) p = true.
Proof.
  induction n as [|c n IH].
  - simpl. destruct (p ++ rest) eqn:E; simpl; rewrite <- E, isPrefix_app; done.
  - simpl. rewrite IH. apply orb_true_r.
Qed.

(** X10: the recipient sent to the API is the part before the ['@'] for a
    sender identifier [n@s.whatsapp.net], and the identifier unchanged
    when it does not contain ['@s.whatsapp.net']. *)
Theorem formatRecipient_strips_suffix (r : jsstring) :
  (forall n, N_of_ascii "@"%char ∉ n ->
     r = n ++ js "@s.whatsapp.net" -> formatRecipient r = n) /\
  (includes r (js "@s.whatsapp.net") = false -> formatRecipient r = r).
Proof.
  split.
  - intros n Hn ->. unfold formatRecipient.
    assert (Hinc : includes (n ++ js "@s.whatsapp.net") (js "@s.whatsapp.net") = true).
    { pose proof (includes_app n (js "@s.whatsapp.net") []) as H.
      by rewrite app_nil_r in H. }
    rewrite Hinc.
    assert (Hne : nonEmpty (n ++ js "@s.whatsapp.net") = true).
    { unfold nonEmpty. rewrite bool_decide_eq_false_2; [done|]. by destruct n. }
    rewrite Hne. simpl andb. cbv iota.
    change (js "@s.whatsapp.net") with (N_of_ascii "@"%char :: js "s.whatsapp.net").
    change (js "@") with [N_of_ascii "@"%char].
    by rewrite split_single_app.
  - intros H. unfold formatRecipient. rewrite H. by rewrite andb_false_r.
Qed.

Lemma formatRecipient_strips_suffix_witness :
  (N_of_ascii "@"%char ∉ js "60123456789") /\
  formatRecipient (js "60123456789@s.whatsapp.net") = js "60123456789".
Proof.
  assert (H : N_of_ascii "@"%char ∉ js "60123456789").
  { apply (bool_decide_unpack _). vm_compute. exact I. }
  split; [exact H|].
  exact (proj1 (formatRecipient_strips_suffix (js "60123456789@s.whatsapp.net"))
           (js "60123456789") H eq_refl).
Defined.

Lemma second_send_first env recipient content messageType mediaUrl w :
  Second.sendWhatsAppMessage env recipient content messageType mediaUrl w
  = First.sendWhatsappMessage env recipient content messageType mediaUrl w.
Proof.
  unfold Second.sendWhatsAppMessage, First.sendWhatsappMessage.
  destruct (isSet (WASENDER_API_TOKEN env)); [|reflexivity]. cbn [negb].
  cbv zeta. unfold emptyPayload. cbn [payload_to].
  destruct (String.eqb_spec messageType "text") as [->|_]; [reflexivity|].
  destruct (String.eqb_spec messageType "image") as [->|_];
    [destruct (isSet mediaUrl); reflexivity|].
  destruct (String.eqb_spec messageType "video") as [->|_];
    [destruct (isSet mediaUrl); reflexivity|].
  destruct (String.eqb_spec messageType "audio") as [->|_];
    [destruct (isSet mediaUrl); reflexivity|].
  destruct (String.eqb_spec messageType "document") as [->|_];
    [destruct (isSet mediaUrl); reflexivity|].
  reflexivity.
Qed.

(** X11: the two implementations of the send function, an [if]/[else]
    chain in the first variant and a [switch] in the second, return the
    same result and leave the same world for every message type, media
    URL, content and recipient; so do the two delivery loops. *)
Theorem send_variants_agree env recipient w :
  (forall content messageType mediaUrl,
     Second.sendWhatsAppMessage env recipient content messageType mediaUrl w
     = First.sendWhatsappMessage env recipient content messageType mediaUrl w) /\
  (forall chunks,
     Second.deliveryLoop env recipient chunks w = First.deliveryLoop env recipient chunks w).
Proof.
  split.
  - intros. apply second_send_first.
  - intros. apply second_deliveryLoop_first.
Qed.

Ltac posted :=
  right; eexists; split; [reflexivity|]; split; [|cbv zeta; reflexivity]; reflexivity.

Lemma first_send_cases env recipient content messageType mediaUrl w :
  First.sendWhatsappMessage env recipient content messageType mediaUrl w = (false, w) \/
  exists payload,
    isSet (WASENDER_API_TOKEN env) = true /\
    payload_to payload = formatRecipient recipient /\
    First.sendWhatsappMessage env recipient content messageType mediaUrl w
    = (axios_post env (effects w) payload,
       mkWorld (files w) (effects w ++ [Post payload (axios_post env (effects w) payload)])).
Proof.
  unfold First.sendWhatsappMessage.
  destruct (isSet (WASENDER_API_TOKEN env)); cbn [negb]; [|by left].
  cbv zeta. unfold emptyPayload. cbn [payload_to].
  destruct (String.eqb messageType "text"); [posted|].
  destruct (String.eqb messageType "image" && isSet mediaUrl); [posted|].
  destruct (String.eqb messageType "video" && isSet mediaUrl); [posted|].
  destruct (String.eqb messageType "audio" && isSet mediaUrl); [posted|].
  destruct (String.eqb messageType "document" && isSet mediaUrl); [posted|].
  by left.
Qed.

(** X12: a send never touches the files; it either returns [false] and
    leaves the world as it is, or posts exactly one request, addressed
    to the formatted recipient, and returns the outcome of that
    request.  Without API token, and for a message type other than
    "text" without media URL, nothing is posted and [false] is
    returned. *)
Theorem send_reports_what_it_did env recipient content messageType mediaUrl w :
  let r := First.sendWhatsappMessage env recipient content messageType mediaUrl w in
  Second.sendWhatsAppMessage env recipient content messageType mediaUrl w = r /\
  files (snd r) = files w /\
  (r = (false, w) \/
   exists payload,
     payload_to payload = formatRecipient recipient /\
     fst r = axios_post env (effects w) payload /\
     effects (snd r) = effects w ++ [Post payload (fst r)]) /\
  (isSet (WASENDER_API_TOKEN env) = false -> r = (false, w)) /\
  (messageType <> "text"%string -> isSet mediaUrl = false -> r = (false, w)).
Proof.
  intros r. subst r. split; [apply second_send_first|]. split; [|split; [|split]].
  - destruct (first_send_cases env recipient content messageType mediaUrl w)
      as [->|(p & _ & _ & ->)]; reflexivity.
  - destruct (first_send_cases env recipient content messageType mediaUrl w)
      as [->|(p & _ & Hto & ->)]; [by left|]. right. by exists p.
  - intros Htoken.
    destruct (first_send_cases env recipient content messageType mediaUrl w)
      as [->|(p & Hset & _)]; [done|congruence].
  - intros Htext Hmedia. unfold First.sendWhatsappMessage.
    destruct (isSet (WASENDER_API_TOKEN env)); [|done]. cbn [negb]. cbv zeta.
    rewrite Hmedia, !andb_false_r.
    destruct (String.eqb_spec messageType "text"); done.
Qed.

Lemma send_reports_what_it_did_witness :
  "image"%string <> "text"%string /\ isSet None = false /\
  First.sendWhatsappMessage (envWith "x" (fun _ _ => true)) (js "601@s.whatsapp.net")
    (js "caption") "image" None emptyWorld = (false, emptyWorld).
Proof.
  assert (H1 : "image"%string <> "text"%string) by discriminate.
  assert (H2 : isSet None = false) by reflexivity.
  split; [exact H1|]. split; [exact H2|].
  exact (proj2 (proj2 (proj2 (proj2
    (send_reports_what_it_did (envWith "x" (fun _ _ => true)) (js "601@s.whatsapp.net")
       (js "caption") "image" None emptyWorld)))) H1 H2).
Defined.

Lemma first_reply_nested env (m : jsstring) history r t :
  isSet (GEMINI_API_KEY env) = true ->
  firstCall env (JStr m) history = Ok (Some r) ->
  firstPartText (from_option inner_candidates None (result_response r)) = Some t ->
  fst (First.getGeminiResponse env (JStr m) history) = trim t.
Proof.
  intros Hkey Hcall Ht. rewrite first_reply, Hkey, Hcall.
  by rewrite (first_extractText_nested r t Ht).
Qed.

Lemma second_reply_text env messageText history r t :
  isSet (GEMINI_API_KEY env) = true ->
  secondCall env messageText history = Ok (Some r) ->
  result_text r = Some t -> t <> [] ->
  fst (Second.getGeminiResponse env messageText history) = trim t.
Proof.
  intros Hkey Hcall Ht Hne. rewrite second_reply, Hkey, Hcall.
  destruct (second_extractText_shapes r) as (H & _). by apply H.
Qed.



(** X14: the second variant of the reply generator reads [response.text]
    first and [response.candidates] second, and nothing under
    [response.response]: a result that carries neither of the two is
    answered with the fixed "empty or unexpected" string whatever it
    holds elsewhere. *)
Theorem second_reads_top_level_only env messageText history r :
  isSet (GEMINI_API_KEY env) = true ->
  secondCall env messageText history = Ok (Some r) ->
  let reply := fst (Second.getGeminiResponse env messageText history) in
  (forall t, result_text r = Some t -> t <> [] -> reply = trim t) /\
  (forall t, isSet (result_text r) = false ->
     firstPartText (result_candidates r) = Some t -> reply = trim t) /\
  (isSet (result_text r) = false -> result_candidates r = None ->
     reply = EMPTY_OR_UNEXPECTED).
Proof.
  intros Hkey Hcall reply. subst reply. rewrite second_reply, Hkey, Hcall.
  apply second_extractText_shapes.
Qed.

Lemma second_reads_top_level_only_witness :
  let env := envWith "hi" allPostsFail in
  isSet (GEMINI_API_KEY env) = true /\
  secondCall env (JStr (js "hello")) [] = Ok (Some (replyResult "hi")) /\
  isSet (result_text (replyResult "hi")) = false /\
  result_candidates (replyResult "hi") = None /\
  fst (Second.getGeminiResponse env (JStr (js "hello")) []) = EMPTY_OR_UNEXPECTED.
Proof.
  intros env.
  assert (H1 : isSet (GEMINI_API_KEY env) = true) by reflexivity.
  assert (H2 : secondCall env (JStr (js "hello")) [] = Ok (Some (replyResult "hi")))
    by reflexivity.
  assert (H3 : isSet (result_text (replyResult "hi")) = false) by reflexivity.
  assert (H4 : result_candidates (replyResult "hi") = None) by reflexivity.
  split; [exact H1|]. split; [exact H2|]. split; [exact H3|]. split; [exact H4|].
  exact (proj2 (proj2 (second_reads_top_level_only env (JStr (js "hello")) []
                         (replyResult "hi") H1 H2)) H3 H4).
Defined.

Lemma first_webhook_self env data w messageInfo :
  upsertedMessage data = Some messageInfo ->
  selfOriginated messageInfo = true ->
  First.webhook env data w
  = (if printable (propOf (prop messageInfo "key") "id")
     then First.selfSent else First.internalError, w).
Proof.
  intros Hups Hself. unfold First.webhook, First.webhook_try.
  rewrite (upsertedMessage_not_null data messageInfo Hups), Hups, guarded_truthy.
  unfold selfOriginated in Hself. rewrite Hself, templateLiteral_one.
  by destruct (printable _).
Qed.

Lemma second_webhook_self env data w messageInfo :
  upsertedMessage data = Some messageInfo ->
  selfOriginated messageInfo = true ->
  Second.webhook env data w
  = (if printable (propOf (prop messageInfo "key") "id")
     then Second.selfSent else Second.internalError, w).
Proof.
  intros Hups Hself. unfold Second.webhook, Second.webhook_try.
  rewrite (upsertedMessage_not_null data messageInfo Hups), Hups.
  unfold selfOriginated in Hself. rewrite Hself, templateLiteral_one.
  by destruct (printable _).
Qed.

Lemma first_webhook_event env data w :
  isNull data = false -> upsertedMessage data = None ->
  First.webhook env data w
  = (if printable (prop data "event") then First.success else First.internalError, w).
Proof.
  intros Hnull Hups. unfold First.webhook, First.webhook_try.
  rewrite Hnull, Hups, templateLiteral_one.
  destruct (printable (prop data "event")) eqn:Hp.
  - by destruct (truthy (prop data "event")).
  - by rewrite (truthy_not_printable _ Hp).
Qed.

Lemma second_webhook_event env data w :
  isNull data = false -> upsertedMessage data = None ->
  Second.webhook env data w
  = (if printable (prop data "event") then Second.success else Second.internalError, w).
Proof.
  intros Hnull Hups. unfold Second.webhook, Second.webhook_try.
  rewrite Hnull, Hups, templateLiteral_one.
  destruct (printable (prop data "event")) eqn:Hp.
  - by destruct (truthy (prop data "event")).
  - by rewrite (truthy_not_printable _ Hp).
Qed.

Ltac unchanged := left; eexists; split; [reflexivity|in_list].

(** Every outcome of the first handler: an answer that leaves the world
    as it is, or success after the text branch ran for a string sender
    and a text that converts to a string. *)
Lemma first_webhook_cases env data w :
  (exists r, First.webhook env data w = (r, w) /\
     r ∈ [First.internalError; First.success; First.selfSent; First.systemMessage;
          First.incompleteSender]) \/
  exists messageInfo sender text w',
    upsertedMessage data = Some messageInfo /\
    selfOriginated messageInfo = false /\
    isStub messageInfo = false /\
    senderOf messageInfo = Some (JStr sender) /\ sender <> [] /\
    First.extractIncoming messageInfo = (Some text, true) /\ truthyValue text = true /\
    toStringThrows text = false /\
    First.processText env sender (sanitize sender) text w = Ok w' /\
    First.webhook env data w = (First.success, w').
Proof.
  destruct (upsertedMessage data) as [messageInfo|] eqn:Hups.
  - destruct (selfOriginated messageInfo) eqn:Hself.
    + left. rewrite (first_webhook_self env data w messageInfo Hups Hself).
      destruct (printable _); eexists; (split; [reflexivity|in_list]).
    + unfold First.webhook.
      rewrite (first_webhook_try_upsert env data w messageInfo Hups Hself).
      destruct (First.extractIncoming messageInfo) as [incoming isText] eqn:Hin.
      destruct (isStub messageInfo) eqn:Hstub.
      { destruct (templateLiteral _) as [[]|e]; unchanged. }
      destruct (truthy (senderOf messageInfo)) eqn:Ht; cbn [negb]; [|unchanged].
      destruct (senderOf messageInfo) as [[| | |sender| |]|] eqn:Hs; try unchanged.
      destruct incoming as [text|]; [|unchanged].
      destruct isText; cbn [andb]; [|unchanged].
      destruct (truthyValue text) eqn:Htext; [|unchanged].
      destruct (toStringThrows text) eqn:Hprint.
      { rewrite first_processText_cases, Hprint. unchanged. }
      destruct (first_processText_ok env sender (sanitize sender) text w Hprint)
        as [w' Hw'].
      right. exists messageInfo, sender, text, w'. rewrite Hw'.
      repeat split; try done.
      intros ->. vm_compute in Ht. discriminate.
  - left. destruct (isNull data) eqn:Hnull.
    + unfold First.webhook, First.webhook_try. rewrite Hnull.
      eexists; (split; [reflexivity|in_list]).
    + rewrite (first_webhook_event env data w Hnull Hups).
      destruct (printable _); eexists; (split; [reflexivity|in_list]).
Qed.

Lemma second_webhook_cases env data w :
  (exists r, Second.webhook env data w = (r, w) /\
     r ∈ [Second.internalError; Second.success; Second.selfSent; Second.systemMessage;
          Second.incompleteSender]) \/
  exists messageInfo sender text w',
    upsertedMessage data = Some messageInfo /\
    selfOriginated messageInfo = false /\
    isStub messageInfo = false /\
    senderOf messageInfo = Some (JStr sender) /\ sender <> [] /\
    Second.extractIncoming messageInfo = Ok (Some text, true) /\ truthyValue text = true /\
    toStringThrows text = false /\
    Second.processText env sender (sanitize sender) text w = Ok w' /\
    Second.webhook env data w = (Second.success, w').
Proof.
  destruct (upsertedMessage data) as [messageInfo|] eqn:Hups.
  - destruct (selfOriginated messageInfo) eqn:Hself.
    + left. rewrite (second_webhook_self env data w messageInfo Hups Hself).
      destruct (printable _); eexists; (split; [reflexivity|in_list]).
    + unfold Second.webhook.
      rewrite (second_webhook_try_upsert env data w messageInfo Hups Hself).
      destruct (truthy (senderOf messageInfo)) eqn:Ht; cbn [negb]; [|unchanged].
      destruct (senderOf messageInfo) as [[| | |sender| |]|] eqn:Hs; try unchanged.
      destruct (Second.extractIncoming messageInfo) as [[incoming isText]|e] eqn:Hin;
        cbn [mbind Result_bind]; [|unchanged].
      destruct (isStub messageInfo) eqn:Hstub.
      { destruct (templateLiteral _) as [[]|e]; unchanged. }
      destruct incoming as [text|]; [|unchanged].
      destruct isText; cbn [andb]; [|unchanged].
      destruct (truthyValue text) eqn:Htext; [|unchanged].
      destruct (toStringThrows text) eqn:Hprint.
      { rewrite second_processText_cases, Hprint. unchanged. }
      destruct (second_processText_ok env sender (sanitize sender) text w Hprint)
        as [w' Hw'].
      right. exists messageInfo, sender, text, w'. rewrite Hw'.
      repeat split; try done.
      intros ->. vm_compute in Ht. discriminate.
  - left. destruct (isNull data) eqn:Hnull.
    + unfold Second.webhook, Second.webhook_try. rewrite Hnull.
      eexists; (split; [reflexivity|in_list]).
    + rewrite (second_webhook_event env data w Hnull Hups).
      destruct (printable _); eexists; (split; [reflexivity|in_list]).
Qed.

Lemma first_save_effects env k history w :
  effects (First.saveConversationHistory env k history w) = effects w.
Proof.
  unfold First.saveConversationHistory, fs_writeFile.
  destruct (fs_fault env (conversationPath k)); reflexivity.
Qed.

Lemma second_save_effects env k history w :
  effects (Second.saveConversationHistory env k history w) = effects w.
Proof.
  unfold Second.saveConversationHistory, fs_writeFile.
  destruct (fs_fault env (conversationPath k)); reflexivity.
Qed.

Lemma withPauses_Forall (Q : Effect -> Prop) posts :
  Q Sleep -> Forall Q posts -> Forall Q (withPauses posts).
Proof.
  intros Hs Hall. induction Hall as [|e posts He Hall IH]; [constructor|].
  destruct posts as [|e' posts]; [by constructor|].
  change (withPauses (e :: e' :: posts)) with (e :: Sleep :: withPauses (e' :: posts)).
  by repeat constructor.
Qed.

Lemma first_deliveryLoop_effects env sender chunks w :
  exists added,
    effects (First.deliveryLoop env sender chunks w) = effects w ++ added /\
    Forall (replyEffect sender) added.
Proof.
  destruct (first_deliveryLoop_stops env sender chunks w)
    as (sent & stopped & _ & Heff & _).
  eexists. split; [exact Heff|].
  apply withPauses_Forall; [by left|].
  apply Forall_app. split; apply Forall_map, Forall_forall; intros c _; right; by eexists _, _.
Qed.

Lemma first_processText_effects env sender key text w w' :
  First.processText env sender key text w = Ok w' ->
  exists added,
    effects w' = effects w ++ added /\ Forall (replyEffect sender) added.
Proof.
  rewrite first_processText_cases.
  destruct (toStringThrows text); [discriminate|].
  destruct (nonEmpty _); intros [= <-].
  - rewrite first_save_effects. apply first_deliveryLoop_effects.
  - exists []. by rewrite app_nil_r.
Qed.

Lemma second_processText_effects env sender key text w w' :
  Second.processText env sender key text w = Ok w' ->
  exists added,
    effects w' = effects w ++ added /\ Forall (replyEffect sender) added.
Proof.
  rewrite second_processText_cases.
  destruct (toStringThrows text); [discriminate|].
  destruct (nonEmpty _); intros [= <-].
  - rewrite second_save_effects. apply first_deliveryLoop_effects.
  - exists []. by rewrite app_nil_r.
Qed.

Lemma first_processText_other_files env sender key text w w' path :
  First.processText env sender key text w = Ok w' ->
  path <> conversationPath key ->
  files w' !! path = files w !! path.
Proof.
  rewrite first_processText_cases.
  destruct (toStringThrows text); [discriminate|].
  destruct (nonEmpty _); intros [= <-] Hne; [|done].
  rewrite first_save_other by done. by rewrite first_deliveryLoop_files.
Qed.

Lemma second_processText_other_files env sender key text w w' path :
  Second.processText env sender key text w = Ok w' ->
  path <> conversationPath key ->
  files w' !! path = files w !! path.
Proof.
  rewrite second_processText_cases.
  destruct (toStringThrows text); [discriminate|].
  destruct (nonEmpty _); intros [= <-] Hne; [|done].
  rewrite second_save_other by done. by rewrite first_deliveryLoop_files.
Qed.

(** X15: an event that is not a "new message" with messages, and a
    message sent by the bot itself, leave the world as it is in both
    variants: nothing is sent and no file is written.  They are
    acknowledged with status 200 when the field that the log line
    interpolates, the event name or the message id, converts to a
    string, and answered 500 when it does not. *)
Theorem webhook_acknowledges_without_effect env data w :
  (isNull data = false -> upsertedMessage data = None ->
     First.webhook env data w
     = (if printable (prop data "event") then First.success else First.internalError, w) /\
     Second.webhook env data w
     = (if printable (prop data "event") then Second.success else Second.internalError, w)) /\
  (forall messageInfo,
     upsertedMessage data = Some messageInfo ->
     selfOriginated messageInfo = true ->
     First.webhook env data w
     = (if printable (propOf (prop messageInfo "key") "id")
        then First.selfSent else First.internalError, w) /\
     Second.webhook env data w
     = (if printable (propOf (prop messageInfo "key") "id")
        then Second.selfSent else Second.internalError, w)).
Proof.
  split.
  - intros Hnull Hups. split.
    + by apply first_webhook_event.
    + by apply second_webhook_event.
  - intros messageInfo Hups Hself. split.
    + by apply first_webhook_self.
    + by apply second_webhook_self.
Qed.

Lemma webhook_acknowledges_without_effect_witness :
  let env := envWith "x" (fun _ _ => true) in
  upsertedMessage (upsert selfSentInfo) = Some selfSentInfo /\
  selfOriginated selfSentInfo = true /\
  printable (propOf (prop selfSentInfo "key") "id") = true /\
  First.webhook env (upsert selfSentInfo) emptyWorld = (First.selfSent, emptyWorld) /\
  Second.webhook env (upsert selfSentInfo) emptyWorld = (Second.selfSent, emptyWorld).
Proof.
  intros env.
  assert (H1 : upsertedMessage (upsert selfSentInfo) = Some selfSentInfo) by reflexivity.
  assert (H2 : selfOriginated selfSentInfo = true) by reflexivity.
  assert (H3 : printable (propOf (prop selfSentInfo "key") "id") = true) by reflexivity.
  split; [exact H1|]. split; [exact H2|]. split; [exact H3|].
  pose proof (proj2 (webhook_acknowledges_without_effect env (upsert selfSentInfo)
                       emptyWorld) selfSentInfo H1 H2) as H.
  rewrite H3 in H. exact H.
Defined.

(** An event whose name, and a self-sent message whose id, is an object
    with a property [toString]: answered 500. *)
Example webhook_unprintable_event :
  let env := envWith "x" (fun _ _ => true) in
  First.webhook env (obj [("event", unprintable)]%string) emptyWorld
    = (First.internalError, emptyWorld) /\
  Second.webhook env
    (upsert (obj [("key", obj [("fromMe", JBool true); ("id", unprintable)])]%string))
    emptyWorld
    = (Second.internalError, emptyWorld).
Proof. split; reflexivity. Qed.

Lemma first_fixed_status r :
  r ∈ [First.internalError; First.success; First.selfSent; First.systemMessage;
       First.incompleteSender] ->
  res_status r ∈ [200; 400; 500].
Proof.
  intros H. repeat (apply elem_of_cons in H as [->|H]); try (simpl; in_list).
  by apply elem_of_nil in H.
Qed.

Lemma second_fixed_status r :
  r ∈ [Second.internalError; Second.success; Second.selfSent; Second.systemMessage;
       Second.incompleteSender] ->
  res_status r ∈ [200; 400; 500].
Proof.
  intros H. repeat (apply elem_of_cons in H as [->|H]); try (simpl; in_list).
  by apply elem_of_nil in H.
Qed.

(** X16: for every parsed request body both handlers answer with status
    200, 400 or 500, and an answer other than 200 leaves the world as
    it was: nothing has been sent or written. *)
Theorem webhook_status_and_world env data w :
  let r1 := First.webhook env data w in
  let r2 := Second.webhook env data w in
  res_status (fst r1) ∈ [200; 400; 500] /\
  res_status (fst r2) ∈ [200; 400; 500] /\
  (res_status (fst r1) <> 200 -> snd r1 = w) /\
  (res_status (fst r2) <> 200 -> snd r2 = w).
Proof.
  cbv zeta.
  destruct (first_webhook_cases env data w)
    as [(r1 & -> & Hr1)|(mi1 & s1 & t1 & w1 & _ & _ & _ & _ & _ & _ & _ & _ & _ & ->)];
  destruct (second_webhook_cases env data w)
    as [(r2 & -> & Hr2)|(mi2 & s2 & t2 & w2 & _ & _ & _ & _ & _ & _ & _ & _ & _ & ->)];
  cbn [fst snd]; repeat split;
    try (by apply first_fixed_status); try (by apply second_fixed_status);
    try (simpl; in_list); try done.
Qed.

Lemma webhook_status_and_world_witness :
  let env := envWith "x" (fun _ _ => true) in
  res_status (fst (First.webhook env (upsert unprintableTextInfo) emptyWorld)) <> 200 /\
  snd (First.webhook env (upsert unprintableTextInfo) emptyWorld) = emptyWorld.
Proof.
  intros env.
  assert (H : res_status (fst (First.webhook env (upsert unprintableTextInfo) emptyWorld))
              <> 200) by (vm_compute; discriminate).
  split; [exact H|].
  exact (proj1 (proj2 (proj2
    (webhook_status_and_world env (upsert unprintableTextInfo) emptyWorld))) H).
Defined.

(** X17: the only file a handler call can change is the conversation
    file of the sender of the event, under the sanitised sender
    identifier. *)
Theorem webhook_touches_only_the_sender_file env data w path :
  (files (snd (First.webhook env data w)) !! path <> files w !! path \/
   files (snd (Second.webhook env data w)) !! path <> files w !! path) ->
  exists messageInfo sender,
    upsertedMessage data = Some messageInfo /\
    senderOf messageInfo = Some (JStr sender) /\
    path = conversationPath (sanitize sender).
Proof.
  intros [Hchg|Hchg].
  - destruct (first_webhook_cases env data w)
      as [(r & Heq & _)
         |(mi & sender & text & w' & Hups & _ & _ & Hs & _ & _ & _ & _ & Hw' & Heq)];
      rewrite Heq in Hchg; cbn [snd] in Hchg; [done|].
    exists mi, sender. repeat split; try done.
    destruct (decide (path = conversationPath (sanitize sender))) as [|Hne]; [done|].
    exfalso. apply Hchg. by eapply first_processText_other_files.
  - destruct (second_webhook_cases env data w)
      as [(r & Heq & _)
         |(mi & sender & text & w' & Hups & _ & _ & Hs & _ & _ & _ & _ & Hw' & Heq)];
      rewrite Heq in Hchg; cbn [snd] in Hchg; [done|].
    exists mi, sender. repeat split; try done.
    destruct (decide (path = conversationPath (sanitize sender))) as [|Hne]; [done|].
    exfalso. apply Hchg. by eapply second_processText_other_files.
Qed.

Lemma webhook_touches_only_the_sender_file_witness :
  let env := envWith "Hello!" (fun _ _ => true) in
  let path := conversationPath (js "60123456789_s_whatsapp_net") in
  files (snd (First.webhook env (upsert textMessageInfo) emptyWorld)) !! path
    <> files emptyWorld !! path /\
  exists messageInfo sender,
    upsertedMessage (upsert textMessageInfo) = Some messageInfo /\
    senderOf messageInfo = Some (JStr sender) /\
    path = conversationPath (sanitize sender).
Proof.
  intros env path.
  assert (H : files (snd (First.webhook env (upsert textMessageInfo) emptyWorld)) !! path
              <> files emptyWorld !! path) by (vm_compute; discriminate).
  split; [exact H|].
  exact (webhook_touches_only_the_sender_file env (upsert textMessageInfo) emptyWorld path
           (or_introl H)).
Defined.

(** X18: whatever a handler call adds to the effects is a sequence of
    pauses and posts of text chunks, without media, all addressed to
    the sender of the event. *)
Theorem webhook_replies_only_to_the_sender env data w :
  (exists added,
     effects (snd (First.webhook env data w)) = effects w ++ added /\
     (added = [] \/
      exists messageInfo sender,
        upsertedMessage data = Some messageInfo /\
        senderOf messageInfo = Some (JStr sender) /\
        Forall (replyEffect sender) added)) /\
  (exists added,
     effects (snd (Second.webhook env data w)) = effects w ++ added /\
     (added = [] \/
      exists messageInfo sender,
        upsertedMessage data = Some messageInfo /\
        senderOf messageInfo = Some (JStr sender) /\
        Forall (replyEffect sender) added)).
Proof.
  split.
  - destruct (first_webhook_cases env data w)
      as [(r & -> & _)
         |(mi & sender & text & w' & Hups & _ & _ & Hs & _ & _ & _ & _ & Hw' & ->)];
      cbn [snd].
    + exists []. rewrite app_nil_r. split; [done|by left].
    + destruct (first_processText_effects env sender (sanitize sender) text w w' Hw')
        as (added & Heff & Hall).
      exists added. split; [done|]. right. by exists mi, sender.
  - destruct (second_webhook_cases env data w)
      as [(r & -> & _)
         |(mi & sender & text & w' & Hups & _ & _ & Hs & _ & _ & _ & _ & Hw' & ->)];
      cbn [snd].
    + exists []. rewrite app_nil_r. split; [done|by left].
    + destruct (second_processText_effects env sender (sanitize sender) text w w' Hw')
        as (added & Heff & Hall).
      exists added. split; [done|]. right. by exists mi, sender.
Qed.





Lemma splitMessageDefault_short (reply : jsstring) :
  len reply <= 100 -> includes reply MARKER = false ->
  splitMessageDefault reply = [reply].
Proof. intros H1 H2. apply splitMessage_one_paragraph; [lia|done|done]. Qed.

(** A reply that makes one chunk: one post, and the array is saved. *)
Lemma first_processText_single_chunk env sender key text w :
  let history := First.loadConversationHistory env w key in
  let reply := fst (First.getGeminiResponse env text history) in
  let array := snd (First.getGeminiResponse env text history) in
  isSet (WASENDER_API_TOKEN env) = true ->
  toStringThrows text = false ->
  reply <> [] -> len reply <= 100 -> includes reply MARKER = false ->
  First.processText env sender key text w
  = Ok (First.saveConversationHistory env key
          (array ++ [turnWithTextPart "user" text; turnWithTextPart "model" (JStr reply)])
          (mkWorld (files w)
             (effects w ++
              [textPost sender reply
                 (axios_post env (effects w)
                    (mkPayload (formatRecipient sender) (Some reply) None None None None))]))).
Proof.
  intros history reply array Htoken Hprint Hne Hlen Hmark.
  rewrite first_processText_cases, Hprint. fold history. fold reply. fold array.
  rewrite (nonEmpty_true reply Hne), (splitMessageDefault_short reply Hlen Hmark).
  rewrite first_deliveryLoop_cons, first_send_text, Htoken. cbv zeta.
  by destruct (axios_post env (effects w) _).
Qed.

Lemma second_processText_single_chunk env sender key text w :
  let history := Second.loadConversationHistory env w key in
  let reply := fst (Second.getGeminiResponse env text history) in
  let array := snd (Second.getGeminiResponse env text history) in
  isSet (WASENDER_API_TOKEN env) = true ->
  toStringThrows text = false ->
  reply <> [] -> len reply <= 100 -> includes reply MARKER = false ->
  Second.processText env sender key text w
  = Ok (Second.saveConversationHistory env key
          (array ++ [turnWithPlainPart "user" text; turnWithPlainPart "model" (JStr reply)])
          (mkWorld (files w)
             (effects w ++
              [textPost sender reply
                 (axios_post env (effects w)
                    (mkPayload (formatRecipient sender) (Some reply) None None None None))]))).
Proof.
  intros history reply array Htoken Hprint Hne Hlen Hmark.
  rewrite second_processText_cases, Hprint. fold history. fold reply. fold array.
  rewrite (nonEmpty_true reply Hne), (splitMessageDefault_short reply Hlen Hmark).
  rewrite first_deliveryLoop_cons, first_send_text, Htoken. cbv zeta.
  by destruct (axios_post env (effects w) _).
Qed.

(** X20: with the API token set and a text that converts to a string, a
    non-empty reply of at most 100 code units without marker is
    delivered by the text branch as exactly one post carrying the
    whole reply, with no pause; a text that does not convert to a
    string ends the branch with a [TypeError] before anything is
    done. *)
Theorem short_reply_is_one_message env sender key text w :
  isSet (WASENDER_API_TOKEN env) = true ->
  (toStringThrows text = true ->
   First.processText env sender key text w = Throw TypeError /\
   Second.processText env sender key text w = Throw TypeError) /\
  (toStringThrows text = false ->
   (let reply := fst (First.getGeminiResponse env text
                        (First.loadConversationHistory env w key)) in
    reply <> [] -> len reply <= 100 -> includes reply MARKER = false ->
    exists w', First.processText env sender key text w = Ok w' /\
      effects w'
      = effects w ++
        [textPost sender reply
           (axios_post env (effects w)
              (mkPayload (formatRecipient sender) (Some reply) None None None None))]) /\
   (let reply := fst (Second.getGeminiResponse env text
                        (Second.loadConversationHistory env w key)) in
    reply <> [] -> len reply <= 100 -> includes reply MARKER = false ->
    exists w', Second.processText env sender key text w = Ok w' /\
      effects w'
      = effects w ++
        [textPost sender reply
           (axios_post env (effects w)
              (mkPayload (formatRecipient sender) (Some reply) None None None None))])).
Proof.
  intros Htoken. split.
  - intros Hthrows. rewrite first_processText_cases, second_processText_cases, Hthrows.
    done.
  - intros Hprint. split; intros reply Hne Hlen Hmark.
    + eexists. split.
      * exact (first_processText_single_chunk env sender key text w Htoken Hprint
                 Hne Hlen Hmark).
      * by rewrite first_save_effects.
    + eexists. split.
      * exact (second_processText_single_chunk env sender key text w Htoken Hprint
                 Hne Hlen Hmark).
      * by rewrite second_save_effects.
Qed.

Lemma short_reply_is_one_message_witness :
  let env := envWith "Hello!" (fun _ _ => true) in
  let sender := js "60123456789@s.whatsapp.net" in
  let key := js "60123456789_s_whatsapp_net" in
  isSet (WASENDER_API_TOKEN env) = true /\
  toStringThrows (JStr (js "hello")) = false /\
  fst (First.getGeminiResponse env (JStr (js "hello"))
         (First.loadConversationHistory env emptyWorld key)) = js "Hello!" /\
  exists w', First.processText env sender key (JStr (js "hello")) emptyWorld = Ok w' /\
    effects w'
    = [] ++ [Post (mkPayload (js "60123456789") (Some (js "Hello!")) None None None None)
               true].
Proof.
  intros env sender key.
  assert (H1 : isSet (WASENDER_API_TOKEN env) = true) by reflexivity.
  assert (H0 : toStringThrows (JStr (js "hello")) = false) by reflexivity.
  assert (H2 : fst (First.getGeminiResponse env (JStr (js "hello"))
                 (First.loadConversationHistory env emptyWorld key)) = js "Hello!")
    by (vm_compute; reflexivity).
  assert (H3 : fst (First.getGeminiResponse env (JStr (js "hello"))
                 (First.loadConversationHistory env emptyWorld key)) <> [])
    by (rewrite H2; discriminate).
  assert (H4 : len (fst (First.getGeminiResponse env (JStr (js "hello"))
                 (First.loadConversationHistory env emptyWorld key))) <= 100)
    by (rewrite H2; vm_compute; discriminate).
  assert (H5 : includes (fst (First.getGeminiResponse env (JStr (js "hello"))
                 (First.loadConversationHistory env emptyWorld key))) MARKER = false)
    by (rewrite H2; reflexivity).
  split; [exact H1|]. split; [exact H0|]. split; [exact H2|].
  pose proof (proj1 (proj2 (short_reply_is_one_message env sender key (JStr (js "hello"))
                       emptyWorld H1) H0) H3 H4 H5) as H.
  rewrite H2 in H. exact H.
Defined.

Lemma fallback_short reply :
  reply ∈ [APOLOGY; TROUBLE] ->
  reply <> [] /\ len reply <= 100 /\ includes reply MARKER = false.
Proof.
  intros H. repeat (apply elem_of_cons in H as [->|H]);
    [| |by apply elem_of_nil in H]; (split; [discriminate|]; split; [|reflexivity]);
    vm_compute; discriminate.
Qed.

(** X21: with the API token set and a text that converts to a string.
    When no Gemini API key is configured, the text branch delivers the
    fixed apology as one message and saves the loaded conversation
    followed by the user turn with the text and the model turn with
    the apology.  When the key is configured and the Gemini call
    rejects, it delivers the fixed fallback [TROUBLE] as one message
    and saves the array as the rejected call left it, followed by the
    user turn and the model turn with that fallback. *)
Theorem unavailable_generation_degrades env sender key text w :
  isSet (WASENDER_API_TOKEN env) = true ->
  toStringThrows text = false ->
  let delivered (reply : jsstring) :=
    mkWorld (files w)
      (effects w ++
       [textPost sender reply
          (axios_post env (effects w)
             (mkPayload (formatRecipient sender) (Some reply) None None None None))]) in
  (isSet (GEMINI_API_KEY env) = false ->
   First.processText env sender key text w
   = Ok (First.saveConversationHistory env key
           (First.loadConversationHistory env w key
            ++ [turnWithTextPart "user" text; turnWithTextPart "model" (JStr APOLOGY)])
           (delivered APOLOGY)) /\
   Second.processText env sender key text w
   = Ok (Second.saveConversationHistory env key
           (Second.loadConversationHistory env w key
            ++ [turnWithPlainPart "user" text; turnWithPlainPart "model" (JStr APOLOGY)])
           (delivered APOLOGY))) /\
  (isSet (GEMINI_API_KEY env) = true ->
   (forall m e,
      text = JStr m ->
      firstCall env text (First.loadConversationHistory env w key) = Throw e ->
      First.processText env sender key text w
      = Ok (First.saveConversationHistory env key
              (historyAfterChat env text (First.loadConversationHistory env w key)
               ++ [turnWithTextPart "user" text; turnWithTextPart "model" (JStr TROUBLE)])
              (delivered TROUBLE))) /\
   (forall e,
      secondCall env text (Second.loadConversationHistory env w key) = Throw e ->
      Second.processText env sender key text w
      = Ok (Second.saveConversationHistory env key
              (historyAfterChat env text (Second.loadConversationHistory env w key)
               ++ [turnWithPlainPart "user" text; turnWithPlainPart "model" (JStr TROUBLE)])
              (delivered TROUBLE)))).
Proof.
  intros Htoken Hprint delivered.
  pose proof (first_processText_single_chunk env sender key text w) as H1.
  pose proof (second_processText_single_chunk env sender key text w) as H2.
  cbv zeta in H1, H2.
  rewrite first_reply, first_history in H1. rewrite second_reply, second_history in H2.
  split.
  - intros Hkey. rewrite Hkey in *.
    destruct (fallback_short APOLOGY ltac:(in_list)) as (Hne & Hlen & Hmark).
    split; [by apply H1|by apply H2].
  - intros Hkey. rewrite Hkey in *.
    destruct (fallback_short TROUBLE ltac:(in_list)) as (Hne & Hlen & Hmark).
    split.
    + intros m e -> Hcall. rewrite Hcall in H1. by apply H1.
    + intros e Hcall. rewrite Hcall in H2. by apply H2.
Qed.

Lemma unavailable_generation_degrades_witness :
  let sender := js "60123456789@s.whatsapp.net" in
  let key := js "60123456789_s_whatsapp_net" in
  let hello := JStr (js "hello") in
  isSet (WASENDER_API_TOKEN envNoKey) = true /\
  toStringThrows hello = false /\
  isSet (GEMINI_API_KEY envNoKey) = false /\
  First.processText envNoKey sender key hello emptyWorld
  = Ok (mkWorld {[ conversationPath key :=
                     JsonText (JArr [turnWithTextPart "user" hello;
                                     turnWithTextPart "model" (JStr APOLOGY)]) ]}
                [Post (mkPayload (js "60123456789") (Some APOLOGY) None None None None)
                   true]).
Proof.
  intros sender key hello.
  assert (H1 : isSet (WASENDER_API_TOKEN envNoKey) = true) by reflexivity.
  assert (H0 : toStringThrows hello = false) by reflexivity.
  assert (H2 : isSet (GEMINI_API_KEY envNoKey) = false) by reflexivity.
  split; [exact H1|]. split; [exact H0|]. split; [exact H2|].
  pose proof (proj1 (proj1 (unavailable_generation_degrades envNoKey sender key hello
                              emptyWorld H1 H0) H2)) as H.
  rewrite H. vm_compute. reflexivity.
Defined.

Lemma trimStart_white (t : jsstring) :
  Forall (fun c => isWhiteSpace c = true) t -> trimStart t = [].
Proof. induction 1 as [|c t Hc _ IH]; [done|]. simpl. by rewrite Hc. Qed.

Lemma trim_white (t : jsstring) :
  Forall (fun c => isWhiteSpace c = true) t -> trim t = [].
Proof. intros H. unfold trim, trimEnd. by rewrite (trimStart_white t H). Qed.

Lemma first_processText_empty env sender key (m : jsstring) w :
  fst (First.getGeminiResponse env (JStr m) (First.loadConversationHistory env w key)) = [] ->
  First.processText env sender key (JStr m) w = Ok w.
Proof. intros H. rewrite first_processText_cases, H. reflexivity. Qed.

Lemma second_processText_empty env sender key (m : jsstring) w :
  fst (Second.getGeminiResponse env (JStr m) (Second.loadConversationHistory env w key)) = [] ->
  Second.processText env sender key (JStr m) w = Ok w.
Proof. intros H. rewrite second_processText_cases, H. reflexivity. Qed.

(** X22: when the text Gemini returns consists of white space only, the
    trimmed reply is empty and the text branch does nothing: no message
    is sent and the conversation is not saved. *)
Theorem blank_reply_is_dropped env sender key (m : jsstring) w r t :
  isSet (GEMINI_API_KEY env) = true ->
  Forall (fun c => isWhiteSpace c = true) t ->
  (firstCall env (JStr m) (First.loadConversationHistory env w key) = Ok (Some r) ->
   firstPartText (from_option inner_candidates None (result_response r)) = Some t ->
   First.processText env sender key (JStr m) w = Ok w) /\
  (secondCall env (JStr m) (Second.loadConversationHistory env w key) = Ok (Some r) ->
   result_text r = Some t -> t <> [] ->
   Second.processText env sender key (JStr m) w = Ok w).
Proof.
  intros Hkey Hwhite. split.
  - intros Hcall Ht. apply first_processText_empty.
    rewrite (first_reply_nested env m _ r t Hkey Hcall Ht). by apply trim_white.
  - intros Hcall Ht Hne. apply second_processText_empty.
    rewrite (second_reply_text env (JStr m) _ r t Hkey Hcall Ht Hne). by apply trim_white.
Qed.

Lemma blank_reply_is_dropped_witness :
  let env := envWith "   " (fun _ _ => true) in
  let key := js "60123456789_s_whatsapp_net" in
  isSet (GEMINI_API_KEY env) = true /\
  Forall (fun c => isWhiteSpace c = true) (js "   ") /\
  First.processText env (js "60123456789@s.whatsapp.net") key (JStr (js "hello")) emptyWorld
  = Ok emptyWorld.
Proof.
  intros env key.
  assert (H1 : isSet (GEMINI_API_KEY env) = true) by reflexivity.
  assert (H2 : Forall (fun c => isWhiteSpace c = true) (js "   ")) by (by repeat constructor).
  split; [exact H1|]. split; [exact H2|].
  exact (proj1 (blank_reply_is_dropped env (js "60123456789@s.whatsapp.net") key
                  (js "hello") emptyWorld (replyResult "   ") (js "   ") H1 H2)
           eq_refl eq_refl).
Defined.

(** X23: text extraction from a message object.  A truthy
    [conversation] is the text in both variants; without a
    [conversation] property a truthy [extendedTextMessage.text] is the
    text in both variants, and there is no text otherwise.  When
    [conversation] is present but falsy the variants differ: the first
    falls back on [extendedTextMessage.text], the second takes the
    falsy [conversation] as the text. *)
Theorem text_extraction props :
  let messageInfo := JObj props in
  forall m, lookupProp (js "message") props = Some (JObj m) ->
  let conversation := lookupProp (js "conversation") m in
  let extended := propOf (lookupProp (js "extendedTextMessage") m) "text" in
  (truthy conversation = true ->
     First.extractIncoming messageInfo = (conversation, true) /\
     Second.extractIncoming messageInfo = Ok (conversation, true)) /\
  (conversation = None -> truthy extended = true ->
     First.extractIncoming messageInfo = (extended, true) /\
     Second.extractIncoming messageInfo = Ok (extended, true)) /\
  (conversation = None -> truthy extended = false ->
     First.extractIncoming messageInfo = (None, false) /\
     Second.extractIncoming messageInfo = Ok (None, false)) /\
  (forall v, conversation = Some v -> truthyValue v = false ->
     Second.extractIncoming messageInfo = Ok (Some v, true) /\
     (truthy extended = true -> First.extractIncoming messageInfo = (extended, true)) /\
     (truthy extended = false -> First.extractIncoming messageInfo = (None, false))).
Proof.
  intros messageInfo m Hm conversation extended.
  unfold First.extractIncoming, Second.extractIncoming, messageInfo.
  cbn [prop hasProp]. rewrite Hm. cbn [truthyValue prop hasProp].
  fold conversation.
  assert (Hext : truthy (lookupProp (js "extendedTextMessage") m) && truthy extended
                 = truthy extended).
  { apply guarded_truthy. }
  fold extended. rewrite Hext.
  split; [|split; [|split]].
  - intros Hc. rewrite Hc.
    destruct conversation as [v|]; [|discriminate].
    by rewrite bool_decide_eq_true_2 by by eexists.
  - intros -> He. rewrite He. cbn [truthy].
    by rewrite bool_decide_eq_false_2 by (intros [? ?]; discriminate).
  - intros -> He. rewrite He. cbn [truthy].
    by rewrite bool_decide_eq_false_2 by (intros [? ?]; discriminate).
  - intros v -> Hv. cbn [truthy]. rewrite Hv.
    rewrite bool_decide_eq_true_2 by by eexists.
    split; [done|]. split; intros He; by rewrite He.
Qed.

Lemma text_extraction_witness :
  let m := [(js "conversation", JStr (js ""));
            (js "extendedTextMessage", JObj [(js "text", JStr (js "quoted reply"))])] in
  let props := [(js "message", JObj m)] in
  lookupProp (js "message") props = Some (JObj m) /\
  lookupProp (js "conversation") m = Some (JStr (js "")) /\
  truthyValue (JStr (js "")) = false /\
  Second.extractIncoming (JObj props) = Ok (Some (JStr (js "")), true) /\
  First.extractIncoming (JObj props) = (Some (JStr (js "quoted reply")), true).
Proof.
  intros m props.
  assert (H1 : lookupProp (js "message") props = Some (JObj m)) by reflexivity.
  assert (H2 : lookupProp (js "conversation") m = Some (JStr (js ""))) by reflexivity.
  assert (H3 : truthyValue (JStr (js "")) = false) by reflexivity.
  split; [exact H1|]. split; [exact H2|]. split; [exact H3|].
  destruct (proj2 (proj2 (proj2 (text_extraction props m H1))) (JStr (js "")) H2 H3)
    as (Hs & Hf & _).
  split; [exact Hs|]. exact (Hf eq_refl).
Defined.
